(** * Alofi navigation: route planning, nearest-node lookup and route scoring

    A shallow embedding of [app.py]: the CO2 and ventilation helpers, the
    nearest-node scan, the diverse-route planner and the route summary
    table, with the properties of the design document stated over them.
    The last part of the definitions embeds [split_file.py] and
    [reconstruct_file.py], with conventions of its own stated there.

    Conventions of the embedding.
    - Python numbers ([int] and [float]) are exact rationals [Q]; numeric
      equalities are stated with [==] ([Qeq]).
    - A Python exception is a value of [py_error]; a computation that may
      raise returns [result].
    - The graph is a simple directed graph: the code reads [G[u][v]] as the
      attribute dictionary of the edge (u, v).
    - Edge attribute dictionaries are objects of a heap ([list] of
      dictionaries indexed by location); a graph refers to them by
      location, so that [copy] and in-place updates are visible as such.
    - [networkx.shortest_path] and [geopy.great_circle] are library calls;
      the first is a parameter of the planner with its documented
      behaviour as laws ([solver_laws]), the second a parameter of the
      nearest-node scan. *)

From Stdlib Require Import QArith Qround Qminmax Qpower Lqa Lia ZArith List Bool.
From Stdlib Require Import Ascii.
From Stdlib Require DecimalString DecimalN DecimalPos.
From stdpp Require Import gmap strings list fin_maps.

Local Open Scope Q_scope.

(** ** Python values, exceptions *)

#[warnings="-register-all"]
Inductive value : Type :=
  | VNum (q : Q)
  | VStr (s : string)
  | VList (l : list value).

Inductive py_error : Type :=
  | TypeError
  | IndexError
  | KeyError
  | UnboundLocalError
  | ZeroDivisionError
  | NodeNotFound
  | NetworkXNoPath
  | ValueError.

Inductive result (A : Type) : Type :=
  | Ok (a : A)
  | Raise (e : py_error).
Arguments Ok {A} a.
Arguments Raise {A} e.

#[global] Instance result_ret : MRet result := fun A a => Ok a.
#[global] Instance result_bind : MBind result := fun A B k r =>
  match r with
  | Ok a => k a
  | Raise e => Raise e
  end.

(** An arithmetic operand: anything but a number raises [TypeError]. *)
Definition as_num (v : value) : result Q :=
  match v with
  | VNum q => Ok q
  | _ => Raise TypeError
  end.

(** [d.get(k, default)] on an attribute dictionary. *)
Definition dict_get (d : gmap string value) (k : string) (dflt : value) : value :=
  match d !! k with
  | Some v => v
  | None => dflt
  end.

(** ** CO2 helper *)

Definition default_emission_rate : Q := 150.

(** [calculate_co2(length_meters, emission_rate_g_per_km=150)] *)
Definition calculate_co2 (length_meters emission_rate_g_per_km : Q) : Q :=
  (length_meters / 1000) * emission_rate_g_per_km.

(** ** Ventilation estimate *)

(** [highway in [a, b]]: membership by [==]; only a string equals a string. *)
Definition value_in (v : value) (l : list string) : bool :=
  match v with
  | VStr s => existsb (String.eqb s) l
  | _ => false
  end.

(** [estimate_ventilation(edge)] *)
Definition estimate_ventilation (edge : gmap string value) : result Z :=
  let highway := dict_get edge "highway" (VStr "") in
  highway ← match highway with
             | VList l => match l with
                          | [] => Raise IndexError
                          | h :: _ => Ok h
                          end
             | _ => Ok highway
             end;
  if value_in highway ["motorway"; "tunnel"]%string then Ok 3%Z
  else if value_in highway ["primary"; "secondary"]%string then Ok 2%Z
  else Ok 1%Z.

(** ** Graphs

    Node identifiers are integers (OSM ids). A node carries its
    coordinates; an edge (u, v) refers to its attribute dictionary, a heap
    object. [nodes] and [adj] keep the iteration (insertion) order of the
    underlying Python dictionaries; a key is read at its first entry. *)

Abbreviation node := Z (only parsing).
Abbreviation loc := nat (only parsing).

Record node_data : Type := { node_y : Q; node_x : Q }.

Record Graph : Type := {
  nodes : list (node * node_data);
  adj : list (node * node * loc)
}.

(** [G._adj[u][v]]: the location of the attribute dictionary of (u, v). *)
Fixpoint adj_lookup (es : list (node * node * loc)) (u v : node) : option loc :=
  match es with
  | [] => None
  | (a, b, l) :: rest =>
      if (a =? u)%Z && (b =? v)%Z then Some l else adj_lookup rest u v
  end.

(** [G.has_edge(u, v)] *)
Definition has_edge (g : Graph) (u v : node) : bool :=
  match adj_lookup (adj g) u v with
  | Some _ => true
  | None => false
  end.

(** [G.get_edge_data(u, v)]: the attribute dictionary, or [None]. *)
Definition get_edge_data (g : Graph) (h : list (gmap string value)) (u v : node)
  : option (gmap string value) :=
  match adj_lookup (adj g) u v with
  | Some l => h !! l
  | None => None
  end.

(** [graph.copy()]: the same nodes and edges, every edge with a new
    attribute dictionary that starts as a copy of the old one. The new
    dictionaries are allocated at the end of the heap, in edge order. *)
Definition copy (g : Graph) (h : list (gmap string value))
  : Graph * list (gmap string value) :=
  ({| nodes := nodes g;
      adj := imap (fun i e => (e.1, (length h + i)%nat)) (adj g) |},
   h ++ map (fun e => default ∅ (h !! e.2)) (adj g)).

(** [zip(route[:-1], route[1:])] *)
Definition route_pairs (route : list node) : list (node * node) :=
  zip (removelast route) (tail route).

(** ** Nearest node *)

(** [a < b] on numbers. *)
Definition Qltb (a b : Q) : bool := negb (Qle_bool b a).

Section NearestNode.

(** [great_circle(c1, c2).meters] of geopy. *)
Variable great_circle : Q * Q -> Q * Q -> Q.

(** The loop of [find_nearest_node]; [min_dist = None] is
    [float("inf")]. *)
Fixpoint nearest_scan (coord : Q * Q) (ns : list (node * node_data))
    (nearest_node : option node) (min_dist : option Q) : option node :=
  match ns with
  | [] => nearest_node
  | (node_id, data) :: rest =>
      let node_coord := (node_y data, node_x data) in
      let dist := great_circle coord node_coord in
      if match min_dist with
         | None => true
         | Some m => Qltb dist m
         end
      then nearest_scan coord rest (Some node_id) (Some dist)
      else nearest_scan coord rest nearest_node min_dist
  end.

(** [find_nearest_node(coord)] on the selected graph [G]. *)
Definition find_nearest_node (G : Graph) (coord : Q * Q) : option node :=
  nearest_scan coord (nodes G) None None.

(** The state of the scan after the nodes [seen]: nothing yet, or the
    first node of [seen] at minimal distance together with that distance. *)
Definition scan_state (coord : Q * Q) (seen : list (node * node_data))
    (nearest_node : option node) (min_dist : option Q) : Prop :=
  (seen = [] /\ nearest_node = None /\ min_dist = None) \/
  (exists i n d,
      seen !! i = Some (n, d) /\ nearest_node = Some n /\
      min_dist = Some (great_circle coord (node_y d, node_x d)) /\
      (forall j m dm, seen !! j = Some (m, dm) ->
         great_circle coord (node_y d, node_x d)
           <= great_circle coord (node_y dm, node_x dm)) /\
      (forall j m dm, (j < i)%nat -> seen !! j = Some (m, dm) ->
         great_circle coord (node_y d, node_x d)
           < great_circle coord (node_y dm, node_x dm))).

End NearestNode.

(** ** The view of a graph that the path search reads *)

Record WGraph : Type := {
  wg_nodes : list node;
  wg_edges : list (node * node * gmap string value)
}.

Definition view (g : Graph) (h : list (gmap string value)) : WGraph :=
  {| wg_nodes := map fst (nodes g);
     wg_edges := map (fun e => (e.1, default ∅ (h !! e.2))) (adj g) |}.

Fixpoint wg_lookup (es : list (node * node * gmap string value)) (u v : node)
  : option (gmap string value) :=
  match es with
  | [] => None
  | (a, b, d) :: rest =>
      if (a =? u)%Z && (b =? v)%Z then Some d else wg_lookup rest u v
  end.

(** networkx reads the weight as [data.get('travel_time', 1)]. *)
Definition edge_weight (d : gmap string value) : value :=
  dict_get d "travel_time" (VNum 1).

Definition wg_has_edge (G : WGraph) (u v : node) : bool :=
  match wg_lookup (wg_edges G) u v with
  | Some _ => true
  | None => false
  end.

(** The weight of (u, v) as a number; 0 where there is no numeric weight. *)
Definition wg_weight (G : WGraph) (u v : node) : Q :=
  match wg_lookup (wg_edges G) u v with
  | Some d => match edge_weight d with
              | VNum q => q
              | _ => 0
              end
  | None => 0
  end.

(** Every weight the search can read is a non-negative number. *)
Definition good_weights (G : WGraph) : Prop :=
  forall u v d, wg_lookup (wg_edges G) u v = Some d ->
    exists q, edge_weight d = VNum q /\ 0 <= q.

(** [p] follows edges of the graph. *)
Fixpoint is_walk (E : node -> node -> bool) (p : list node) : bool :=
  match p with
  | [] => false
  | u :: rest =>
      match rest with
      | [] => true
      | v :: _ => E u v && is_walk E rest
      end
  end.

(** [p] is a path from [s] to [t]. *)
Definition is_path (E : node -> node -> bool) (s t : node) (p : list node) : Prop :=
  head p = Some s /\ last p = Some t /\ is_walk E p = true.

Fixpoint path_weight (w : node -> node -> Q) (p : list node) : Q :=
  match p with
  | [] => 0
  | u :: rest =>
      match rest with
      | [] => 0
      | v :: _ => w u v + path_weight w rest
      end
  end.

(** [r] is a path from [s] to [t] and no path from [s] to [t] weighs less. *)
Definition shortest_under (E : node -> node -> bool) (w : node -> node -> Q)
    (s t : node) (r : list node) : Prop :=
  is_path E s t r /\
  forall p, is_path E s t p -> path_weight w r <= path_weight w p.

(** The documented behaviour of
    [networkx.shortest_path(G, source, target, weight='travel_time')]. *)
Record solver_laws (sp : WGraph -> node -> node -> result (list node)) : Prop := {
  sp_source_not_found : forall G s t,
    ~ In s (wg_nodes G) -> sp G s t = Raise NodeNotFound;
  sp_source_is_target : forall G s,
    In s (wg_nodes G) -> sp G s s = Ok [s];
  sp_no_path : forall G s t,
    good_weights G -> In s (wg_nodes G) -> In t (wg_nodes G) ->
    (forall p, ~ is_path (wg_has_edge G) s t p) ->
    sp G s t = Raise NetworkXNoPath;
  sp_shortest : forall G s t,
    good_weights G -> In s (wg_nodes G) -> In t (wg_nodes G) ->
    (exists p, is_path (wg_has_edge G) s t p) ->
    exists r, sp G s t = Ok r /\
      shortest_under (wg_has_edge G) (wg_weight G) s t r
}.

(** ** Route generator *)

(** [G_temp[u][v]['travel_time'] *= penalty_factor], guarded by
    [G_temp.has_edge(u, v)]. *)
Definition penalize_edge (G_temp : Graph) (penalty_factor : Q) (u v : node)
    (h : list (gmap string value)) : result (list (gmap string value)) :=
  match adj_lookup (adj G_temp) u v with
  | None => Ok h
  | Some l =>
      match h !! l with
      | None => Raise KeyError
      | Some d =>
          match d !! "travel_time" with
          | None => Raise KeyError
          | Some w =>
              q ← as_num w;
              Ok (<[l := <["travel_time" := VNum (q * penalty_factor)]> d]> h)
          end
      end
  end.

(** The inner [for u, v in zip(...)] loop; an exception leaves the heap as
    it is at that point. *)
Fixpoint penalize_route (G_temp : Graph) (penalty_factor : Q)
    (ps : list (node * node)) (h : list (gmap string value))
  : option py_error * list (gmap string value) :=
  match ps with
  | [] => (None, h)
  | (u, v) :: rest =>
      match penalize_edge G_temp penalty_factor u v h with
      | Ok h' => penalize_route G_temp penalty_factor rest h'
      | Raise e => (Some e, h)
      end
  end.

Section Planner.

Variable shortest_path : WGraph -> node -> node -> result (list node).

(** The [for i in range(num_routes)] loop. *)
Fixpoint plan_loop (n : nat) (start_node end_node : node) (G_temp : Graph)
    (penalty_factor : Q) (routes : list (list node))
    (h : list (gmap string value))
  : result (list (list node)) * list (gmap string value) :=
  match n with
  | O => (Ok routes, h)
  | S n' =>
      match shortest_path (view G_temp h) start_node end_node with
      | Ok route =>
          match penalize_route G_temp penalty_factor (route_pairs route) h with
          | (None, h') =>
              plan_loop n' start_node end_node G_temp penalty_factor
                (routes ++ [route]) h'
          | (Some e, h') => (Raise e, h')
          end
      | Raise NetworkXNoPath => (Ok routes, h)
      | Raise e => (Raise e, h)
      end
  end.

(** [get_diverse_routes(start_node, end_node, graph, num_routes,
    penalty_factor)]: the result (or the exception raised) and the heap
    it leaves. *)
Definition get_diverse_routes (start_node end_node : node) (graph : Graph)
    (num_routes : nat) (penalty_factor : Q) (h : list (gmap string value))
  : result (list (list node)) * list (gmap string value) :=
  let '(G_temp, h1) := copy graph h in
  plan_loop num_routes start_node end_node G_temp penalty_factor [] h1.

End Planner.

Definition default_num_routes : nat := 5.
Definition default_penalty_factor : Q := 2.

(** ** Route summary table *)

(** [min(a, b)] and [max(a, b)] of Python on two numbers: the first
    argument unless the second is strictly smaller (larger). *)
Definition py_min (a b : Q) : Q := if Qltb b a then b else a.
Definition py_max (a b : Q) : Q := if Qltb a b then b else a.

(** [round(x, ndigits)]: to the nearest multiple of [10^-ndigits], a tie
    to the even one. *)
Definition py_round (x : Q) (ndigits : nat) : Q :=
  let s := (10 ^ Z.of_nat ndigits)%Z in
  let y := x * inject_Z s in
  let f := Qfloor y in
  let r := y - inject_Z f in
  let n := if Qltb r (1 # 2) then f
           else if Qltb (1 # 2) r then (f + 1)%Z
           else if Z.even f then f else (f + 1)%Z in
  inject_Z n / inject_Z s.

(** Truth value of a dictionary: non-empty. *)
Definition dict_truthy (d : gmap string value) : bool :=
  negb (Nat.eqb (size d) 0).

Record totals : Type := {
  total_length : Q;
  total_time : Q;
  total_co2 : Q;
  total_ventilation : Q;
  total_score : Q
}.

Definition zero_totals : totals :=
  {| total_length := 0; total_time := 0; total_co2 := 0;
     total_ventilation := 0; total_score := 0 |}.

(** [edge.get('ventilation_penalty', estimate_ventilation(edge))]: the
    default is computed before the lookup. *)
Definition edge_ventilation (edge : gmap string value) : result value :=
  est ← estimate_ventilation edge;
  Ok (dict_get edge "ventilation_penalty" (VNum (inject_Z est))).

(** The clamped score of one edge. *)
Definition edge_score (calculated_co2 ventilation : Q) : Q :=
  let score := 100 - ((5 # 100) * calculated_co2) - (10 * ventilation) in
  py_max 0 (py_min 100 score).

(** The body of [if edge:] for one edge. *)
Definition summarize_edge (edge : gmap string value) (acc : totals)
  : result totals :=
  let length := dict_get edge "length" (VNum 0) in
  let travel_time := dict_get edge "travel_time" (VNum 0) in
  length ← as_num length;
  let calculated_co2 := calculate_co2 length default_emission_rate in
  travel_time ← as_num travel_time;
  ventilation ← edge_ventilation edge;
  ventilation ← as_num ventilation;
  Ok {| total_length := total_length acc + length;
        total_time := total_time acc + travel_time;
        total_co2 := total_co2 acc + calculated_co2;
        total_ventilation := total_ventilation acc + ventilation;
        total_score := total_score acc + edge_score calculated_co2 ventilation |}.

(** The loop over the consecutive pairs of one route. [vent_count] is the
    local variable of that name: [None] while it is unbound. *)
Fixpoint route_loop (G : Graph) (h : list (gmap string value)) (len_route : nat)
    (ps : list (node * node)) (acc : totals) (vent_count : option Z)
  : result (totals * option Z) :=
  match ps with
  | [] => Ok (acc, vent_count)
  | (u, v) :: rest =>
      match get_edge_data G h u v with
      | Some edge =>
          if dict_truthy edge then
            acc' ← summarize_edge edge acc;
            route_loop G h len_route rest acc' (Some (Z.of_nat len_route - 1)%Z)
          else route_loop G h len_route rest acc vent_count
      | None => route_loop G h len_route rest acc vent_count
      end
  end.

Record summary_row : Type := {
  Route : nat;
  Nodes : nat;
  Distance_m : Q;
  Travel_Time_min : Q;
  CO2_Emissions_g : Q;
  Ventilation_Penalty : Q;
  Sustainability_Score : Q
}.

(** [total_ventilation / vent_count] *)
Definition mean_ventilation (total_ventilation : Q) (vent_count : option Z)
  : result Q :=
  match vent_count with
  | None => Raise UnboundLocalError
  | Some c =>
      if (c =? 0)%Z then Raise ZeroDivisionError
      else Ok (total_ventilation / inject_Z c)
  end.

(** The loop over the routes, [i] the index of [enumerate]; [vent_count]
    lives across the iterations. *)
Fixpoint summarize_loop (G : Graph) (h : list (gmap string value)) (i : nat)
    (routes : list (list node)) (vent_count : option Z)
  : result (list summary_row) :=
  match routes with
  | [] => Ok []
  | route :: rest =>
      '(tot, vent_count) ←
        route_loop G h (length route) (route_pairs route) zero_totals vent_count;
      mean ← mean_ventilation (total_ventilation tot) vent_count;
      let row :=
        {| Route := S i;
           Nodes := length route;
           Distance_m := py_round (total_length tot) 1;
           Travel_Time_min := py_round (total_time tot / 60) 1;
           CO2_Emissions_g := py_round (total_co2 tot) 2;
           Ventilation_Penalty := py_round mean 2;
           Sustainability_Score := py_round (total_score tot) 2 |} in
      rows ← summarize_loop G h (S i) rest vent_count;
      Ok (row :: rows)
  end.

(** [summarize_routes(routes)] on the selected graph [G]. *)
Definition summarize_routes (G : Graph) (h : list (gmap string value))
    (routes : list (list node)) : result (list summary_row) :=
  summarize_loop G h 0 routes None.

(** ** A path search that meets [solver_laws]

    Exhaustive search over the simple paths; it shows that the laws can be
    met and gives the planner something to run on. *)

Fixpoint simple_paths (fuel : nat) (es : list (node * node * gmap string value))
    (visited : list node) (u t : node) : list (list node) :=
  if (u =? t)%Z then [[t]]
  else
    match fuel with
    | O => []
    | S f =>
        flat_map
          (fun e =>
             if (e.1.1 =? u)%Z && negb (existsb (Z.eqb e.1.2) visited)
             then map (cons u) (simple_paths f es (e.1.2 :: visited) e.1.2 t)
             else [])
          es
    end.

Fixpoint lightest (w : node -> node -> Q) (ps : list (list node))
  : option (list node) :=
  match ps with
  | [] => None
  | p :: rest =>
      match lightest w rest with
      | None => Some p
      | Some q =>
          if Qle_bool (path_weight w p) (path_weight w q) then Some p else Some q
      end
  end.

Definition enum_shortest_path (G : WGraph) (s t : node) : result (list node) :=
  if negb (existsb (Z.eqb s) (wg_nodes G) && existsb (Z.eqb t) (wg_nodes G))
  then Raise NodeNotFound
  else if (s =? t)%Z then Ok [s]
  else
    match lightest (wg_weight G)
            (simple_paths (length (wg_edges G)) (wg_edges G) [s] s t) with
    | Some r => Ok r
    | None => Raise NetworkXNoPath
    end.

(** ** Weights after penalties *)

(** How often the pair (u, v) occurs in a list of pairs. *)
Definition count_pairs (ps : list (node * node)) (u v : node) : nat :=
  length (List.filter (fun p => (p.1 =? u)%Z && (p.2 =? v)%Z) ps).

(** How often the pair (u, v) is traversed by the routes. *)
Definition traversals (routes : list (list node)) (u v : node) : nat :=
  count_pairs (concat (map route_pairs routes)) u v.

(** The weights [w] with every edge multiplied by [P] once for each
    traversal by [routes]. *)
Definition penalized (w : node -> node -> Q) (P : Q) (routes : list (list node))
    (u v : node) : Q :=
  w u v * P ^ Z.of_nat (traversals routes u v).

(** ** A small network to run the functions on

    Four nodes on a line 1 - 2 - 3 - 4 (one way), with a shortcut 1 - 3;
    every edge 1000 m of residential road. *)

Definition example_edge (travel_time : Q) : gmap string value :=
  {[ "length" := VNum 1000; "travel_time" := VNum travel_time;
     "highway" := VStr "residential" ]}.

Definition example_graph : Graph :=
  {| nodes := [(1%Z, {| node_y := 0; node_x := 0 |});
               (2%Z, {| node_y := 0; node_x := 1 |});
               (3%Z, {| node_y := 0; node_x := 2 |});
               (4%Z, {| node_y := 0; node_x := 3 |})];
     adj := [(1%Z, 2%Z, 0%nat); (2%Z, 3%Z, 1%nat); (3%Z, 4%Z, 2%nat);
             (1%Z, 3%Z, 3%nat)] |}.

Definition example_heap : list (gmap string value) :=
  [example_edge 100; example_edge 100; example_edge 100; example_edge 150].

(** A stand-in for the great-circle distance on the example: the squared
    difference of the x coordinates. *)
Definition example_distance (c1 c2 : Q * Q) : Q :=
  (c1.2 - c2.2) * (c1.2 - c2.2).

(** Three nodes on a one-way line 1 - 2 - 3. *)
Definition line_graph : Graph :=
  {| nodes := [(1%Z, {| node_y := 0; node_x := 0 |});
               (2%Z, {| node_y := 0; node_x := 1 |});
               (3%Z, {| node_y := 0; node_x := 2 |})];
     adj := [(1%Z, 2%Z, 0%nat); (2%Z, 3%Z, 1%nat)] |}.

Definition line_heap : list (gmap string value) :=
  [example_edge 100; example_edge 100].

(** ** Notions used to state the properties of the planner *)

(** The position in [es] of the entry that (u, v) is read at. *)
Fixpoint adj_index (es : list (node * node * loc)) (u v : node) : option nat :=
  match es with
  | [] => None
  | (a, b, _) :: rest =>
      if (a =? u)%Z && (b =? v)%Z then Some O else S <$> adj_index rest u v
  end.

(** Every edge of [g] refers to a dictionary of the heap [h] (as every
    edge of a Python graph does; where a location refers to nothing, [copy]
    and [view] read an empty dictionary). *)
Definition wf_graph (g : Graph) (h : list (gmap string value)) : Prop :=
  Forall (fun e => (e.2 < length h)%nat) (adj g).

(** Every edge of [g] has a numeric, non-negative ['travel_time']. *)
Definition travel_times_ok (g : Graph) (h : list (gmap string value)) : Prop :=
  forall u v d, get_edge_data g h u v = Some d ->
    exists q, d !! "travel_time" = Some (VNum q) /\ 0 <= q.

(** The heap [hk] holds, for every edge of [g], at the location of the
    edge in the copy made from heap [h], a dictionary whose ['travel_time']
    is the original weight times [P] to the power [c u v]. *)
Definition penalties_applied (g : Graph) (h : list (gmap string value)) (P : Q)
    (c : node -> node -> nat) (hk : list (gmap string value)) : Prop :=
  forall u v i, adj_index (adj g) u v = Some i ->
    exists d q, hk !! (length h + i)%nat = Some d /\
      d !! "travel_time" = Some (VNum q) /\
      q == wg_weight (view g h) u v * P ^ Z.of_nat (c u v).

(** ** Notions used to state the properties of the summary *)

(** The attribute dictionaries of the pairs of a route that the summary
    takes into account: an edge record exists and is a non-empty
    dictionary. *)
Definition traversed_edges (G : Graph) (h : list (gmap string value))
    (route : list node) : list (gmap string value) :=
  omap (fun p => match get_edge_data G h p.1 p.2 with
                 | Some edge => if dict_truthy edge then Some edge else None
                 | None => None
                 end)
       (route_pairs route).

Definition Qsum (l : list Q) : Q := fold_right Qplus 0 l.



(** The attributes of [edge] that the summary adds up are numbers. *)
Definition numeric_edge (edge : gmap string value) : Prop :=
  (exists len, as_num (dict_get edge "length" (VNum 0)) = Ok len) /\
  (exists tt, as_num (dict_get edge "travel_time" (VNum 0)) = Ok tt) /\
  (exists vent, edge_ventilation edge ≫= as_num = Ok vent).

(** The tag that [estimate_ventilation] classifies: the value under
    ["highway"], its first element when it is a non-empty list, the empty
    string when the key is absent. *)
Definition examined_tag (edge : gmap string value) : value :=
  match edge !! "highway" with
  | None => VStr ""
  | Some (VList (t :: _)) => t
  | Some v => v
  end.

(** ** Map of the routes *)

(** [G.nodes[n]]: the data of node [n], read at its first entry. *)
Fixpoint node_lookup (ns : list (node * node_data)) (n : node)
  : option node_data :=
  match ns with
  | [] => None
  | (m, data) :: rest => if (m =? n)%Z then Some data else node_lookup rest n
  end.

Definition colors : list string :=
  ["blue"; "green"; "red"; "purple"; "orange"]%string.

(** A [folium.PolyLine] as [create_map] builds it; [tooltip_route] is the
    number in the tooltip ["... Route {i+1}"]. *)
Record polyline : Type := {
  locations : list (Q * Q);
  color : string;
  line_weight : Z;
  opacity : Q;
  tooltip_route : nat
}.

Record marker : Type := {
  marker_location : Q * Q;
  popup : string;
  icon_color : string
}.

Record folium_map : Type := {
  map_location : Q * Q;
  zoom_start : Z;
  polylines : list polyline;
  markers : list marker
}.

(** [[(G.nodes[n]["y"], G.nodes[n]["x"]) for n in route]]: a node that is
    not in the graph raises [KeyError]. *)
Fixpoint route_coords (G : Graph) (route : list node) : result (list (Q * Q)) :=
  match route with
  | [] => Ok []
  | n :: rest =>
      match node_lookup (nodes G) n with
      | None => Raise KeyError
      | Some data =>
          coords ← route_coords G rest;
          Ok ((node_y data, node_x data) :: coords)
      end
  end.

(** [folium.PolyLine(locations=..., ...)]: a line without locations is
    refused with [ValueError]. *)
Definition PolyLine (locations : list (Q * Q)) (color : string)
    (weight : Z) (opacity : Q) (tooltip : nat) : result polyline :=
  match locations with
  | [] => Raise ValueError
  | _ =>
      Ok {| locations := locations;
            color := color;
            line_weight := weight;
            opacity := opacity;
            tooltip_route := tooltip |}
  end.

(** The [for i, route in enumerate(routes)] loop of [create_map]. *)
Fixpoint create_map_loop (G : Graph) (i : nat) (routes : list (list node))
  : result (list polyline) :=
  match routes with
  | [] => Ok []
  | route :: rest =>
      route_coords ← route_coords G route;
      line ← PolyLine route_coords
               (nth (i mod length colors) colors ""%string)
               5 (8 # 10) (S i);
      lines ← create_map_loop G (S i) rest;
      Ok (line :: lines)
  end.

(** [create_map(routes, start_coord, end_coord)] on the selected graph. *)
Definition create_map (G : Graph) (routes : list (list node))
    (start_coord end_coord : Q * Q) : result folium_map :=
  lines ← create_map_loop G 0 routes;
  Ok {| map_location := start_coord;
        zoom_start := 14;
        polylines := lines;
        markers :=
          [ {| marker_location := start_coord; popup := "Start";
               icon_color := "green" |};
            {| marker_location := end_coord; popup := "End";
               icon_color := "red" |} ] |}.

(** ** The "Generate Routes" button *)

(** What the handler reports: the exception caught by
    [except Exception as e], raised by [float(...)] on an input field or
    by one of the functions. *)
Inductive ui_error : Type :=
  | FloatValueError
  | Raised (e : py_error).

Inductive ui_outcome : Type :=
  | Error_shown (e : ui_error)
  | No_nearby_nodes
  | No_routes_found
  | Routes_shown (routes : list (list node)) (route_map : folium_map)
      (route_table : list summary_row).

Section Handler.

Variable shortest_path : WGraph -> node -> node -> result (list node).
Variable great_circle : Q * Q -> Q * Q -> Q.

(** The body of [if st.button("Generate Routes"):]. An input field is the
    number [float(...)] gives, or [None] where [float(...)] raises. *)
Definition on_generate_routes (G : Graph) (h : list (gmap string value))
    (start_lat start_lon end_lat end_lon : option Q) : ui_outcome :=
  match start_lat, start_lon, end_lat, end_lon with
  | Some slat, Some slon, Some elat, Some elon =>
      let start_coord := (slat, slon) in
      let end_coord := (elat, elon) in
      let start_node := find_nearest_node great_circle G start_coord in
      let end_node := find_nearest_node great_circle G end_coord in
      match start_node, end_node with
      | Some start_node, Some end_node =>
          match get_diverse_routes shortest_path start_node end_node G
                  default_num_routes default_penalty_factor h with
          | (Raise e, _) => Error_shown (Raised e)
          | (Ok [], _) => No_routes_found
          | (Ok routes, h') =>
              match create_map G routes start_coord end_coord with
              | Raise e => Error_shown (Raised e)
              | Ok route_map =>
                  match summarize_routes G h' routes with
                  | Raise e => Error_shown (Raised e)
                  | Ok route_table => Routes_shown routes route_map route_table
                  end
              end
          end
      | _, _ => No_nearby_nodes
      end
  | _, _, _, _ => Error_shown FloatValueError
  end.

End Handler.

(** ** Notions used to state further properties *)

(** The numbers of the traversed edges that the summary adds up. *)
Definition edge_numbers (edge : gmap string value) (len tt vent : Q) : Prop :=
  as_num (dict_get edge "length" (VNum 0)) = Ok len /\
  as_num (dict_get edge "travel_time" (VNum 0)) = Ok tt /\
  edge_ventilation edge ≫= as_num = Ok vent.

(** Every edge of [g] carries numbers where the summary expects them. *)
Definition edges_numeric (g : Graph) (h : list (gmap string value)) : Prop :=
  forall u v d, get_edge_data g h u v = Some d -> numeric_edge d.

(** [vent_count] is unbound or holds a positive count. *)
Definition vent_count_ok (vent_count : option Z) : Prop :=
  match vent_count with
  | None => True
  | Some c => (1 <= c)%Z
  end.

(** Every edge of [g] joins nodes of [g] (as networkx keeps it). *)
Definition edges_closed (g : Graph) : Prop :=
  forall u v, has_edge g u v = true ->
    In u (map fst (nodes g)) /\ In v (map fst (nodes g)).

(** * Splitting a file into chunks and putting it together again

    An embedding of [split_file.py] and [reconstruct_file.py].
    - The contents of a binary file are bytes and the text of a text file
      is characters with codes below 256, both [list ascii]; writing text
      and reading it gives the same text, apart from the translation of
      line ends on reading.
    - The file system is a map from paths to the contents of the files;
      every directory exists, and the only I/O failure is a file that is not
      there. [os.listdir] is a parameter: the names of the files of a
      directory, in an order of its own.
    - Paths are POSIX paths. Sizes are exact integers: [math.ceil(a / b)]
      is the ceiling of the exact quotient.
    - A write is seen by the next read of the file; the properties below
      leave aside an output file that is also one of the chunks it is
      copied from.
    - Messages printed on the way are left out, except where printing one
      can raise. *)

(** A Python string literal, character by character. *)
Definition txt (s : string) : list ascii := String.list_ascii_of_string s.

Inductive io_error : Type :=
  | FileNotFoundError
  | Py (e : py_error).

Inductive io_result (A : Type) : Type :=
  | Done (a : A)
  | Fails (e : io_error).
Arguments Done {A} a.
Arguments Fails {A} e.

Section FileSplit.

Local Open Scope Z_scope.
Local Open Scope list_scope.

(** ** Strings *)

(** [s.startswith(p)] *)
Fixpoint startswith (s p : list ascii) {struct p} : bool :=
  match p with
  | [] => true
  | c :: p' =>
      match s with
      | [] => false
      | d :: s' => Ascii.eqb d c && startswith s' p'
      end
  end.

(** [s.endswith(p)] *)
Definition endswith (s p : list ascii) : bool := startswith (rev s) (rev p).

(** [s.find(sub)], [None] for -1. *)
Fixpoint find_sub (s sub : list ascii) : option nat :=
  if startswith s sub then Some O
  else
    match s with
    | [] => None
    | _ :: s' => S <$> find_sub s' sub
    end.

(** [sub in s] *)
Definition contains (s sub : list ascii) : bool :=
  match find_sub s sub with
  | Some _ => true
  | None => false
  end.

(** [s.split(sep, 1)] *)
Definition split1 (s sep : list ascii) : list (list ascii) :=
  match find_sub s sep with
  | Some i => [take i s; drop (i + length sep) s]
  | None => [s]
  end.

(** [s.split(sep)[0]] *)
Definition split_head (s sep : list ascii) : list ascii :=
  match find_sub s sep with
  | Some i => take i s
  | None => s
  end.

(** [c.isspace()] for a character below 256: tab, line feed, vertical tab,
    form feed, carriage return, the separators 28 to 31, space, next line
    (133) and no-break space (160). *)
Definition is_space (c : ascii) : bool :=
  let n := nat_of_ascii c in
  ((9 <=? n) && (n <=? 13) || (28 <=? n) && (n <=? 32)
   || (n =? 133) || (n =? 160))%nat.

Fixpoint lstrip (s : list ascii) : list ascii :=
  match s with
  | [] => []
  | c :: s' => if is_space c then lstrip s' else s
  end.

(** [s.strip()] *)
Definition strip (s : list ascii) : list ascii :=
  rev (lstrip (rev (lstrip s))).

Fixpoint until_space (s : list ascii) : list ascii :=
  match s with
  | [] => []
  | c :: s' => if is_space c then [] else c :: until_space s'
  end.

(** [s.split()[0]], [None] where the list is empty ([IndexError]). *)
Definition first_token (s : list ascii) : option (list ascii) :=
  match lstrip s with
  | [] => None
  | s' => Some (until_space s')
  end.

(** [' , '.join(...)]-style joining: [sep.join(l)] *)
Fixpoint join_with (sep : list ascii) (l : list (list ascii)) : list ascii :=
  match l with
  | [] => []
  | [x] => x
  | x :: rest => x ++ sep ++ join_with sep rest
  end.

(** What a text file gives on reading: every line end (["\r\n"], ["\r"],
    ["\n"]) becomes ["\n"]. *)
Fixpoint universal_newlines (s : list ascii) : list ascii :=
  match s with
  | [] => []
  | c :: r =>
      if Ascii.eqb c "013" then
        match r with
        | d :: r' =>
            if Ascii.eqb d "010" then "010"%char :: universal_newlines r'
            else "010"%char :: universal_newlines r
        | [] => ["010"%char]
        end
      else c :: universal_newlines r
  end.

Fixpoint lines_keepends (s cur : list ascii) : list (list ascii) :=
  match s with
  | [] => match cur with [] => [] | _ => [rev cur] end
  | c :: r =>
      if Ascii.eqb c "010" then rev (c :: cur) :: lines_keepends r []
      else lines_keepends r (c :: cur)
  end.

(** [f.readlines()] of a file opened in text mode. *)
Definition readlines (content : list ascii) : list (list ascii) :=
  lines_keepends (universal_newlines content) [].

(** ** Numbers as text *)

(** [str(n)] of a natural number. *)
Definition decimal (n : N) : list ascii :=
  String.list_ascii_of_string (DecimalString.NilEmpty.string_of_uint (N.to_uint n)).

(** [str(n)] of an integer. *)
Definition str_int (n : Z) : list ascii :=
  if n <? 0 then "-"%char :: decimal (Z.to_N (- n)) else decimal (Z.to_N n).

(** Reading decimal digits back, as a number. *)
Definition read_digits (s : list ascii) : option N :=
  N.of_uint <$> DecimalString.NilEmpty.uint_of_string
                  (String.string_of_list_ascii s).

(** [f"{n:02d}"] *)
Definition pad2 (n : N) : list ascii :=
  let d := decimal n in
  if (length d <? 2)%nat then "0"%char :: d else d.

Definition is_digit (c : ascii) : bool :=
  let n := nat_of_ascii c in ((48 <=? n) && (n <=? 57))%nat.

(** Underscores in a number: single, between digits. *)
Fixpoint underscores_ok (prev_digit : bool) (s : list ascii) : bool :=
  match s with
  | [] => prev_digit
  | c :: r =>
      if Ascii.eqb c "_" then prev_digit && underscores_ok false r
      else underscores_ok true r
  end.

(** [int(s)]: blanks around, a sign, decimal digits with single
    underscores between them; [None] is [ValueError]. *)
Definition py_int (s : list ascii) : option Z :=
  let s := strip s in
  let '(negative, body) :=
    match s with
    | c :: r =>
        if Ascii.eqb c "-" then (true, r)
        else if Ascii.eqb c "+" then (false, r)
        else (false, s)
    | [] => (false, s)
    end in
  if forallb (fun c => is_digit c || Ascii.eqb c "_") body
     && underscores_ok false body
  then
    match DecimalString.NilEmpty.uint_of_string
            (String.string_of_list_ascii
               (List.filter (fun c => negb (Ascii.eqb c "_")) body)) with
    | Some d =>
        let n := Z.of_N (N.of_uint d) in
        Some (if negative then - n else n)
    | None => None
    end
  else None.

(** ** Paths *)

(** [os.path.join(a, b)] *)
Definition path_join (a b : list ascii) : list ascii :=
  if startswith b (txt "/") then b
  else if match a with [] => true | _ => endswith a (txt "/") end then a ++ b
  else a ++ txt "/" ++ b.

(** [os.path.basename(p)]: what follows the last ["/"]. *)
Fixpoint basename_from (p cur : list ascii) : list ascii :=
  match p with
  | [] => rev cur
  | c :: r =>
      if Ascii.eqb c "/" then basename_from r [] else basename_from r (c :: cur)
  end.

Definition basename (p : list ascii) : list ascii := basename_from p [].

(** [p.rfind(c)], [-1] where [c] does not occur. *)
Fixpoint rfind_from (c : ascii) (p : list ascii) (i last : Z) : Z :=
  match p with
  | [] => last
  | d :: r => rfind_from c r (i + 1) (if Ascii.eqb d c then i else last)
  end.

Definition rfind (c : ascii) (p : list ascii) : Z := rfind_from c p 0 (-1).

(** [os.path.splitext(p)]: split at the last dot of the last component,
    unless only dots come before it there. *)
Definition splitext (p : list ascii) : list ascii * list ascii :=
  let sepIndex := rfind "/" p in
  let dotIndex := rfind "." p in
  if (sepIndex <? dotIndex)
     && existsb (fun c => negb (Ascii.eqb c "."))
          (take (Z.to_nat (dotIndex - (sepIndex + 1)))
                (drop (Z.to_nat (sepIndex + 1)) p))
  then (take (Z.to_nat dotIndex) p, drop (Z.to_nat dotIndex) p)
  else (p, []).

(** ** Files *)

(** [os.listdir]: the names of the files of a directory. *)
Variable listdir : gmap (list ascii) (list ascii) -> list ascii -> list (list ascii).

(** ** [split_file] *)

(** The [while bytes_written < chunk_size_bytes] loop of one chunk:
    [infile] is what is left to read, [outfile] what the chunk holds. Each
    turn that goes on reads at least one byte, so the fuel, one more than
    the bytes left, is enough. *)
Fixpoint write_chunk (fuel : nat) (chunk_size_bytes : Z)
    (infile outfile : list ascii) (bytes_written : Z)
  : list ascii * list ascii :=
  match fuel with
  | O => (infile, outfile)
  | S fuel' =>
      if bytes_written <? chunk_size_bytes then
        let block_size := Z.min 8192 (chunk_size_bytes - bytes_written) in
        let block := take (Z.to_nat block_size) infile in
        let infile := drop (Z.to_nat block_size) infile in
        match block with
        | [] => (infile, outfile)
        | _ =>
            write_chunk fuel' chunk_size_bytes infile (outfile ++ block)
              (bytes_written + Z.of_nat (length block))
        end
      else (infile, outfile)
  end.

(** [f"{base_name}_part_{chunk_num + 1:02d}.chunk"] *)
Definition chunk_filename (base_name : list ascii) (chunk_num : nat)
  : list ascii :=
  base_name ++ txt "_part_" ++ pad2 (N.of_nat (chunk_num + 1)) ++ txt ".chunk".

(** The [for chunk_num in range(num_chunks)] loop. *)
Fixpoint split_loop (chunk_nums : list nat) (output_dir base_name : list ascii)
    (chunk_size_bytes : Z) (infile : list ascii)
    (chunk_files : list (list ascii)) (fs : gmap (list ascii) (list ascii))
  : list (list ascii) * gmap (list ascii) (list ascii) :=
  match chunk_nums with
  | [] => (chunk_files, fs)
  | chunk_num :: rest =>
      let chunk_filename := chunk_filename base_name chunk_num in
      let chunk_path := path_join output_dir chunk_filename in
      let chunk_files := chunk_files ++ [chunk_filename] in
      let '(infile, outfile) :=
        write_chunk (S (length infile)) chunk_size_bytes infile [] 0 in
      split_loop rest output_dir base_name chunk_size_bytes infile chunk_files
        (<[chunk_path := outfile]> fs)
  end.

(** [f"  {i:02d}. {chunk_file} ({chunk_size} bytes)"] *)
Definition chunk_line (i : nat) (chunk_file : list ascii) (chunk_size : nat)
  : list ascii :=
  txt "  " ++ pad2 (N.of_nat i) ++ txt ". " ++ chunk_file
  ++ txt " (" ++ decimal (N.of_nat chunk_size) ++ txt " bytes)".

(** The line of the manifest for the chunk at position [i]:
    [f"  {i:02d}. {chunk_file} ({chunk_size} bytes)\n"], the size read from
    the file system. *)
Definition manifest_chunk_line (fs : gmap (list ascii) (list ascii))
    (output_dir : list ascii) (i : nat) (chunk_file : list ascii)
  : io_result (list ascii) :=
  let chunk_path := path_join output_dir chunk_file in
  match fs !! chunk_path with
  | None => Fails FileNotFoundError
  | Some content =>
      let chunk_size := length content in
      Done (chunk_line i chunk_file chunk_size ++ ["010"%char])
  end.

Fixpoint manifest_chunk_lines (fs : gmap (list ascii) (list ascii))
    (output_dir : list ascii) (i : nat) (chunk_files : list (list ascii))
  : io_result (list ascii) :=
  match chunk_files with
  | [] => Done []
  | chunk_file :: rest =>
      match manifest_chunk_line fs output_dir i chunk_file with
      | Fails e => Fails e
      | Done line =>
          match manifest_chunk_lines fs output_dir (S i) rest with
          | Fails e => Fails e
          | Done lines => Done (line ++ lines)
          end
      end
  end.

(** The four lines the manifest opens with. *)
Definition manifest_head (file_name : list ascii) (file_size num_chunks : Z)
  : list ascii :=
  ((txt "Original file: " ++ file_name) ++ ["010"%char])
  ++ ((txt "Original size: " ++ str_int file_size ++ txt " bytes")
      ++ ["010"%char])
  ++ ((txt "Number of chunks: " ++ str_int num_chunks) ++ ["010"%char])
  ++ (txt "Chunk files:" ++ ["010"%char]).

(** [range(n)] for an integer [n]. *)
Definition py_range (n : Z) : list nat := seq 0 (Z.to_nat n).

(** [math.ceil(a / b)] for integers, [b] not 0. *)
Definition ceil_div (a b : Z) : Z := - ((- a) / b).

(** [split_file(input_file, output_dir, chunk_size_mb)]: the chunk names,
    the path of the manifest and the file system left. The input is read
    through the handle opened before the first chunk is written; no chunk
    and no manifest has the name of the input file. *)
Definition split_file (fs : gmap (list ascii) (list ascii))
    (input_file output_dir : list ascii) (chunk_size_mb : Z)
  : io_result (list (list ascii) * list ascii * gmap (list ascii) (list ascii)) :=
  let chunk_size_bytes := chunk_size_mb * 1024 * 1024 in
  match fs !! input_file with
  | None => Fails FileNotFoundError
  | Some data =>
      let file_size := Z.of_nat (length data) in
      if chunk_size_bytes =? 0 then Fails (Py ZeroDivisionError)
      else
        let num_chunks := ceil_div file_size chunk_size_bytes in
        let base_name := (splitext (basename input_file)).1 in
        let '(chunk_files, fs) :=
          split_loop (py_range num_chunks) output_dir base_name
            chunk_size_bytes data [] fs in
        let manifest_path :=
          path_join output_dir (base_name ++ txt "_manifest.txt") in
        let fs := <[manifest_path := []]> fs in
        match manifest_chunk_lines fs output_dir 1 chunk_files with
        | Fails e => Fails e
        | Done lines =>
            let manifest :=
              manifest_head (basename input_file) file_size num_chunks ++ lines in
            Done (chunk_files, manifest_path, <[manifest_path := manifest]> fs)
        end
  end.

(** ** [reconstruct_file] *)

Record manifest_info : Type := {
  chunk_files : list (list ascii);
  original_filename : option (list ascii);
  original_size : option Z
}.

(** [line.split(": ", 1)[1]] *)
Definition after_colon (line : list ascii) : io_result (list ascii) :=
  match split1 line (txt ": ") with
  | [_; x] => Done x
  | _ => Fails (Py IndexError)
  end.

(** The chunk name of a line of the form
    ["  01. name_part_01.chunk (25165824 bytes)"]; [None] where
    [len(parts) > 1] fails. *)
Definition parse_chunk_filename (line : list ascii) : option (list ascii) :=
  match split1 (strip line) (txt ". ") with
  | [_; p] => Some (split_head p (txt " ("))
  | _ => None
  end.

(** The [for line in lines] loop of [reconstruct_file]. *)
Fixpoint parse_manifest (lines : list (list ascii)) (info : manifest_info)
  : io_result manifest_info :=
  match lines with
  | [] => Done info
  | line :: rest =>
      if startswith line (txt "Original file:") then
        match after_colon line with
        | Fails e => Fails e
        | Done x =>
            parse_manifest rest
              {| chunk_files := chunk_files info;
                 original_filename := Some (strip x);
                 original_size := original_size info |}
        end
      else if startswith line (txt "Original size:") then
        match after_colon line with
        | Fails e => Fails e
        | Done x =>
            match first_token x with
            | None => Fails (Py IndexError)
            | Some tok =>
                match py_int tok with
                | None => Fails (Py ValueError)
                | Some n =>
                    parse_manifest rest
                      {| chunk_files := chunk_files info;
                         original_filename := original_filename info;
                         original_size := Some n |}
                end
            end
        end
      else if startswith line (txt "  ") && contains line (txt ".chunk") then
        match parse_chunk_filename line with
        | Some chunk_filename =>
            parse_manifest rest
              {| chunk_files := chunk_files info ++ [chunk_filename];
                 original_filename := original_filename info;
                 original_size := original_size info |}
        | None => parse_manifest rest info
        end
      else parse_manifest rest info
  end.

(** The [while True] loop that copies one chunk in blocks of 8192 bytes. *)
Fixpoint copy_blocks (fuel : nat) (chunk_file outfile : list ascii)
  : list ascii :=
  match fuel with
  | O => outfile
  | S fuel' =>
      match take 8192 chunk_file with
      | [] => outfile
      | block => copy_blocks fuel' (drop 8192 chunk_file) (outfile ++ block)
      end
  end.

(** The [for i, chunk_filename in enumerate(chunk_files, 1)] loop: [false]
    where it returns at a chunk that is not there. *)
Fixpoint copy_chunks (chunk_dir output_file : list ascii)
    (chunk_files : list (list ascii)) (fs : gmap (list ascii) (list ascii))
  : bool * gmap (list ascii) (list ascii) :=
  match chunk_files with
  | [] => (true, fs)
  | chunk_filename :: rest =>
      let chunk_path := path_join chunk_dir chunk_filename in
      match fs !! chunk_path with
      | None => (false, fs)
      | Some chunk_file =>
          let outfile := default [] (fs !! output_file) in
          let outfile := copy_blocks (S (length chunk_file)) chunk_file outfile in
          copy_chunks chunk_dir output_file rest (<[output_file := outfile]> fs)
      end
  end.

(** [str(original_filename)] inside the f-string. *)
Definition str_of_filename (original_filename : option (list ascii))
  : list ascii :=
  match original_filename with
  | Some name => name
  | None => txt "None"
  end.

(** The file [reconstruct_file] writes: the one asked for, or
    [reconstructed_<original_filename>] in the directory of the chunks. *)
Definition output_path (chunk_dir : list ascii)
    (output_file : option (list ascii))
    (original_filename : option (list ascii)) : list ascii :=
  match output_file with
  | None =>
      path_join chunk_dir
        (txt "reconstructed_" ++ str_of_filename original_filename)
  | Some p => p
  end.

(** [[f for f in os.listdir(chunk_dir) if f.endswith('_manifest.txt')]] *)
Definition manifest_files (fs : gmap (list ascii) (list ascii))
    (chunk_dir : list ascii) : list (list ascii) :=
  List.filter (fun f => endswith f (txt "_manifest.txt")) (listdir fs chunk_dir).

(** What is known before the first line of the manifest is read. *)
Definition no_info : manifest_info :=
  {| chunk_files := []; original_filename := None; original_size := None |}.

(** [reconstruct_file(chunk_dir, output_file)]: the value returned and the
    file system left. *)
Definition reconstruct_file (fs : gmap (list ascii) (list ascii))
    (chunk_dir : list ascii) (output_file : option (list ascii))
  : io_result (bool * gmap (list ascii) (list ascii)) :=
  match manifest_files fs chunk_dir with
  | [] => Done (false, fs)
  | manifest_file :: _ =>
      let manifest_path := path_join chunk_dir manifest_file in
      match fs !! manifest_path with
      | None => Fails FileNotFoundError
      | Some manifest =>
          match parse_manifest (readlines manifest) no_info with
          | Fails e => Fails e
          | Done info =>
              match chunk_files info with
              | [] => Done (false, fs)
              | _ =>
                  let output_file :=
                    output_path chunk_dir output_file (original_filename info) in
                  match original_size info with
                  | None => Fails (Py TypeError)
                  | Some original_size =>
                      let fs := <[output_file := []]> fs in
                      match copy_chunks chunk_dir output_file (chunk_files info) fs with
                      | (false, fs) => Done (false, fs)
                      | (true, fs) =>
                          let reconstructed_size :=
                            Z.of_nat (length (default [] (fs !! output_file))) in
                          Done (negb (original_size =? 0)
                                && (reconstructed_size =? original_size), fs)
                      end
                  end
              end
          end
      end
  end.

(** The chunk names [verify_chunks_exist] reads from the manifest. *)
Fixpoint manifest_chunk_names (lines : list (list ascii)) : list (list ascii) :=
  match lines with
  | [] => []
  | line :: rest =>
      if startswith line (txt "  ") && contains line (txt ".chunk") then
        match parse_chunk_filename line with
        | Some chunk_filename => chunk_filename :: manifest_chunk_names rest
        | None => manifest_chunk_names rest
        end
      else manifest_chunk_names rest
  end.

(** [verify_chunks_exist(chunk_dir)]: the flag and the message. *)
Definition verify_chunks_exist (fs : gmap (list ascii) (list ascii))
    (chunk_dir : list ascii) : io_result (bool * list ascii) :=
  match manifest_files fs chunk_dir with
  | [] => Done (false, txt "No manifest file found")
  | manifest_file :: _ =>
      let manifest_path := path_join chunk_dir manifest_file in
      match fs !! manifest_path with
      | None => Fails FileNotFoundError
      | Some manifest =>
          let chunk_files := manifest_chunk_names (readlines manifest) in
          let missing_files :=
            List.filter
              (fun chunk_file =>
                 match fs !! path_join chunk_dir chunk_file with
                 | Some _ => false
                 | None => true
                 end)
              chunk_files in
          match missing_files with
          | [] =>
              Done (true,
                    txt "All " ++ decimal (N.of_nat (length chunk_files))
                    ++ txt " chunk files found")
          | _ =>
              Done (false,
                    txt "Missing chunk files: "
                    ++ join_with (txt ", ") missing_files)
          end
      end
  end.

(** The scripts: [split_file.py] and [reconstruct_file.py] run as programs;
    the exit status and the file system left. An exception ends the
    program with status 1. *)
Definition split_main (fs : gmap (list ascii) (list ascii))
  : Z * gmap (list ascii) (list ascii) :=
  let input_file := txt "/home/ubuntu/upload/vienna_networks.pkl" in
  let output_dir := txt "/home/ubuntu/vienna_split" in
  match fs !! input_file with
  | None => (1, fs)
  | Some _ =>
      match split_file fs input_file output_dir 24 with
      | Done (_, _, fs') => (0, fs')
      | Fails _ => (1, fs)
      end
  end.

Definition reconstruct_main (fs : gmap (list ascii) (list ascii))
  : Z * gmap (list ascii) (list ascii) :=
  let chunk_dir := txt "/home/ubuntu/vienna_split" in
  match verify_chunks_exist fs chunk_dir with
  | Fails _ => (1, fs)
  | Done (false, _) => (1, fs)
  | Done (true, _) =>
      match reconstruct_file fs chunk_dir None with
      | Done (true, fs') => (0, fs')
      | Done (false, fs') => (1, fs')
      | Fails _ => (1, fs)
      end
  end.


End FileSplit.

(** A directory listing computed from the file system: the names of the
    files directly in [d], in the order of the map. *)
Definition dir_prefix (d : list ascii) : list ascii :=
  if match d with [] => true | _ => endswith d (txt "/") end then d
  else d ++ txt "/".

Definition name_under (d p : list ascii) : option (list ascii) :=
  let pre := dir_prefix d in
  if startswith p pre then
    match drop (length pre) p with
    | [] => None
    | n => if existsb (fun c => Ascii.eqb c "/") n then None else Some n
    end
  else None.

Definition dir_names (fs : gmap (list ascii) (list ascii)) (d : list ascii)
  : list (list ascii) :=
  omap (name_under d) (map fst (map_to_list fs)).

(** What the properties below ask of [os.listdir]: it lists the names,
    without ["/"], of the files of the directory. *)
Definition listdir_law
    (listdir : gmap (list ascii) (list ascii) -> list ascii -> list (list ascii))
  : Prop :=
  forall fs d n,
    In n (listdir fs d) <->
    is_Some (fs !! path_join d n) /\ n <> [] /\ ~ In "/"%char n.

(** Small file systems to run the functions on: an input file with an
    empty output directory, a directory of chunks with its manifest, the
    same without the second chunk, the same with a manifest that has no
    size line, an input file with a parenthesis in its name, and the input
    of the scripts. *)
Definition small_fs : gmap (list ascii) (list ascii) :=
  {[ txt "/in/a.bin" := txt "hello" ]}.

Definition small_manifest : list ascii :=
  txt "Original file: x.bin" ++ ["010"%char]
  ++ txt "Original size: 5 bytes" ++ ["010"%char]
  ++ txt "  01. x_part_01.chunk (3 bytes)" ++ ["010"%char]
  ++ txt "  02. x_part_02.chunk (2 bytes)" ++ ["010"%char].

Definition broken_fs : gmap (list ascii) (list ascii) :=
  <[ txt "/c/x_part_01.chunk" := txt "hel" ]>
    {[ txt "/c/x_manifest.txt" := small_manifest ]}.

Definition chunks_fs : gmap (list ascii) (list ascii) :=
  <[ txt "/c/x_part_02.chunk" := txt "lo" ]> broken_fs.


Definition paren_fs : gmap (list ascii) (list ascii) :=
  {[ txt "/in/a (1).bin" := txt "hello" ]}.

Definition upload_fs (data : list ascii) : gmap (list ascii) (list ascii) :=
  {[ txt "/home/ubuntu/upload/vienna_networks.pkl" := data ]}.

(** * Properties *)

(** ** Numbers *)

Lemma Qltb_lt (a b : Q) : Qltb a b = true <-> a < b.
Proof.
  unfold Qltb. rewrite negb_true_iff, <- not_true_iff_false, Qle_bool_iff.
  split; [apply Qnot_le_lt | apply Qlt_not_le].
Qed.

Lemma Qltb_ge (a b : Q) : Qltb a b = false <-> b <= a.
Proof.
  unfold Qltb. rewrite negb_false_iff. apply Qle_bool_iff.
Qed.

Example calculate_co2_2000 : calculate_co2 2000 default_emission_rate == 300.
Proof. reflexivity. Qed.

Example estimate_ventilation_motorway :
  estimate_ventilation {[ "highway" := VStr "motorway" ]} = Ok 3%Z.
Proof. reflexivity. Qed.

(** ** CO2 and ventilation helpers *)

(** C8: [calculate_co2] is [(length / 1000) * rate] with default rate 150;
    at the default rate it is monotonic non-decreasing in the length, 0 at
    length 0 and 300 at length 2000. *)
Theorem calculate_co2_spec :
  (forall len rate, calculate_co2 len rate == (len / 1000) * rate) /\
  default_emission_rate == 150 /\
  (forall l1 l2, l1 <= l2 ->
     calculate_co2 l1 default_emission_rate
       <= calculate_co2 l2 default_emission_rate) /\
  calculate_co2 0 default_emission_rate == 0 /\
  calculate_co2 2000 default_emission_rate == 300.
Proof.
  repeat split; try reflexivity.
  intros l1 l2 Hle. unfold calculate_co2, default_emission_rate.
  apply Qmult_le_compat_r; [| discriminate].
  apply Qmult_le_compat_r; [exact Hle | discriminate].
Qed.

Lemma calculate_co2_spec_witness :
  calculate_co2 1000 default_emission_rate
    <= calculate_co2 2000 default_emission_rate.
Proof.
  apply (proj1 (proj2 (proj2 calculate_co2_spec)) 1000 2000). discriminate.
Defined.

Lemma value_in_spec (v : value) (l : list string) :
  value_in v l = true <-> exists s, v = VStr s /\ In s l.
Proof.
  destruct v as [q | s | vs]; simpl.
  - split; [discriminate | intros (s & Hs & _); discriminate].
  - rewrite existsb_exists. split.
    + intros (x & Hin & Heq). apply String.eqb_eq in Heq. subst x. eauto.
    + intros (x & Hx & Hin). injection Hx as <-. exists s.
      split; [exact Hin | apply String.eqb_refl].
  - split; [discriminate | intros (s & Hs & _); discriminate].
Qed.

Lemma estimate_ventilation_examined (edge : gmap string value) :
  edge !! "highway" <> Some (VList []) ->
  estimate_ventilation edge =
    if value_in (examined_tag edge) ["motorway"; "tunnel"]%string then Ok 3%Z
    else if value_in (examined_tag edge) ["primary"; "secondary"]%string
         then Ok 2%Z
         else Ok 1%Z.
Proof.
  intros Hne. unfold estimate_ventilation, examined_tag, dict_get.
  destruct (edge !! "highway") as [[q | s | [| t ts]] |]; try reflexivity.
  contradiction.
Qed.

(** C10: [estimate_ventilation] returns 1, 2 or 3 on every edge whose
    highway tag is not an empty list (absent, a string, a non-empty list of
    which the first element is examined): 3 for motorway or tunnel, 2 for
    primary or secondary, 1 otherwise. On an empty list the first-element
    lookup raises [IndexError]. *)
Theorem estimate_ventilation_total :
  (forall edge : gmap string value,
     edge !! "highway" <> Some (VList []) ->
     exists z, estimate_ventilation edge = Ok z /\
       (z = 1 \/ z = 2 \/ z = 3)%Z /\
       (z = 3%Z <-> examined_tag edge = VStr "motorway"
                    \/ examined_tag edge = VStr "tunnel") /\
       (z = 2%Z <-> examined_tag edge = VStr "primary"
                    \/ examined_tag edge = VStr "secondary")) /\
  (forall edge : gmap string value,
     edge !! "highway" = Some (VList []) ->
     estimate_ventilation edge = Raise IndexError).
Proof.
  split.
  - intros edge Hne. rewrite (estimate_ventilation_examined edge Hne).
    destruct (value_in (examined_tag edge) ["motorway"; "tunnel"]%string) eqn:H3.
    + exists 3%Z. apply value_in_spec in H3 as (s & Hs & Hin).
      rewrite Hs. simpl in Hin.
      repeat split; auto; try lia; intros;
        destruct Hin as [<- | [<- | []]]; auto;
        destruct H as [H | H]; discriminate H.
    + destruct (value_in (examined_tag edge) ["primary"; "secondary"]%string) eqn:H2.
      * exists 2%Z. apply value_in_spec in H2 as (s & Hs & Hin).
        rewrite Hs. simpl in Hin.
        repeat split; auto; try lia; intros;
          destruct Hin as [<- | [<- | []]]; auto;
          destruct H as [H | H]; discriminate H.
      * exists 1%Z. repeat split; auto; try lia; intros [H | H]; exfalso;
          rewrite H in H3, H2; discriminate.
  - intros edge He. unfold estimate_ventilation, dict_get. rewrite He. reflexivity.
Qed.

Lemma estimate_ventilation_total_witness :
  (exists z, estimate_ventilation {[ "highway" := VList [VStr "tunnel"; VStr "primary"] ]}
             = Ok z /\ z = 3%Z) /\
  estimate_ventilation {[ "highway" := VList [] ]} = Raise IndexError.
Proof.
  split.
  - destruct (proj1 estimate_ventilation_total
                {[ "highway" := VList [VStr "tunnel"; VStr "primary"] ]})
      as (z & Hz & _ & H3 & _).
    + vm_compute. discriminate.
    + exists z. split; [exact Hz |]. apply H3. right. reflexivity.
  - apply (proj2 estimate_ventilation_total). reflexivity.
Defined.

(** ** Nearest node *)

Section NearestNodeProofs.

Variable great_circle : Q * Q -> Q * Q -> Q.
Variable coord : Q * Q.

Local Abbreviation dist_to d := (great_circle coord (node_y d, node_x d)).
Local Abbreviation scan_state := (scan_state great_circle coord).

Lemma scan_state_step seen n0 d0 nearest_node min_dist :
  scan_state seen nearest_node min_dist ->
  if match min_dist with
     | None => true
     | Some m => Qltb (dist_to d0) m
     end
  then scan_state (seen ++ [(n0, d0)]) (Some n0) (Some (dist_to d0))
  else scan_state (seen ++ [(n0, d0)]) nearest_node min_dist.
Proof.
  intros [(-> & -> & ->) | (i & n & d & Hi & -> & -> & Hmin & Hfirst)].
  - right. exists 0%nat, n0, d0. simpl. repeat split; auto.
    + intros [| j] m dm Hj; simpl in Hj; [| discriminate].
      injection Hj as <- <-. apply Qle_refl.
    + intros j m dm Hlt. lia.
  - destruct (Qltb (dist_to d0) (dist_to d)) eqn:Hcmp.
    + apply Qltb_lt in Hcmp. right. exists (length seen), n0, d0.
      repeat split; auto.
      * rewrite lookup_app_r by lia. by rewrite Nat.sub_diag.
      * intros j m dm Hj. destruct (decide (j < length seen)%nat) as [Hlt | Hge].
        -- rewrite lookup_app_l in Hj by exact Hlt.
           apply Qlt_le_weak. eapply Qlt_le_trans; [exact Hcmp | eauto].
        -- rewrite lookup_app_r in Hj by lia.
           destruct (j - length seen)%nat; simpl in Hj; [| discriminate].
           injection Hj as <- <-. apply Qle_refl.
      * intros j m dm Hlt Hj. rewrite lookup_app_l in Hj by exact Hlt.
        eapply Qlt_le_trans; [exact Hcmp | eauto].
    + apply Qltb_ge in Hcmp. right. exists i, n, d.
      assert (Hlen : (i < length seen)%nat) by (eapply lookup_lt_Some; eauto).
      repeat split; auto.
      * rewrite lookup_app_l by exact Hlen. exact Hi.
      * intros j m dm Hj. destruct (decide (j < length seen)%nat) as [Hlt | Hge].
        -- rewrite lookup_app_l in Hj by exact Hlt. eauto.
        -- rewrite lookup_app_r in Hj by lia.
           destruct (j - length seen)%nat; simpl in Hj; [| discriminate].
           injection Hj as <- <-. exact Hcmp.
      * intros j m dm Hlt Hj.
        rewrite lookup_app_l in Hj by lia. eauto.
Qed.

Lemma nearest_scan_state rest : forall seen nearest_node min_dist,
  scan_state seen nearest_node min_dist ->
  exists m, scan_state (seen ++ rest)
              (nearest_scan great_circle coord rest nearest_node min_dist) m.
Proof.
  induction rest as [| [n0 d0] rest IH]; intros seen nearest_node min_dist Hst.
  - rewrite app_nil_r. exists min_dist. exact Hst.
  - pose proof (scan_state_step seen n0 d0 nearest_node min_dist Hst) as Hstep.
    simpl.
    replace (seen ++ (n0, d0) :: rest) with ((seen ++ [(n0, d0)]) ++ rest)
      by (rewrite <- app_assoc; reflexivity).
    destruct (match min_dist with
              | None => true
              | Some m => Qltb (dist_to d0) m
              end); apply IH; exact Hstep.
Qed.

(** C2: on a graph with at least one node [find_nearest_node] returns a
    node of the graph whose distance to the query point is at most that of
    every node, and strictly less than that of every node before it in
    iteration order (the first of the nearest ones); on a graph with no
    node it returns [None]. *)
Theorem find_nearest_node_spec (G : Graph) :
  (nodes G = [] -> find_nearest_node great_circle G coord = None) /\
  (nodes G <> [] ->
   exists i n d,
     nodes G !! i = Some (n, d) /\
     find_nearest_node great_circle G coord = Some n /\
     (forall j m dm, nodes G !! j = Some (m, dm) ->
        great_circle coord (node_y d, node_x d)
          <= great_circle coord (node_y dm, node_x dm)) /\
     (forall j m dm, (j < i)%nat -> nodes G !! j = Some (m, dm) ->
        great_circle coord (node_y d, node_x d)
          < great_circle coord (node_y dm, node_x dm))).
Proof.
  split.
  - intros Hnil. unfold find_nearest_node. rewrite Hnil. reflexivity.
  - intros Hne.
    destruct (nearest_scan_state (nodes G) [] None None) as (m & Hst).
    { left. auto. }
    simpl in Hst. destruct Hst as [(Hnil & _) | (i & n & d & Hi & Hres & _ & Hmin & Hfirst)].
    + contradiction.
    + exists i, n, d. repeat split; auto.
Qed.

End NearestNodeProofs.

Lemma find_nearest_node_spec_witness :
  find_nearest_node example_distance {| nodes := []; adj := [] |} (0, 3 # 2) = None /\
  exists i n d,
    nodes example_graph !! i = Some (n, d) /\
    find_nearest_node example_distance example_graph (0, 3 # 2) = Some n /\
    (forall j m dm, nodes example_graph !! j = Some (m, dm) ->
       example_distance (0, 3 # 2) (node_y d, node_x d)
         <= example_distance (0, 3 # 2) (node_y dm, node_x dm)) /\
    (forall j m dm, (j < i)%nat -> nodes example_graph !! j = Some (m, dm) ->
       example_distance (0, 3 # 2) (node_y d, node_x d)
         < example_distance (0, 3 # 2) (node_y dm, node_x dm)).
Proof.
  split.
  - apply (proj1 (find_nearest_node_spec example_distance (0, 3 # 2)
                    {| nodes := []; adj := [] |})).
    reflexivity.
  - apply (proj2 (find_nearest_node_spec example_distance (0, 3 # 2)
                    example_graph)).
    discriminate.
Defined.

(** The two middle nodes of the example are equally near to the point
    between them; the scan returns the first. *)
Example find_nearest_node_tie :
  find_nearest_node example_distance example_graph (0, 3 # 2) = Some 2%Z.
Proof. reflexivity. Qed.

(** ** Consecutive pairs of a route *)

Lemma route_pairs_single (s : node) : route_pairs [s] = [].
Proof. reflexivity. Qed.

Lemma route_pairs_cons (u v : node) (rest : list node) :
  route_pairs (u :: v :: rest) = (u, v) :: route_pairs (v :: rest).
Proof. reflexivity. Qed.

Lemma path_weight_pairs (w : node -> node -> Q) (p : list node) :
  path_weight w p = Qsum (map (fun e => w e.1 e.2) (route_pairs p)).
Proof.
  induction p as [| u [| v rest] IH]; try reflexivity.
  rewrite route_pairs_cons. simpl map. simpl Qsum. rewrite <- IH. reflexivity.
Qed.

(** ** Route summary *)

(** A pair without an edge record is skipped: the totals and [vent_count]
    go on unchanged to the rest of the route. *)
Lemma route_loop_missing_edge G h len_route u v rest acc vent_count :
  get_edge_data G h u v = None ->
  route_loop G h len_route ((u, v) :: rest) acc vent_count
  = route_loop G h len_route rest acc vent_count.
Proof. intros Hnone. simpl. rewrite Hnone. reflexivity. Qed.

(** C4: a summary of the single one-node route is not produced:
    [vent_count] is assigned only inside the loop over the (here absent)
    edges, so the division that computes the mean ventilation reads an
    unbound variable. *)
Theorem summarize_single_node_route (G : Graph) (h : list (gmap string value))
    (s : node) :
  summarize_routes G h [[s]] = Raise UnboundLocalError.
Proof. reflexivity. Qed.

(** C9: a route whose only pair has no edge record: the pair is skipped,
    and then no summary is produced, for the same unbound [vent_count]. *)
Theorem summarize_route_without_edges (G : Graph) (h : list (gmap string value))
    (u v : node) :
  get_edge_data G h u v = None ->
  summarize_routes G h [[u; v]] = Raise UnboundLocalError.
Proof.
  intros Hnone. unfold summarize_routes, summarize_loop.
  rewrite route_pairs_cons, route_pairs_single.
  rewrite route_loop_missing_edge by exact Hnone. reflexivity.
Qed.

Lemma summarize_route_without_edges_witness :
  summarize_routes {| nodes := [(1%Z, {| node_y := 0; node_x := 0 |});
                                (2%Z, {| node_y := 0; node_x := 1 |})];
                      adj := [] |} [] [[1%Z; 2%Z]]
  = Raise UnboundLocalError.
Proof. apply summarize_route_without_edges. reflexivity. Defined.

Lemma bind_Ok_inv {A B : Type} (m : result A) (f : A -> result B) (b : B) :
  m ≫= f = Ok b -> exists a, m = Ok a /\ f a = Ok b.
Proof. destruct m as [a | e]; [eauto | discriminate]. Qed.



Lemma py_round_comp (x y : Q) (k : nat) : x == y -> py_round x k = py_round y k.
Proof.
  intros Heq. unfold py_round.
  set (s := (10 ^ Z.of_nat k)%Z).
  assert (Hf : Qfloor (x * inject_Z s) = Qfloor (y * inject_Z s))
    by (apply Qfloor_comp; rewrite Heq; reflexivity).
  rewrite Hf.
  assert (Hr : x * inject_Z s - inject_Z (Qfloor (y * inject_Z s))
               == y * inject_Z s - inject_Z (Qfloor (y * inject_Z s)))
    by (rewrite Heq; reflexivity).
  unfold Qltb.
  rewrite (Qleb_comp _ _ (Qeq_refl (1 # 2)) _ _ Hr).
  rewrite (Qleb_comp _ _ Hr _ _ (Qeq_refl (1 # 2))).
  reflexivity.
Qed.

(** Rounding does not cross an integer. *)
Lemma py_round_bounds (x : Q) (k : nat) (a b : Z) :
  inject_Z a <= x <= inject_Z b ->
  inject_Z a <= py_round x k <= inject_Z b.
Proof.
  intros [Ha Hb]. unfold py_round.
  set (s := (10 ^ Z.of_nat k)%Z).
  assert (Hs : (0 < s)%Z) by (apply Z.pow_pos_nonneg; lia).
  assert (HsQ : 0 < inject_Z s) by (unfold Qlt; simpl; lia).
  set (y := x * inject_Z s).
  set (f := Qfloor y).
  assert (Hfy : inject_Z f <= y) by apply Qfloor_le.
  assert (Hay : inject_Z (a * s) <= y).
  { rewrite inject_Z_mult. apply Qmult_le_compat_r; [exact Ha |].
    apply Qlt_le_weak; exact HsQ. }
  assert (Hyb : y <= inject_Z (b * s)).
  { rewrite inject_Z_mult. apply Qmult_le_compat_r; [exact Hb |].
    apply Qlt_le_weak; exact HsQ. }
  assert (Haf : (a * s <= f)%Z).
  { rewrite <- (Qfloor_Z (a * s)). apply Qfloor_resp_le. exact Hay. }
  assert (Hfb : (f <= b * s)%Z).
  { rewrite <- (Qfloor_Z (b * s)). apply Qfloor_resp_le. exact Hyb. }
  assert (Hup : Qltb (y - inject_Z f) (1 # 2) = false -> (f + 1 <= b * s)%Z).
  { intros Hr. apply Qltb_ge in Hr.
    assert (Hlt : inject_Z f < inject_Z (b * s)) by lra.
    rewrite <- Zlt_Qlt in Hlt. lia. }
  assert (Hn : forall n : Z, (a * s <= n <= b * s)%Z ->
                 inject_Z a <= inject_Z n / inject_Z s <= inject_Z b).
  { intros n [Hn1 Hn2]. split.
    - apply Qle_shift_div_l; [exact HsQ |].
      rewrite <- inject_Z_mult, <- Zle_Qle. exact Hn1.
    - apply Qle_shift_div_r; [exact HsQ |].
      rewrite <- inject_Z_mult, <- Zle_Qle. exact Hn2. }
  apply Hn.
  destruct (Qltb (y - inject_Z f) (1 # 2)) eqn:Hlow; [lia |].
  specialize (Hup eq_refl).
  destruct (Qltb (1 # 2) (y - inject_Z f)); [lia |].
  destruct (Z.even f); lia.
Qed.




(** Every row of the table is computed from the totals of its route. *)
Lemma summarize_loop_row G h routes : forall i vent_count rows,
  summarize_loop G h i routes vent_count = Ok rows ->
  forall k route row,
    routes !! k = Some route -> rows !! k = Some row ->
    exists vc0 tot vc1 mean,
      route_loop G h (length route) (route_pairs route) zero_totals vc0
        = Ok (tot, vc1) /\
      mean_ventilation (total_ventilation tot) vc1 = Ok mean /\
      row = {| Route := S (i + k);
               Nodes := length route;
               Distance_m := py_round (total_length tot) 1;
               Travel_Time_min := py_round (total_time tot / 60) 1;
               CO2_Emissions_g := py_round (total_co2 tot) 2;
               Ventilation_Penalty := py_round mean 2;
               Sustainability_Score := py_round (total_score tot) 2 |}.
Proof.
  induction routes as [| r rest IH]; intros i vc rows H k route row Hk Hrow.
  - discriminate Hk.
  - cbn [summarize_loop] in H.
    apply bind_Ok_inv in H as ([tot vc1] & Hloop & H).
    apply bind_Ok_inv in H as (mean & Hmean & H).
    apply bind_Ok_inv in H as (rows' & Hrows & H).
    injection H as <-.
    destruct k as [| k].
    + injection Hk as <-. injection Hrow as <-.
      exists vc, tot, vc1, mean. rewrite Nat.add_0_r. auto.
    + simpl in Hk, Hrow.
      destruct (IH _ _ _ Hrows k route row Hk Hrow)
        as (vc0 & tot' & vc1' & mean' & H1 & H2 & H3).
      exists vc0, tot', vc1', mean'.
      replace (S (i + S k)) with (S (S i + k)) by lia. auto.
Qed.



(** ** Copy of a graph *)

Lemma wg_lookup_view (g : Graph) (h : list (gmap string value)) (u v : node) :
  wg_lookup (wg_edges (view g h)) u v
  = (fun l => default ∅ (h !! l)) <$> adj_lookup (adj g) u v.
Proof.
  unfold view. simpl. induction (adj g) as [| [[a b] l] es IH]; [reflexivity |].
  simpl. destruct ((a =? u)%Z && (b =? v)%Z); [reflexivity | exact IH].
Qed.

Lemma wg_has_edge_view (g : Graph) (h : list (gmap string value)) (u v : node) :
  wg_has_edge (view g h) u v = has_edge g u v.
Proof.
  unfold wg_has_edge, has_edge. rewrite wg_lookup_view.
  destruct (adj_lookup (adj g) u v); reflexivity.
Qed.

Lemma adj_index_lookup (es : list (node * node * loc)) : forall u v i,
  adj_index es u v = Some i ->
  exists l, es !! i = Some (u, v, l) /\ adj_lookup es u v = Some l.
Proof.
  induction es as [| [[a b] l] es IH]; intros u v i H; [discriminate |].
  simpl in *. destruct ((a =? u)%Z && (b =? v)%Z) eqn:Hkey.
  - injection H as <-. apply andb_true_iff in Hkey as [Ha Hb].
    apply Z.eqb_eq in Ha, Hb. subst. eauto.
  - destruct (adj_index es u v) as [j |] eqn:Hj; [| discriminate].
    injection H as <-. destruct (IH _ _ _ Hj) as (l' & H1 & H2). eauto.
Qed.

Lemma adj_lookup_index (es : list (node * node * loc)) (u v : node) :
  is_Some (adj_lookup es u v) <-> is_Some (adj_index es u v).
Proof.
  induction es as [| [[a b] l] es IH]; simpl.
  - split; intros [x Hx]; discriminate.
  - destruct ((a =? u)%Z && (b =? v)%Z); [split; eauto |].
    rewrite IH. destruct (adj_index es u v); simpl; split; eauto;
      intros [x Hx]; discriminate.
Qed.

Lemma adj_index_inj (es : list (node * node * loc)) u v u' v' i :
  adj_index es u v = Some i -> adj_index es u' v' = Some i ->
  u = u' /\ v = v'.
Proof.
  intros H1 H2.
  apply adj_index_lookup in H1 as (l1 & H1 & _).
  apply adj_index_lookup in H2 as (l2 & H2 & _).
  rewrite H1 in H2. injection H2 as -> -> _. auto.
Qed.

(** The edges of the copy: the keys of the original, in order, the i-th at
    location [base + i]. *)
Lemma adj_lookup_relocate (es : list (node * node * loc)) : forall base u v,
  adj_lookup (imap (fun i e => (e.1, (base + i)%nat)) es) u v
  = (fun i => (base + i)%nat) <$> adj_index es u v.
Proof.
  induction es as [| [[a b] l] es IH]; intros base u v; [reflexivity |].
  rewrite imap_cons. cbn [adj_lookup adj_index fst snd].
  destruct ((a =? u)%Z && (b =? v)%Z) eqn:Hkey.
  - reflexivity.
  - rewrite (imap_ext _ (fun i e => (e.1, (S base + i)%nat)))
      by (intros; simpl; f_equal; lia).
    rewrite IH. destruct (adj_index es u v); [| reflexivity].
    simpl. f_equal. lia.
Qed.

Lemma has_edge_copy (g : Graph) (h : list (gmap string value)) (u v : node) :
  has_edge (copy g h).1 u v = has_edge g u v.
Proof.
  unfold has_edge, copy. simpl. rewrite adj_lookup_relocate.
  pose proof (adj_lookup_index (adj g) u v) as Hiff.
  destruct (adj_lookup (adj g) u v), (adj_index (adj g) u v); simpl; auto.
  - destruct (proj1 Hiff) as [x Hx]; [eauto | discriminate].
  - destruct (proj2 Hiff) as [x Hx]; [eauto | discriminate].
Qed.

(** The dictionary of an edge of the copy starts as that of the original
    (the empty one where the original refers to nothing). *)
Lemma copy_edge_data (g : Graph) (h : list (gmap string value)) (u v : node) i :
  adj_index (adj g) u v = Some i ->
  exists l, adj_lookup (adj g) u v = Some l /\
    (copy g h).2 !! (length h + i)%nat = Some (default ∅ (h !! l)).
Proof.
  intros Hi. apply adj_index_lookup in Hi as (l & Hi & Hl).
  exists l. split; [exact Hl |]. unfold copy. simpl.
  rewrite lookup_app_r by lia.
  replace (length h + i - length h)%nat with i by lia.
  rewrite list_lookup_fmap, Hi. reflexivity.
Qed.

(** ** Paths and their weights *)

Lemma last_cons_cons {A : Type} (a b : A) (l : list A) :
  last (a :: b :: l) = last (b :: l).
Proof.
  rewrite last_cons. destruct (last (b :: l)) eqn:Hl; [reflexivity |].
  rewrite last_cons in Hl. destruct (last l); discriminate.
Qed.

Lemma is_path_single (E : node -> node -> bool) (s : node) : is_path E s s [s].
Proof. repeat split. Qed.

Lemma is_path_cons (E : node -> node -> bool) (s b t : node) (p : list node) :
  E s b = true -> is_path E b t (b :: p) -> is_path E s t (s :: b :: p).
Proof.
  intros He (_ & Hlast & Hwalk). split; [reflexivity |]. split.
  - rewrite last_cons_cons. exact Hlast.
  - cbn [is_walk]. rewrite He. exact Hwalk.
Qed.

Lemma is_path_inv (E : node -> node -> bool) (s t : node) (p : list node) :
  is_path E s t p ->
  (p = [s] /\ s = t) \/
  (exists b rest, p = s :: b :: rest /\ E s b = true /\ is_path E b t (b :: rest)).
Proof.
  intros (Hhd & Hlast & Hwalk). destruct p as [| a [| b rest]]; simpl in Hhd.
  - discriminate.
  - injection Hhd as ->. simpl in Hlast. injection Hlast as ->. left. auto.
  - injection Hhd as ->. right. exists b, rest.
    cbn [is_walk] in Hwalk. apply andb_true_iff in Hwalk as [He Hw].
    rewrite last_cons_cons in Hlast.
    repeat split; auto.
Qed.

Lemma path_weight_cons (w : node -> node -> Q) (a b : node) (l : list node) :
  path_weight w (a :: b :: l) = w a b + path_weight w (b :: l).
Proof. reflexivity. Qed.

Lemma path_weight_nonneg (w : node -> node -> Q) (p : list node) :
  (forall u v, 0 <= w u v) -> 0 <= path_weight w p.
Proof.
  intros Hw. induction p as [| u [| v rest] IH]; try apply Qle_refl.
  cbn [path_weight]. specialize (Hw u v). cbn [path_weight] in IH. lra.
Qed.


Lemma is_walk_ext (E E' : node -> node -> bool) (p : list node) :
  (forall u v, E u v = E' u v) -> is_walk E p = is_walk E' p.
Proof.
  intros HE. induction p as [| u [| v rest] IH]; try reflexivity.
  cbn [is_walk]. cbn [is_walk] in IH. rewrite IH, HE. reflexivity.
Qed.

Lemma is_path_ext (E E' : node -> node -> bool) (s t : node) (p : list node) :
  (forall u v, E u v = E' u v) -> is_path E s t p -> is_path E' s t p.
Proof.
  intros HE (H1 & H2 & H3). repeat split; auto.
  rewrite <- (is_walk_ext E E' p HE). exact H3.
Qed.


(** A suffix of a walk is a walk that weighs no more and ends at the same
    node. *)
Lemma walk_suffix (E : node -> node -> bool) (w : node -> node -> Q)
    (l1 : list node) : forall x l2,
  (forall u v, 0 <= w u v) ->
  is_walk E (l1 ++ x :: l2) = true ->
  is_walk E (x :: l2) = true /\
  path_weight w (x :: l2) <= path_weight w (l1 ++ x :: l2).
Proof.
  induction l1 as [| a l1 IH]; intros x l2 Hw Hwalk.
  - split; [exact Hwalk | apply Qle_refl].
  - destruct l1 as [| a' l1].
    + simpl in Hwalk |- *. apply andb_true_iff in Hwalk as [_ Hwalk].
      split; [exact Hwalk |].
      assert (H0 : 0 <= match l2 with
                        | [] => 0
                        | v :: _ => w x v + path_weight w l2
                        end) by apply (path_weight_nonneg w (x :: l2) Hw).
      specialize (Hw a x). lra.
    + change ((a :: a' :: l1) ++ x :: l2) with (a :: a' :: (l1 ++ x :: l2)) in *.
      cbn [is_walk] in Hwalk. apply andb_true_iff in Hwalk as [_ Hwalk].
      destruct (IH x l2 Hw Hwalk) as [H1 H2]. split; [exact H1 |].
      change (path_weight w (a :: a' :: l1 ++ x :: l2))
        with (w a a' + path_weight w ((a' :: l1) ++ x :: l2)).
      specialize (Hw a a'). lra.
Qed.

(** Cutting the loops out of a path: a path without a repeated node, no
    heavier, between the same nodes. *)
Lemma path_remove_loops (E : node -> node -> bool) (w : node -> node -> Q)
    (p : list node) : forall s t,
  (forall u v, 0 <= w u v) ->
  is_path E s t p ->
  exists p', is_path E s t p' /\ NoDup p' /\ path_weight w p' <= path_weight w p.
Proof.
  induction p as [| a p IH]; intros s t Hw Hp.
  - destruct Hp as (Hhd & _). discriminate.
  - apply is_path_inv in Hp as [(Heq & <-) | (b & rest & Heq & He & Hp)].
    + injection Heq as -> ->. exists [s]. split; [apply is_path_single |].
      split; [repeat constructor; set_solver | apply Qle_refl].
    + injection Heq as -> ->.
      destruct (IH b t Hw Hp) as (p' & Hp' & Hnd & Hle).
      destruct (decide (s ∈ p')) as [Hin | Hnin].
      * apply list_elem_of_split in Hin as (l1 & l2 & ->).
        destruct Hp' as (_ & Hlast & Hwalk).
        destruct (walk_suffix E w l1 s l2 Hw Hwalk) as [Hsw Hsle].
        exists (s :: l2). split; [| split].
        -- split; [reflexivity |]. split; [| exact Hsw].
           rewrite last_app in Hlast.
           destruct (last (s :: l2)) eqn:Hl; [exact Hlast |].
           rewrite last_cons in Hl. destruct (last l2); discriminate.
        -- apply NoDup_app in Hnd as (_ & _ & Hnd). exact Hnd.
        -- rewrite path_weight_cons. specialize (Hw s b). lra.
      * destruct (is_path_inv _ _ _ _ Hp') as [(-> & <-) | (c & r' & -> & _ & _)].
        -- exists [s; b]. split; [apply is_path_cons; [exact He | exact Hp'] |].
           split; [constructor; [exact Hnin | exact Hnd] |].
           rewrite (path_weight_cons w s b), (path_weight_cons w s b). lra.
        -- exists (s :: b :: c :: r').
           split; [apply is_path_cons; [exact He | exact Hp'] |].
           split; [constructor; [exact Hnin | exact Hnd] |].
           rewrite (path_weight_cons w s b), (path_weight_cons w s b). lra.
Qed.

(** ** The exhaustive search meets the laws *)

Section Enumeration.

Variable es : list (node * node * gmap string value).

Local Abbreviation E :=
  (fun u v => match wg_lookup es u v with Some _ => true | None => false end).

Lemma wg_lookup_entry (e : node * node * gmap string value) :
  In e es -> E e.1.1 e.1.2 = true.
Proof.
  induction es as [| [[a b] d] l IH]; intros Hin; [destruct Hin |].
  simpl. destruct ((a =? e.1.1)%Z && (b =? e.1.2)%Z) eqn:Hkey; [reflexivity |].
  destruct Hin as [<- | Hin].
  - simpl in Hkey. rewrite !Z.eqb_refl in Hkey. discriminate.
  - apply IH. exact Hin.
Qed.

Lemma wg_entry_lookup (u v : node) :
  E u v = true -> exists e, In e es /\ e.1.1 = u /\ e.1.2 = v.
Proof.
  induction es as [| [[a b] d] l IH]; simpl; [discriminate |].
  destruct ((a =? u)%Z && (b =? v)%Z) eqn:Hkey.
  - intros _. apply andb_true_iff in Hkey as [Ha Hb].
    apply Z.eqb_eq in Ha, Hb. exists (a, b, d). auto.
  - intros H. destruct (IH H) as (e & Hin & He). eauto.
Qed.

Lemma simple_paths_sound (fuel : nat) : forall visited u t p,
  In p (simple_paths fuel es visited u t) -> is_path E u t p.
Proof.
  induction fuel as [| f IH]; intros visited u t p Hin; simpl in Hin;
    destruct (u =? t)%Z eqn:Hut.
  - apply Z.eqb_eq in Hut as ->. destruct Hin as [<- | []].
    apply is_path_single.
  - destruct Hin.
  - apply Z.eqb_eq in Hut as ->. destruct Hin as [<- | []].
    apply is_path_single.
  - apply in_flat_map in Hin as (e & He & Hin).
    destruct ((e.1.1 =? u)%Z && negb (existsb (Z.eqb e.1.2) visited)) eqn:Hc;
      [| destruct Hin].
    apply andb_true_iff in Hc as [Hsrc _]. apply Z.eqb_eq in Hsrc.
    apply in_map_iff in Hin as (p' & <- & Hp').
    apply IH in Hp'.
    destruct (is_path_inv _ _ _ _ Hp') as [(-> & _) | (c & r & -> & _ & _)];
      (apply is_path_cons; [| exact Hp']);
      rewrite <- Hsrc; apply wg_lookup_entry; exact He.
Qed.

Lemma simple_paths_complete (fuel : nat) : forall visited u t p,
  is_path E u t p -> NoDup p ->
  (forall x, In x (tail p) -> ~ In x visited) ->
  (length p <= S fuel)%nat ->
  In p (simple_paths fuel es visited u t).
Proof.
  induction fuel as [| f IH]; intros visited u t p Hp Hnd Hvis Hlen;
    destruct (is_path_inv _ _ _ _ Hp) as [(-> & <-) | (b & r & -> & He & Hp')].
  - simpl. rewrite Z.eqb_refl. left. reflexivity.
  - simpl in Hlen. lia.
  - simpl. rewrite Z.eqb_refl. left. reflexivity.
  - assert (Hut : (u =? t)%Z = false).
    { apply Z.eqb_neq. intros ->.
      destruct Hp' as (_ & Hlast & _).
      apply NoDup_cons in Hnd as [Hnin _]. apply Hnin.
      apply list_elem_of_In. apply last_Some_elem_of in Hlast.
      apply list_elem_of_In. exact Hlast. }
    simpl. rewrite Hut.
    destruct (wg_entry_lookup u b He) as ([[a c] d] & Hin & Hsrc & Hdst).
    simpl in Hsrc, Hdst. subst a c.
    apply in_flat_map. exists (u, b, d). split; [exact Hin |].
    assert (Hnv : existsb (Z.eqb b) visited = false).
    { apply not_true_iff_false. intros Hex.
      apply existsb_exists in Hex as (x & Hx & Heq).
      apply Z.eqb_eq in Heq. subst x.
      apply (Hvis b); [left; reflexivity | exact Hx]. }
    cbn [fst snd]. rewrite Z.eqb_refl, Hnv. simpl.
    apply in_map. apply IH.
    + exact Hp'.
    + apply NoDup_cons in Hnd as [_ Hnd]. exact Hnd.
    + intros x Hx [<- | Hv].
      * apply NoDup_cons in Hnd as [_ Hnd].
        apply NoDup_cons in Hnd as [Hnin _]. apply Hnin.
        apply list_elem_of_In. exact Hx.
      * apply (Hvis x); [right; exact Hx | exact Hv].
    + simpl in Hlen |- *. lia.
Qed.

(** A path without a repeated node leaves every node but the last by an
    edge of its own, so it has at most as many edges as the graph. *)
Lemma simple_path_length (p : list node) : forall u t,
  is_path E u t p -> NoDup p -> (length p <= S (length es))%nat.
Proof.
  intros u t Hp Hnd.
  assert (Hincl : forall q a c, is_path E a c q ->
            incl (removelast q) (map (fun e => e.1.1) es)).
  { induction q as [| x q IHq]; intros a c Hq.
    - destruct Hq as (H & _). discriminate.
    - destruct (is_path_inv _ _ _ _ Hq) as [(Heq & _) | (b & r & Heq & He & Hq')].
      + injection Heq as -> ->. intros y [].
      + injection Heq as -> ->.
        change (removelast (a :: b :: r)) with (a :: removelast (b :: r)).
        intros y [<- | Hy].
        * destruct (wg_entry_lookup a b He) as (e & Hin & Hsrc & _).
          apply in_map_iff. exists e. auto.
        * apply (IHq b c Hq'). exact Hy. }
  assert (Hnd' : List.NoDup (removelast p)).
  { apply NoDup_ListNoDup.
    destruct (exists_last (l := p)) as (q & x & ->).
    - destruct Hp as (H & _). intros ->. discriminate.
    - rewrite removelast_last. apply NoDup_app in Hnd as (Hq & _). exact Hq. }
  pose proof (NoDup_incl_length Hnd' (Hincl p u t Hp)) as Hle.
  rewrite length_map in Hle.
  destruct (exists_last (l := p)) as (q & x & ->).
  - destruct Hp as (H & _). intros ->. discriminate.
  - rewrite removelast_last in Hle. rewrite length_app. simpl. lia.
Qed.

End Enumeration.

Lemma lightest_spec (w : node -> node -> Q) (ps : list (list node)) :
  match lightest w ps with
  | None => ps = []
  | Some r => In r ps /\ forall p, In p ps -> path_weight w r <= path_weight w p
  end.
Proof.
  induction ps as [| p ps IH]; [reflexivity |].
  simpl. destruct (lightest w ps) as [q |].
  - destruct IH as [Hq Hmin].
    destruct (Qle_bool (path_weight w p) (path_weight w q)) eqn:Hcmp.
    + apply Qle_bool_iff in Hcmp. split; [left; reflexivity |].
      intros x [<- | Hx]; [apply Qle_refl |].
      eapply Qle_trans; [exact Hcmp | apply Hmin; exact Hx].
    + assert (Hlt : path_weight w q <= path_weight w p).
      { apply Qlt_le_weak. apply Qnot_le_lt. intros Hle.
        apply Qle_bool_iff in Hle. congruence. }
      split; [right; exact Hq |].
      intros x [<- | Hx]; [exact Hlt | apply Hmin; exact Hx].
  - subst ps. split; [left; reflexivity |].
    intros x [<- | []]. apply Qle_refl.
Qed.

Lemma existsb_Zeqb (s : node) (l : list node) :
  existsb (Z.eqb s) l = true <-> In s l.
Proof.
  rewrite existsb_exists. split.
  - intros (x & Hx & Heq). apply Z.eqb_eq in Heq. subst x. exact Hx.
  - intros Hin. exists s. split; [exact Hin | apply Z.eqb_refl].
Qed.

Lemma wg_weight_nonneg (G : WGraph) :
  good_weights G -> forall u v, 0 <= wg_weight G u v.
Proof.
  intros Hgood u v. unfold wg_weight.
  destruct (wg_lookup (wg_edges G) u v) as [d |] eqn:Hd; [| apply Qle_refl].
  destruct (Hgood u v d Hd) as (q & -> & Hq). exact Hq.
Qed.

(** The paths the search enumerates: all of them are paths, and every path
    of the graph is matched by an enumerated one that weighs no more. *)
Lemma simple_paths_cover (G : WGraph) (s t : node) :
  let ps := simple_paths (length (wg_edges G)) (wg_edges G) [s] s t in
  (forall p, In p ps -> is_path (wg_has_edge G) s t p) /\
  (forall w q, (forall u v, 0 <= w u v) -> is_path (wg_has_edge G) s t q ->
     exists p, In p ps /\ path_weight w p <= path_weight w q).
Proof.
  split.
  - intros p Hp. apply simple_paths_sound in Hp. exact Hp.
  - intros w q Hw Hq.
    destruct (path_remove_loops _ w q s t Hw Hq) as (p & Hp & Hnd & Hle).
    exists p. split; [| exact Hle].
    apply simple_paths_complete.
    + exact Hp.
    + exact Hnd.
    + intros x Hx [<- | []].
      destruct Hp as (Hhd & _). destruct p as [| a p]; [discriminate |].
      injection Hhd as ->. apply NoDup_cons in Hnd as [Hnin _].
      apply Hnin. apply list_elem_of_In. exact Hx.
    + eapply simple_path_length; eauto.
Qed.

(** Whether a path exists can be decided. *)
Lemma path_dec (G : WGraph) (s t : node) :
  (exists p, is_path (wg_has_edge G) s t p) \/
  (forall p, ~ is_path (wg_has_edge G) s t p).
Proof.
  destruct (simple_paths_cover G s t) as [Hsound Hcover].
  destruct (simple_paths (length (wg_edges G)) (wg_edges G) [s] s t)
    as [| p ps] eqn:Hps.
  - right. intros q Hq.
    destruct (Hcover (fun _ _ => 0) q) as (p & [] & _); [| exact Hq].
    intros; apply Qle_refl.
  - left. exists p. apply Hsound. left. reflexivity.
Qed.

Theorem enum_shortest_path_laws : solver_laws enum_shortest_path.
Proof.
  constructor.
  - intros G s t Hnot. unfold enum_shortest_path.
    destruct (existsb (Z.eqb s) (wg_nodes G)) eqn:Hs; [| reflexivity].
    exfalso. apply Hnot. apply existsb_Zeqb. exact Hs.
  - intros G s Hs. unfold enum_shortest_path.
    apply existsb_Zeqb in Hs. rewrite Hs, Z.eqb_refl. reflexivity.
  - intros G s t _ Hs Ht Hno. unfold enum_shortest_path.
    apply existsb_Zeqb in Hs, Ht. rewrite Hs, Ht. simpl.
    destruct (s =? t)%Z eqn:Hst.
    + apply Z.eqb_eq in Hst as ->. exfalso. apply (Hno [t]), is_path_single.
    + destruct (simple_paths_cover G s t) as [Hsound _].
      pose proof (lightest_spec (wg_weight G)
                    (simple_paths (length (wg_edges G)) (wg_edges G) [s] s t))
        as Hl.
      destruct (lightest (wg_weight G)
                  (simple_paths (length (wg_edges G)) (wg_edges G) [s] s t))
        as [r |]; [| reflexivity].
      exfalso. apply (Hno r), Hsound, Hl.
  - intros G s t Hgood Hs Ht (q & Hq). unfold enum_shortest_path.
    apply existsb_Zeqb in Hs, Ht. rewrite Hs, Ht. simpl.
    pose proof (wg_weight_nonneg G Hgood) as Hw.
    destruct (s =? t)%Z eqn:Hst.
    + apply Z.eqb_eq in Hst as ->. exists [t]. split; [reflexivity |].
      split; [apply is_path_single |].
      intros p _. apply (path_weight_nonneg _ p Hw).
    + destruct (simple_paths_cover G s t) as [Hsound Hcover].
      pose proof (lightest_spec (wg_weight G)
                    (simple_paths (length (wg_edges G)) (wg_edges G) [s] s t))
        as Hl.
      destruct (lightest (wg_weight G)
                  (simple_paths (length (wg_edges G)) (wg_edges G) [s] s t))
        as [r |].
      * destruct Hl as [Hr Hmin]. exists r. split; [reflexivity |].
        split; [apply Hsound, Hr |].
        intros p Hp. destruct (Hcover _ p Hw Hp) as (p' & Hp' & Hle).
        eapply Qle_trans; [apply Hmin; exact Hp' | exact Hle].
      * destruct (Hcover _ q Hw Hq) as (p' & Hp' & _).
        rewrite Hl in Hp'. destruct Hp'.
Qed.

(** ** The planner writes only to its copy *)

Lemma adj_lookup_In (es : list (node * node * loc)) (u v : node) (l : loc) :
  adj_lookup es u v = Some l -> In (u, v, l) es.
Proof.
  induction es as [| [[a b] l0] es IH]; simpl; [discriminate |].
  destruct ((a =? u)%Z && (b =? v)%Z) eqn:Hkey.
  - intros H. injection H as ->. apply andb_true_iff in Hkey as [Ha Hb].
    apply Z.eqb_eq in Ha, Hb. subst. left. reflexivity.
  - intros H. right. apply IH. exact H.
Qed.

Lemma wf_graph_lookup (g : Graph) (h : list (gmap string value)) u v l :
  wf_graph g h -> adj_lookup (adj g) u v = Some l -> (l < length h)%nat.
Proof.
  intros Hwf Hl. apply adj_lookup_In in Hl.
  unfold wf_graph in Hwf. rewrite List.Forall_forall in Hwf.
  apply (Hwf _ Hl).
Qed.

Lemma copy_locs (g : Graph) (h : list (gmap string value)) (u v : node) (l : loc) :
  adj_lookup (adj (copy g h).1) u v = Some l -> (length h <= l)%nat.
Proof.
  unfold copy. simpl. rewrite adj_lookup_relocate.
  destruct (adj_index (adj g) u v); simpl; [| discriminate].
  intros H. injection H as <-. lia.
Qed.

Section Frame.

Variable G_temp : Graph.
Variable base : nat.
Hypothesis G_temp_locs :
  forall u v l, adj_lookup (adj G_temp) u v = Some l -> (base <= l)%nat.

Lemma penalize_edge_frame P u v (h h' : list (gmap string value)) :
  penalize_edge G_temp P u v h = Ok h' ->
  forall l, (l < base)%nat -> h' !! l = h !! l.
Proof.
  unfold penalize_edge. intros H l Hl.
  destruct (adj_lookup (adj G_temp) u v) as [l0 |] eqn:Hl0.
  - apply G_temp_locs in Hl0.
    destruct (h !! l0) as [d |]; [| discriminate].
    destruct (d !! "travel_time") as [w |]; [| discriminate].
    apply bind_Ok_inv in H as (q & _ & H). injection H as <-.
    apply list_lookup_insert_ne. lia.
  - injection H as <-. reflexivity.
Qed.

Lemma penalize_route_frame P ps : forall h : list (gmap string value),
  forall l, (l < base)%nat -> (penalize_route G_temp P ps h).2 !! l = h !! l.
Proof.
  induction ps as [| [u v] ps IH]; intros h l Hl; [reflexivity |].
  simpl. destruct (penalize_edge G_temp P u v h) as [h' | e] eqn:He.
  - rewrite IH by exact Hl. eapply penalize_edge_frame; eauto.
  - reflexivity.
Qed.

Lemma plan_loop_frame sp n s t P : forall routes (h : list (gmap string value)),
  forall l, (l < base)%nat ->
    (plan_loop sp n s t G_temp P routes h).2 !! l = h !! l.
Proof.
  induction n as [| n IH]; intros routes h l Hl; [reflexivity |].
  simpl. destruct (sp (view G_temp h) s t) as [route | e].
  - pose proof (penalize_route_frame P (route_pairs route) h l Hl) as Hfr.
    destruct (penalize_route G_temp P (route_pairs route) h) as [[e |] h'];
      simpl in Hfr.
    + exact Hfr.
    + rewrite IH by exact Hl. exact Hfr.
  - destruct e; reflexivity.
Qed.

End Frame.

(** C6: whatever the path search does and whether the planner returns or
    raises, the heap it leaves has every dictionary that existed before the
    call unchanged; hence every edge of the input graph (itself an immutable
    value: nodes, coordinates, adjacency) reads the same attributes,
    ['travel_time'] included, as before. *)
Theorem get_diverse_routes_preserves_graph
    (sp : WGraph -> node -> node -> result (list node))
    (g : Graph) (h : list (gmap string value)) (s t : node) (N : nat) (P : Q) :
  wf_graph g h ->
  let h' := (get_diverse_routes sp s t g N P h).2 in
  (forall l, (l < length h)%nat -> h' !! l = h !! l) /\
  (forall u v, get_edge_data g h' u v = get_edge_data g h u v) /\
  view g h' = view g h.
Proof.
  intros Hwf h'.
  assert (Hframe : forall l, (l < length h)%nat -> h' !! l = h !! l).
  { intros l Hl. subst h'. unfold get_diverse_routes.
    destruct (copy g h) as [G_temp h1] eqn:Hcopy.
    rewrite (plan_loop_frame G_temp (length h)) by
      (try exact Hl; intros u v l0 Hl0;
       apply (copy_locs g h u v); rewrite Hcopy; exact Hl0).
    unfold copy in Hcopy. injection Hcopy as _ <-.
    apply lookup_app_l. exact Hl. }
  split; [exact Hframe |]. split.
  - intros u v. unfold get_edge_data.
    destruct (adj_lookup (adj g) u v) as [l |] eqn:Hl; [| reflexivity].
    apply Hframe. eapply wf_graph_lookup; eauto.
  - unfold view. f_equal. apply map_ext_in. intros e Hin.
    rewrite Hframe; [reflexivity |].
    unfold wf_graph in Hwf. rewrite List.Forall_forall in Hwf.
    apply (Hwf _ Hin).
Qed.

Lemma get_diverse_routes_preserves_graph_witness :
  let e : gmap string value := {[ "travel_time" := VNum 100 ]} in
  let g := {| nodes := [(1%Z, {| node_y := 0; node_x := 0 |});
                        (2%Z, {| node_y := 0; node_x := 1 |})];
              adj := [(1%Z, 2%Z, 0%nat)] |} in
  get_edge_data g
    (get_diverse_routes enum_shortest_path 1%Z 2%Z g
       default_num_routes default_penalty_factor [e]).2 1%Z 2%Z
  = Some e.
Proof.
  intros e g.
  assert (Hwf : wf_graph g [e]) by (constructor; [simpl; lia | constructor]).
  rewrite (proj1 (proj2 (get_diverse_routes_preserves_graph
             enum_shortest_path g [e] 1%Z 2%Z
             default_num_routes default_penalty_factor Hwf))).
  reflexivity.
Defined.

(** ** Start equal to end *)

Lemma view_nodes_copy (g : Graph) (h h' : list (gmap string value)) :
  wg_nodes (view (copy g h).1 h') = map fst (nodes g).
Proof. reflexivity. Qed.

Lemma plan_loop_trivial sp (G_temp : Graph) (s : node) (P : Q) (n : nat) :
  forall routes (h : list (gmap string value)),
    (forall h0, sp (view G_temp h0) s s = Ok [s]) ->
    plan_loop sp n s s G_temp P routes h = (Ok (routes ++ repeat [s] n), h).
Proof.
  induction n as [| n IH]; intros routes h Hsp.
  - simpl. rewrite app_nil_r. reflexivity.
  - cbn [plan_loop]. rewrite Hsp, route_pairs_single. cbn [penalize_route].
    rewrite IH by exact Hsp. rewrite <- app_assoc. reflexivity.
Qed.

(** C3, as the code has it: with start == end == s, a node of the graph,
    the planner returns [num_routes] copies of the one-node route [s] (one
    route only when [num_routes] is 1). *)
Theorem get_diverse_routes_same_node
    (sp : WGraph -> node -> node -> result (list node)) (Hsp : solver_laws sp)
    (g : Graph) (h : list (gmap string value)) (s : node) (N : nat) (P : Q) :
  In s (map fst (nodes g)) ->
  (get_diverse_routes sp s s g N P h).1 = Ok (repeat [s] N).
Proof.
  intros Hs. unfold get_diverse_routes.
  destruct (copy g h) as [G_temp h1] eqn:Hcopy.
  rewrite plan_loop_trivial; [reflexivity |].
  intros h0. apply (sp_source_is_target sp Hsp).
  replace G_temp with (copy g h).1 by (rewrite Hcopy; reflexivity).
  rewrite view_nodes_copy. exact Hs.
Qed.

Lemma get_diverse_routes_same_node_witness :
  (get_diverse_routes enum_shortest_path 7%Z 7%Z
     {| nodes := [(7%Z, {| node_y := 0; node_x := 0 |})]; adj := [] |}
     3 default_penalty_factor []).1
  = Ok [[7%Z]; [7%Z]; [7%Z]].
Proof.
  apply (get_diverse_routes_same_node enum_shortest_path
           enum_shortest_path_laws
           {| nodes := [(7%Z, {| node_y := 0; node_x := 0 |})]; adj := [] |}
           [] 7%Z 3 default_penalty_factor).
  simpl. left. reflexivity.
Defined.

(** C3 as stated fails: at the default route count the planner, with any
    path search that follows the laws, returns five routes, not one. *)
Lemma planner_same_node_counterexample :
  ~ (forall sp, solver_laws sp ->
     forall (g : Graph) (h : list (gmap string value)) (s : node) (N : nat) (P : Q),
       In s (map fst (nodes g)) ->
       (get_diverse_routes sp s s g N P h).1 = Ok [[s]]).
Proof.
  intros Hclaim.
  specialize (Hclaim enum_shortest_path enum_shortest_path_laws
                {| nodes := [(7%Z, {| node_y := 0; node_x := 0 |})]; adj := [] |}
                [] 7%Z default_num_routes default_penalty_factor
                (or_introl eq_refl)).
  vm_compute in Hclaim. discriminate Hclaim.
Qed.

(** ** No path *)

Lemma good_weights_copy (g : Graph) (h : list (gmap string value)) :
  good_weights (view g h) ->
  good_weights (view (copy g h).1 (copy g h).2).
Proof.
  intros Hgood u v d Hd. rewrite wg_lookup_view in Hd.
  assert (Hadj : adj_lookup (adj (copy g h).1) u v
                 = (fun i => (length h + i)%nat) <$> adj_index (adj g) u v)
    by apply adj_lookup_relocate.
  rewrite Hadj in Hd.
  destruct (adj_index (adj g) u v) as [i |] eqn:Hi; [| discriminate].
  destruct (copy_edge_data g h u v i Hi) as (l & Hl & Hcopy).
  cbn [fmap option_fmap option_map] in Hd. injection Hd as Hd.
  pose proof (f_equal (default (∅ : gmap string value)) Hcopy) as Hc.
  cbn [default] in Hc.
  assert (Heq : d = default ∅ (h !! l)) by (rewrite <- Hd; exact Hc).
  apply (Hgood u v). rewrite wg_lookup_view, Hl, Heq. reflexivity.
Qed.

(** C5: when the path search finds no path at an iteration, the loop stops
    and the routes found so far are the result; when start and end, nodes of
    the graph, are not connected, the planner returns the empty list. *)
Theorem get_diverse_routes_no_path
    (sp : WGraph -> node -> node -> result (list node)) (Hsp : solver_laws sp) :
  (forall n s t G_temp P routes (h : list (gmap string value)),
     good_weights (view G_temp h) ->
     In s (map fst (nodes G_temp)) -> In t (map fst (nodes G_temp)) ->
     (forall p, ~ is_path (has_edge G_temp) s t p) ->
     plan_loop sp (S n) s t G_temp P routes h = (Ok routes, h)) /\
  (forall (g : Graph) (h : list (gmap string value)) s t N P,
     good_weights (view g h) ->
     In s (map fst (nodes g)) -> In t (map fst (nodes g)) ->
     (forall p, ~ is_path (has_edge g) s t p) ->
     (get_diverse_routes sp s t g N P h).1 = Ok []).
Proof.
  assert (Hloop : forall n s t G_temp P routes (h : list (gmap string value)),
     good_weights (view G_temp h) ->
     In s (map fst (nodes G_temp)) -> In t (map fst (nodes G_temp)) ->
     (forall p, ~ is_path (has_edge G_temp) s t p) ->
     plan_loop sp (S n) s t G_temp P routes h = (Ok routes, h)).
  { intros n s t G_temp P routes h Hgood Hs Ht Hno. cbn [plan_loop].
    rewrite (sp_no_path sp Hsp); auto.
    intros p Hp. apply (Hno p). eapply is_path_ext; [| exact Hp].
    apply wg_has_edge_view. }
  split; [exact Hloop |].
  intros g h s t N P Hgood Hs Ht Hno. unfold get_diverse_routes.
  pose proof (good_weights_copy g h Hgood) as Hgood'.
  pose proof (has_edge_copy g h) as Hedge.
  destruct (copy g h) as [G_temp h1] eqn:Hcopy. simpl in Hgood', Hedge.
  destruct N as [| N]; [reflexivity |].
  rewrite Hloop; auto.
  - replace G_temp with (copy g h).1 by (rewrite Hcopy; reflexivity). exact Hs.
  - replace G_temp with (copy g h).1 by (rewrite Hcopy; reflexivity). exact Ht.
  - intros p Hp. apply (Hno p). eapply is_path_ext; [| exact Hp]. exact Hedge.
Qed.

Lemma get_diverse_routes_no_path_witness :
  let e : gmap string value := {[ "travel_time" := VNum 100 ]} in
  let g := {| nodes := [(1%Z, {| node_y := 0; node_x := 0 |});
                        (2%Z, {| node_y := 0; node_x := 1 |})];
              adj := [(2%Z, 1%Z, 0%nat)] |} in
  (get_diverse_routes enum_shortest_path 1%Z 2%Z g
     default_num_routes default_penalty_factor [e]).1 = Ok [].
Proof.
  intros e g.
  apply (proj2 (get_diverse_routes_no_path enum_shortest_path
                  enum_shortest_path_laws)).
  - intros u v d Hd. exists 100. simpl in Hd.
    match type of Hd with
    | (if ?c then _ else _) = _ => destruct c; [| discriminate Hd]
    end.
    injection Hd as <-. split; [reflexivity | discriminate].
  - simpl. left. reflexivity.
  - simpl. right. left. reflexivity.
  - intros p Hp.
    destruct (is_path_inv _ _ _ _ Hp) as [(_ & Heq) | (b & r & _ & He & _)].
    + discriminate Heq.
    + unfold has_edge in He. simpl in He. discriminate He.
Defined.

(** ** Penalties accumulate multiplicatively *)

Lemma Qpower_nat_succ (P : Q) (n : nat) :
  P ^ Z.of_nat (S n) == P ^ Z.of_nat n * P.
Proof.
  rewrite Nat2Z.inj_succ, <- Z.add_1_r. rewrite Qpower_plus' by lia.
  reflexivity.
Qed.

Lemma Qpower_nat_nonneg (P : Q) (n : nat) : 0 <= P -> 0 <= P ^ Z.of_nat n.
Proof. intros HP. apply Qpower_0_le. exact HP. Qed.

Lemma count_pairs_cons (u0 v0 : node) (ps : list (node * node)) (u v : node) :
  count_pairs ((u0, v0) :: ps) u v
  = ((if (u0 =? u)%Z && (v0 =? v)%Z then 1 else 0) + count_pairs ps u v)%nat.
Proof.
  unfold count_pairs. simpl.
  destruct ((u0 =? u)%Z && (v0 =? v)%Z); reflexivity.
Qed.

Lemma count_pairs_app (ps qs : list (node * node)) (u v : node) :
  count_pairs (ps ++ qs) u v = (count_pairs ps u v + count_pairs qs u v)%nat.
Proof. unfold count_pairs. rewrite List.filter_app, length_app. reflexivity. Qed.

Lemma traversals_snoc (routes : list (list node)) (r : list node) (u v : node) :
  traversals (routes ++ [r]) u v
  = (traversals routes u v + count_pairs (route_pairs r) u v)%nat.
Proof.
  unfold traversals. rewrite map_app, concat_app. simpl.
  rewrite app_nil_r. apply count_pairs_app.
Qed.

Lemma penalized_ext (w : node -> node -> Q) (P : Q) (rs rs' : list (list node)) u v :
  rs = rs' -> penalized w P rs u v == penalized w P rs' u v.
Proof. intros ->. reflexivity. Qed.

Section Penalties.

Variable g : Graph.
Variable h : list (gmap string value).
Variable P : Q.
Hypothesis P_nonneg : 0 <= P.
Hypothesis g_wf : wf_graph g h.
Hypothesis g_times : travel_times_ok g h.

Local Abbreviation G_temp := (copy g h).1.
Local Abbreviation w0 := (wg_weight (view g h)).

Lemma adj_lookup_G_temp (u v : node) :
  adj_lookup (adj G_temp) u v
  = (fun i => (length h + i)%nat) <$> adj_index (adj g) u v.
Proof. apply adj_lookup_relocate. Qed.

Lemma original_weights_good : good_weights (view g h).
Proof.
  intros u v d Hd. rewrite wg_lookup_view in Hd.
  destruct (adj_lookup (adj g) u v) as [l |] eqn:Hl; [| discriminate].
  injection Hd as <-.
  pose proof (wf_graph_lookup g h u v l g_wf Hl) as Hlt.
  destruct (lookup_lt_is_Some_2 h l Hlt) as [d Hd].
  destruct (g_times u v d) as (q & Hq & Hq0).
  { unfold get_edge_data. rewrite Hl. exact Hd. }
  exists q. rewrite Hd. unfold edge_weight, dict_get. simpl. rewrite Hq. auto.
Qed.

Lemma penalties_applied_ext (c c' : node -> node -> nat) hk :
  (forall u v, c u v = c' u v) ->
  penalties_applied g h P c hk -> penalties_applied g h P c' hk.
Proof.
  intros Hc HJ u v i Hi. destruct (HJ u v i Hi) as (d & q & H1 & H2 & H3).
  exists d, q. rewrite <- Hc. auto.
Qed.

(** Right after the copy nothing is penalized. *)
Lemma penalties_applied_init :
  penalties_applied g h P (fun _ _ => O) (copy g h).2.
Proof.
  intros u v i Hi.
  destruct (copy_edge_data g h u v i Hi) as (l & Hl & Hcopy).
  pose proof (wf_graph_lookup g h u v l g_wf Hl) as Hlt.
  destruct (lookup_lt_is_Some_2 h l Hlt) as [d Hd].
  destruct (g_times u v d) as (q & Hq & Hq0).
  { unfold get_edge_data. rewrite Hl. exact Hd. }
  exists d, q. split; [| split].
  - rewrite Hcopy, Hd. reflexivity.
  - exact Hq.
  - unfold wg_weight. rewrite wg_lookup_view, Hl. simpl. rewrite Hd. simpl.
    unfold edge_weight, dict_get. rewrite Hq. simpl. ring.
Qed.

(** One [*=] on the copy: the weight of that edge gains a factor [P], the
    others stay. *)
Lemma penalize_edge_applied (c : node -> node -> nat) hk (u0 v0 : node) :
  penalties_applied g h P c hk ->
  exists hk', penalize_edge G_temp P u0 v0 hk = Ok hk' /\
    penalties_applied g h P
      (fun u v => (c u v + count_pairs [(u0, v0)] u v)%nat) hk'.
Proof.
  intros HJ. unfold penalize_edge. rewrite adj_lookup_G_temp.
  destruct (adj_index (adj g) u0 v0) as [i0 |] eqn:Hi0; simpl.
  - destruct (HJ u0 v0 i0 Hi0) as (d0 & q0 & Hd0 & Hq0 & Hw0).
    rewrite Hd0, Hq0. simpl. eexists. split; [reflexivity |].
    intros u v i Hi.
    destruct (decide (i = i0)) as [-> | Hne].
    + destruct (adj_index_inj _ _ _ _ _ _ Hi Hi0) as [-> ->].
      eexists. exists (q0 * P). split; [| split].
      * apply list_lookup_insert_eq. eapply lookup_lt_Some; eauto.
      * apply lookup_insert_eq.
      * rewrite count_pairs_cons, !Z.eqb_refl. simpl andb. cbv iota.
        unfold count_pairs. simpl length. rewrite Nat.add_0_r, Nat.add_1_r.
        rewrite Qpower_nat_succ, Hw0. ring.
    + destruct (HJ u v i Hi) as (d & q & Hd & Hq & Hw).
      exists d, q. split; [| split].
      * rewrite list_lookup_insert_ne by lia. exact Hd.
      * exact Hq.
      * rewrite count_pairs_cons.
        destruct ((u0 =? u)%Z && (v0 =? v)%Z) eqn:Hkey.
        -- apply andb_true_iff in Hkey as [Hu Hv].
           apply Z.eqb_eq in Hu, Hv. subst. congruence.
        -- unfold count_pairs. simpl. rewrite Nat.add_0_r. exact Hw.
  - eexists. split; [reflexivity |].
    intros u v i Hi. destruct (HJ u v i Hi) as (d & q & Hd & Hq & Hw).
    exists d, q. split; [exact Hd | split; [exact Hq |]].
    rewrite count_pairs_cons.
    destruct ((u0 =? u)%Z && (v0 =? v)%Z) eqn:Hkey.
    + apply andb_true_iff in Hkey as [Hu Hv].
      apply Z.eqb_eq in Hu, Hv. subst. congruence.
    + unfold count_pairs. simpl. rewrite Nat.add_0_r. exact Hw.
Qed.

Lemma penalize_route_applied (ps : list (node * node)) :
  forall (c : node -> node -> nat) hk,
    penalties_applied g h P c hk ->
    exists hk', penalize_route G_temp P ps hk = (None, hk') /\
      penalties_applied g h P (fun u v => (c u v + count_pairs ps u v)%nat) hk'.
Proof.
  induction ps as [| [u0 v0] ps IH]; intros c hk HJ.
  - exists hk. split; [reflexivity |].
    eapply penalties_applied_ext; [| exact HJ].
    intros u v. unfold count_pairs. simpl. lia.
  - destruct (penalize_edge_applied c hk u0 v0 HJ) as (hk1 & Hedge & HJ1).
    destruct (IH _ hk1 HJ1) as (hk' & Hroute & HJ').
    exists hk'. split.
    + cbn [penalize_route]. rewrite Hedge. exact Hroute.
    + eapply penalties_applied_ext; [| exact HJ'].
      intros u v. cbv beta. rewrite (count_pairs_cons u0 v0 ps).
      rewrite (count_pairs_cons u0 v0 []).
      change (count_pairs [] u v) with 0%nat.
      destruct ((u0 =? u)%Z && (v0 =? v)%Z); lia.
Qed.

(** What the path search reads from the copy. *)
Lemma penalized_view (c : node -> node -> nat) hk :
  penalties_applied g h P c hk ->
  good_weights (view G_temp hk) /\
  (forall u v, wg_has_edge (view G_temp hk) u v = has_edge g u v) /\
  (forall u v, wg_weight (view G_temp hk) u v == w0 u v * P ^ Z.of_nat (c u v)).
Proof.
  intros HJ.
  pose proof (wg_weight_nonneg _ original_weights_good) as Hw0.
  split; [| split].
  - intros u v d Hd. rewrite wg_lookup_view, adj_lookup_G_temp in Hd.
    destruct (adj_index (adj g) u v) as [i |] eqn:Hi; [| discriminate].
    destruct (HJ u v i Hi) as (d' & q & Hd' & Hq & Hw).
    cbn [fmap option_fmap option_map] in Hd. injection Hd as Hd.
    pose proof (f_equal (default (∅ : gmap string value)) Hd') as Hc.
    cbn [default] in Hc.
    assert (Heq : d = d') by (rewrite <- Hd; exact Hc). subst d'.
    exists q. split.
    + unfold edge_weight, dict_get. rewrite Hq. reflexivity.
    + rewrite Hw. apply Qmult_le_0_compat; [apply Hw0 |].
      apply Qpower_nat_nonneg, P_nonneg.
  - intros u v. rewrite wg_has_edge_view. apply has_edge_copy.
  - intros u v. unfold wg_weight at 1.
    rewrite wg_lookup_view, adj_lookup_G_temp.
    destruct (adj_index (adj g) u v) as [i |] eqn:Hi.
    + destruct (HJ u v i Hi) as (d' & q & Hd' & Hq & Hw).
      cbn [fmap option_fmap option_map].
      pose proof (f_equal (default (∅ : gmap string value)) Hd') as Hc.
      cbn [default] in Hc.
      assert (Heq : match edge_weight (default ∅ (hk !! (length h + i)%nat)) with
                    | VNum q' => q'
                    | _ => 0
                    end = q).
      { replace (default ∅ (hk !! (length h + i)%nat)) with d' by (symmetry; exact Hc).
        unfold edge_weight, dict_get. rewrite Hq. reflexivity. }
      rewrite <- Hw. rewrite <- Heq. reflexivity.
    + cbn [fmap option_fmap option_map].
      assert (Hnone : adj_lookup (adj g) u v = None).
      { destruct (adj_lookup (adj g) u v) eqn:Hl; [| reflexivity].
        destruct (proj1 (adj_lookup_index (adj g) u v)) as [x Hx]; [eauto |].
        congruence. }
      unfold wg_weight. rewrite wg_lookup_view, Hnone. simpl. ring.
Qed.

End Penalties.

Section PlannerCorrect.

Variable sp : WGraph -> node -> node -> result (list node).
Hypothesis sp_laws : solver_laws sp.
Variable g : Graph.
Variable h : list (gmap string value).
Variable P : Q.
Variables s t : node.
Hypothesis P_nonneg : 0 <= P.
Hypothesis g_wf : wf_graph g h.
Hypothesis g_times : travel_times_ok g h.
Hypothesis s_in : In s (map fst (nodes g)).
Hypothesis t_in : In t (map fst (nodes g)).

Local Abbreviation G_temp := (copy g h).1.
Local Abbreviation w0 := (wg_weight (view g h)).


End PlannerCorrect.

(** How many routes come back. *)

Section PlannerCount.

Variable sp : WGraph -> node -> node -> result (list node).
Hypothesis sp_laws : solver_laws sp.
Variable g : Graph.
Variable h : list (gmap string value).
Variable P : Q.
Variables s t : node.
Hypothesis P_nonneg : 0 <= P.
Hypothesis g_wf : wf_graph g h.
Hypothesis g_times : travel_times_ok g h.
Hypothesis s_in : In s (map fst (nodes g)).
Hypothesis t_in : In t (map fst (nodes g)).

Local Abbreviation G_temp := (copy g h).1.

(** Penalties change weights, never edges: while start and end are
    connected every iteration finds a route. *)
Lemma plan_loop_full (n : nat) : forall routes hk,
  (exists p, is_path (has_edge g) s t p) ->
  penalties_applied g h P (traversals routes) hk ->
  exists more,
    (plan_loop sp n s t G_temp P routes hk).1 = Ok (routes ++ more) /\
    length more = n /\
    Forall (is_path (has_edge g) s t) more.
Proof.
  induction n as [| n IH]; intros routes hk Hex HJ.
  - exists []. rewrite app_nil_r. repeat split. constructor.
  - destruct (penalized_view g h P P_nonneg g_wf g_times _ hk HJ)
      as (Hgood & Hedge & _).
    assert (Hex' : exists p, is_path (wg_has_edge (view G_temp hk)) s t p).
    { destruct Hex as (p & Hp). exists p.
      eapply is_path_ext; [| exact Hp]. intros u v. symmetry. apply Hedge. }
    destruct (sp_shortest sp sp_laws _ s t Hgood s_in t_in Hex')
      as (r & Hr & Hpath & _).
    cbn [plan_loop]. rewrite Hr.
    destruct (penalize_route_applied g h P (route_pairs r) _ hk HJ)
      as (hk' & Hpen & HJ').
    rewrite Hpen.
    assert (HJ'' : penalties_applied g h P (traversals (routes ++ [r])) hk').
    { eapply penalties_applied_ext; [| exact HJ'].
      intros u v. symmetry. apply traversals_snoc. }
    destruct (IH (routes ++ [r]) hk' Hex HJ'') as (more & Hres & Hlen & Hall).
    exists (r :: more). split; [| split].
    + rewrite Hres, <- app_assoc. reflexivity.
    + simpl. rewrite Hlen. reflexivity.
    + constructor; [| exact Hall].
      eapply is_path_ext; [exact Hedge | exact Hpath].
Qed.

Lemma planner_routes_full (N : nat) :
  (exists p, is_path (has_edge g) s t p) ->
  exists routes,
    (get_diverse_routes sp s t g N P h).1 = Ok routes /\
    length routes = N /\
    Forall (is_path (has_edge g) s t) routes.
Proof.
  intros Hex.
  assert (HJ : penalties_applied g h P (traversals []) (copy g h).2).
  { eapply penalties_applied_ext;
      [| apply (penalties_applied_init g h P g_wf g_times)].
    intros u v. reflexivity. }
  destruct (plan_loop_full N [] _ Hex HJ) as (routes & Hres & Hlen & Hall).
  exists routes. unfold get_diverse_routes.
  destruct (copy g h) as [G_temp h1] eqn:Hcopy. simpl in Hres. auto.
Qed.

Lemma planner_routes_none (N : nat) :
  (forall p, ~ is_path (has_edge g) s t p) ->
  (get_diverse_routes sp s t g N P h).1 = Ok [].
Proof.
  intros Hno. unfold get_diverse_routes.
  pose proof (original_weights_good g h g_wf g_times) as Hgood.
  apply good_weights_copy in Hgood.
  pose proof (has_edge_copy g h) as Hedge.
  destruct (copy g h) as [G_temp h1] eqn:Hcopy. simpl in Hgood, Hedge.
  destruct N as [| N]; [reflexivity |]. cbn [plan_loop].
  rewrite (sp_no_path sp sp_laws); auto.
  - replace G_temp with (copy g h).1 by (rewrite Hcopy; reflexivity). exact s_in.
  - replace G_temp with (copy g h).1 by (rewrite Hcopy; reflexivity). exact t_in.
  - intros p Hp. apply (Hno p). eapply is_path_ext; [| exact Hp].
    intros u v. rewrite wg_has_edge_view. apply Hedge.
Qed.

End PlannerCount.


Lemma travel_times_ok_Forall (g : Graph) (h : list (gmap string value)) :
  Forall (fun e => exists d q, h !! e.2 = Some d /\
                     d !! "travel_time" = Some (VNum q) /\ 0 <= q) (adj g) ->
  travel_times_ok g h.
Proof.
  intros Hall u v d Hd. unfold get_edge_data in Hd.
  destruct (adj_lookup (adj g) u v) as [l |] eqn:Hl; [| discriminate].
  apply adj_lookup_In in Hl. rewrite List.Forall_forall in Hall.
  destruct (Hall _ Hl) as (d' & q & Hd' & Hq & Hq0). simpl in Hd'.
  rewrite Hd in Hd'. injection Hd' as <-. eauto.
Qed.

Lemma example_wf : wf_graph example_graph example_heap.
Proof. repeat (constructor; [simpl; lia |]). constructor. Qed.

Lemma example_times : travel_times_ok example_graph example_heap.
Proof.
  apply travel_times_ok_Forall.
  repeat (constructor;
          [eexists; eexists; split; [reflexivity |];
           split; [reflexivity | discriminate] |]).
  constructor.
Qed.


(** The planner on the example: the shortcut first, then the line, whose
    edge 3 - 4 is by then twice as heavy, then the shortcut again. *)
Example get_diverse_routes_example :
  (get_diverse_routes enum_shortest_path 1%Z 4%Z example_graph 3
     default_penalty_factor example_heap).1
  = Ok [[1; 3; 4]; [1; 2; 3; 4]; [1; 3; 4]]%Z.
Proof. vm_compute. reflexivity. Qed.

(** The weight the search reads on the input graph is the ['travel_time']
    of the edge. *)
Lemma wg_weight_travel_time (g : Graph) (h : list (gmap string value))
    (u v : node) (d : gmap string value) (q : Q) :
  get_edge_data g h u v = Some d ->
  d !! "travel_time" = Some (VNum q) ->
  wg_weight (view g h) u v = q.
Proof.
  unfold get_edge_data, wg_weight. rewrite wg_lookup_view.
  destruct (adj_lookup (adj g) u v) as [l |]; [| discriminate].
  intros Hd Hq. simpl. rewrite Hd. simpl.
  unfold edge_weight, dict_get. rewrite Hq. reflexivity.
Qed.

(** ** What the planner does outside the preconditions *)

(** A start that is not a node of the graph is reported by the search, and
    the planner passes the exception on. *)
Lemma get_diverse_routes_unknown_start
    (sp : WGraph -> node -> node -> result (list node)) (Hsp : solver_laws sp)
    (g : Graph) (h : list (gmap string value)) (s t : node) (N : nat) (P : Q) :
  ~ In s (map fst (nodes g)) ->
  (get_diverse_routes sp s t g (S N) P h).1 = Raise NodeNotFound.
Proof.
  intros Hs. unfold get_diverse_routes.
  destruct (copy g h) as [G_temp h1] eqn:Hcopy. cbn [plan_loop].
  rewrite (sp_source_not_found sp Hsp); [reflexivity |].
  replace G_temp with (copy g h).1 by (rewrite Hcopy; reflexivity).
  rewrite view_nodes_copy. exact Hs.
Qed.

(** An edge without ['travel_time'] counts 1 in the search, and penalizing
    it raises [KeyError]. *)
Example get_diverse_routes_missing_travel_time :
  (get_diverse_routes enum_shortest_path 1%Z 2%Z
     {| nodes := [(1%Z, {| node_y := 0; node_x := 0 |});
                  (2%Z, {| node_y := 0; node_x := 1 |})];
        adj := [(1%Z, 2%Z, 0%nat)] |}
     default_num_routes default_penalty_factor
     [{[ "length" := VNum 1000 ]}]).1
  = Raise KeyError.
Proof. vm_compute. reflexivity. Qed.

(** ** When the summary is produced *)

Lemma summarize_edge_total (edge : gmap string value) (acc : totals) :
  numeric_edge edge -> exists acc', summarize_edge edge acc = Ok acc'.
Proof.
  intros ((len & Hlen) & (tt & Htt) & (vent & Hvent)).
  unfold summarize_edge. rewrite Hlen, Htt. cbn [mbind result_bind].
  destruct (edge_ventilation edge) as [vv | e]; [| discriminate Hvent].
  cbn [mbind result_bind] in Hvent |- *. rewrite Hvent.
  cbn [mbind result_bind]. eauto.
Qed.

Lemma route_loop_total G h len_route ps : forall acc vent_count,
  Forall numeric_edge
    (omap (fun p => match get_edge_data G h p.1 p.2 with
                    | Some edge => if dict_truthy edge then Some edge else None
                    | None => None
                    end) ps) ->
  exists tot,
    route_loop G h len_route ps acc vent_count
    = Ok (tot,
          match omap (fun p => match get_edge_data G h p.1 p.2 with
                               | Some edge =>
                                   if dict_truthy edge then Some edge else None
                               | None => None
                               end) ps with
          | [] => vent_count
          | _ :: _ => Some (Z.of_nat len_route - 1)%Z
          end).
Proof.
  induction ps as [| [u v] rest IH]; intros acc vc Hnum.
  - exists acc. reflexivity.
  - cbn [route_loop]. cbn [omap list_omap fst snd] in Hnum |- *.
    destruct (get_edge_data G h u v) as [edge |]; [| apply IH; exact Hnum].
    destruct (dict_truthy edge); [| apply IH; exact Hnum].
    apply Forall_cons in Hnum as [Hedge Hrest].
    destruct (summarize_edge_total edge acc Hedge) as (acc' & ->).
    cbn [mbind result_bind].
    destruct (IH acc' (Some (Z.of_nat len_route - 1)%Z) Hrest) as (tot & ->).
    exists tot. f_equal. f_equal. destruct (omap _ rest); reflexivity.
Qed.

Lemma route_pairs_length (route : list node) :
  route_pairs route <> [] -> (2 <= length route)%nat.
Proof.
  destruct route as [| a [| b rest]]; intros Hne;
    [exfalso; apply Hne; reflexivity .. | simpl; lia].
Qed.

(** The summary is produced when every route traverses at least one edge
    and the traversed edges carry numbers. *)
Theorem summarize_routes_total G h (routes : list (list node)) :
  Forall (fun route => traversed_edges G h route <> [] /\
                       Forall numeric_edge (traversed_edges G h route)) routes ->
  exists rows, summarize_routes G h routes = Ok rows /\
               length rows = length routes.
Proof.
  unfold summarize_routes. generalize (@None Z) as vc. generalize 0%nat as i.
  induction routes as [| route routes IH]; intros i vc Hall.
  - exists []. split; reflexivity.
  - apply Forall_cons in Hall as [[Hne Hnum] Hall].
    cbn [summarize_loop]. unfold traversed_edges in Hne, Hnum.
    destruct (route_loop_total G h (length route) (route_pairs route)
                zero_totals vc Hnum) as (tot & ->).
    cbn [mbind result_bind].
    assert (Hlen : (2 <= length route)%nat).
    { apply route_pairs_length. intros Hnil. rewrite Hnil in Hne.
      apply Hne. reflexivity. }
    destruct (omap _ (route_pairs route)) as [| e es]; [congruence |].
    unfold mean_ventilation.
    destruct (Z.of_nat (length route) - 1 =? 0)%Z eqn:Hz;
      [apply Z.eqb_eq in Hz; lia |].
    cbn [mbind result_bind].
    destruct (IH (S i) (Some (Z.of_nat (length route) - 1)%Z) Hall)
      as (rows & -> & Hrows).
    cbn [mbind result_bind]. eexists. split; [reflexivity |].
    simpl. rewrite Hrows. reflexivity.
Qed.

(** The summary on the example network. *)
Example summarize_routes_example :
  exists rows,
    summarize_routes example_graph example_heap [[1; 3; 4]; [1; 2; 3; 4]]%Z
    = Ok rows /\
    Forall2 Qeq (map Sustainability_Score rows) [165; 495 # 2] /\
    Forall2 Qeq (map Ventilation_Penalty rows) [1; 1].
Proof.
  eexists. split; [vm_compute; reflexivity |].
  split; repeat (constructor; [reflexivity |]); constructor.
Qed.

(** After a route with an edge, [vent_count] is still bound when a
    one-node route is summarized: the division then uses the edge count of
    the earlier route. *)
Example summarize_single_node_after_route :
  exists row1 row2,
    summarize_routes example_graph example_heap [[1; 3; 4]; [1]]%Z
    = Ok [row1; row2] /\
    Ventilation_Penalty row2 == 0.
Proof. eexists. eexists. split; [vm_compute; reflexivity |]. reflexivity. Qed.

(** * Further properties of the planner *)

Lemma Forall_eq_repeat {A : Type} (x : A) (l : list A) :
  Forall (fun y => y = x) l -> l = repeat x (length l).
Proof.
  induction 1 as [| y l -> _ IH]; [reflexivity |].
  simpl. rewrite <- IH. reflexivity.
Qed.

(** X1: the planner returns all [N] routes or none. With numeric
    non-negative travel times, a non-negative penalty and start and end in
    the graph, it returns exactly [N] routes, all paths of the input graph
    from start to end, when such a path exists, and the empty list when
    none exists; a list of intermediate length never comes back. *)
Theorem get_diverse_routes_all_or_nothing
    (sp : WGraph -> node -> node -> result (list node)) (Hsp : solver_laws sp)
    (g : Graph) (h : list (gmap string value)) (s t : node) (N : nat) (P : Q) :
  wf_graph g h -> travel_times_ok g h -> 0 <= P ->
  In s (map fst (nodes g)) -> In t (map fst (nodes g)) ->
  exists routes,
    (get_diverse_routes sp s t g N P h).1 = Ok routes /\
    Forall (is_path (has_edge g) s t) routes /\
    (length routes = N \/ routes = []) /\
    ((exists p, is_path (has_edge g) s t p) -> length routes = N) /\
    ((forall p, ~ is_path (has_edge g) s t p) -> routes = []).
Proof.
  intros Hwf Htimes HP Hs Ht.
  assert (Hdec : (exists p, is_path (has_edge g) s t p) \/
                 (forall p, ~ is_path (has_edge g) s t p)).
  { destruct (path_dec (view g h) s t) as [(p & Hp) | Hno].
    - left. exists p. eapply is_path_ext; [| exact Hp]. apply wg_has_edge_view.
    - right. intros p Hp. apply (Hno p). eapply is_path_ext; [| exact Hp].
      intros u v. symmetry. apply wg_has_edge_view. }
  destruct Hdec as [Hex | Hno].
  - destruct (planner_routes_full sp Hsp g h P s t HP Hwf Htimes Hs Ht N Hex)
      as (routes & Hres & Hlen & Hall).
    exists routes. repeat split; auto.
    intros Hno. destruct Hex as (p & Hp). destruct (Hno p Hp).
  - exists []. split.
    + apply (planner_routes_none sp Hsp g h P s t Hwf Htimes Hs Ht N Hno).
    + repeat split; auto. intros (p & Hp). destruct (Hno p Hp).
Qed.

Lemma get_diverse_routes_all_or_nothing_witness :
  exists routes,
    (get_diverse_routes enum_shortest_path 1%Z 4%Z example_graph 5
       default_penalty_factor example_heap).1 = Ok routes /\
    Forall (is_path (has_edge example_graph) 1%Z 4%Z) routes /\
    (length routes = 5%nat \/ routes = []) /\
    ((exists p, is_path (has_edge example_graph) 1%Z 4%Z p) ->
     length routes = 5%nat) /\
    ((forall p, ~ is_path (has_edge example_graph) 1%Z 4%Z p) -> routes = []).
Proof.
  apply (get_diverse_routes_all_or_nothing enum_shortest_path
           enum_shortest_path_laws example_graph example_heap 1%Z 4%Z 5
           default_penalty_factor).
  - exact example_wf.
  - exact example_times.
  - discriminate.
  - simpl. left. reflexivity.
  - simpl. right. right. right. left. reflexivity.
Defined.

(** X2: where the graph has one path only from start to end, the [N]
    routes are [N] copies of it. *)
Theorem get_diverse_routes_unique_path
    (sp : WGraph -> node -> node -> result (list node)) (Hsp : solver_laws sp)
    (g : Graph) (h : list (gmap string value)) (s t : node) (N : nat) (P : Q)
    (p : list node) :
  wf_graph g h -> travel_times_ok g h -> 0 <= P ->
  In s (map fst (nodes g)) -> In t (map fst (nodes g)) ->
  is_path (has_edge g) s t p ->
  (forall q, is_path (has_edge g) s t q -> q = p) ->
  (get_diverse_routes sp s t g N P h).1 = Ok (repeat p N).
Proof.
  intros Hwf Htimes HP Hs Ht Hp Huniq.
  destruct (planner_routes_full sp Hsp g h P s t HP Hwf Htimes Hs Ht N)
    as (routes & Hres & Hlen & Hall); [eauto |].
  rewrite Hres. f_equal. rewrite <- Hlen. apply Forall_eq_repeat.
  eapply Forall_impl; [exact Hall |]. intros q Hq. apply Huniq. exact Hq.
Qed.

Lemma line_wf : wf_graph line_graph line_heap.
Proof. repeat (constructor; [simpl; lia |]). constructor. Qed.

Lemma line_times : travel_times_ok line_graph line_heap.
Proof.
  apply travel_times_ok_Forall.
  repeat (constructor;
          [eexists; eexists; split; [reflexivity |];
           split; [reflexivity | discriminate] |]).
  constructor.
Qed.

Lemma line_path_unique (q : list node) :
  is_path (has_edge line_graph) 1%Z 3%Z q -> q = [1; 2; 3]%Z.
Proof.
  intros Hq.
  destruct (is_path_inv _ _ _ _ Hq) as [(_ & Heq) | (b & r & -> & He & Hq1)];
    [discriminate Heq |].
  unfold has_edge in He. cbn -[Z.eqb] in He.
  destruct (2 =? b)%Z eqn:Hb; [| discriminate He].
  apply Z.eqb_eq in Hb. subst b.
  destruct (is_path_inv _ _ _ _ Hq1) as [(_ & Heq) | (c & r' & Hr & He' & Hq2)];
    [discriminate Heq |].
  injection Hr as ->.
  unfold has_edge in He'. cbn -[Z.eqb] in He'.
  destruct (3 =? c)%Z eqn:Hc; [| discriminate He'].
  apply Z.eqb_eq in Hc. subst c.
  destruct (is_path_inv _ _ _ _ Hq2) as [(Hr & _) | (d & r'' & _ & He'' & _)].
  - injection Hr as ->. reflexivity.
  - unfold has_edge in He''. cbn -[Z.eqb] in He''. discriminate He''.
Qed.

Lemma get_diverse_routes_unique_path_witness :
  (get_diverse_routes enum_shortest_path 1%Z 3%Z line_graph 5
     default_penalty_factor line_heap).1
  = Ok (repeat [1; 2; 3]%Z 5).
Proof.
  apply (get_diverse_routes_unique_path enum_shortest_path
           enum_shortest_path_laws line_graph line_heap 1%Z 3%Z 5
           default_penalty_factor).
  - exact line_wf.
  - exact line_times.
  - discriminate.
  - simpl. left. reflexivity.
  - simpl. right. right. left. reflexivity.
  - repeat split.
  - exact line_path_unique.
Defined.

Lemma get_diverse_routes_unfold sp s t g N P (h : list (gmap string value)) :
  get_diverse_routes sp s t g N P h
  = plan_loop sp N s t (copy g h).1 P [] (copy g h).2.
Proof. reflexivity. Qed.

(** The dictionary the planner penalizes for an edge of the input graph is
    the copy of the dictionary of that edge. *)
Lemma copy_get_edge_data (g : Graph) (h : list (gmap string value)) (u v : node)
    (d : gmap string value) :
  get_edge_data g h u v = Some d ->
  exists l, adj_lookup (adj (copy g h).1) u v = Some l /\
            (copy g h).2 !! l = Some d.
Proof.
  unfold get_edge_data. intros Hd.
  destruct (adj_lookup (adj g) u v) as [l0 |] eqn:Hl0; [| discriminate].
  destruct (proj1 (adj_lookup_index (adj g) u v)) as [i Hi]; [eauto |].
  destruct (copy_edge_data g h u v i Hi) as (l1 & Hl1 & Hcopy).
  rewrite Hl0 in Hl1. injection Hl1 as <-.
  exists (length h + i)%nat. split.
  - cbn [copy fst adj]. rewrite adj_lookup_relocate, Hi. reflexivity.
  - rewrite Hcopy, Hd. reflexivity.
Qed.

(** X3: the search reads a missing ['travel_time'] as weight 1, the
    penalization does not: when the edges that leave the start have no
    ['travel_time'] and the end is another, reachable node, the planner
    raises [KeyError] at its first penalization and returns no route. *)
Theorem get_diverse_routes_missing_weight
    (sp : WGraph -> node -> node -> result (list node)) (Hsp : solver_laws sp)
    (g : Graph) (h : list (gmap string value)) (s t : node) (N : nat) (P : Q) :
  wf_graph g h -> good_weights (view g h) ->
  In s (map fst (nodes g)) -> In t (map fst (nodes g)) ->
  s <> t ->
  (exists p, is_path (has_edge g) s t p) ->
  (forall b d, get_edge_data g h s b = Some d -> d !! "travel_time" = None) ->
  (get_diverse_routes sp s t g (S N) P h).1 = Raise KeyError.
Proof.
  intros Hwf Hgood Hs Ht Hst (p & Hp) Hmissing.
  rewrite get_diverse_routes_unfold. cbn [plan_loop].
  destruct (sp_shortest sp Hsp (view (copy g h).1 (copy g h).2) s t)
    as (r & Hr & Hpath & _).
  - apply good_weights_copy. exact Hgood.
  - exact Hs.
  - exact Ht.
  - exists p. eapply is_path_ext; [| exact Hp].
    intros u v. rewrite wg_has_edge_view. symmetry. apply has_edge_copy.
  - rewrite Hr.
    destruct (is_path_inv _ _ _ _ Hpath) as [(_ & Heq) | (b & rest & -> & He & _)];
      [contradiction |].
    rewrite route_pairs_cons. cbn [penalize_route].
    rewrite wg_has_edge_view, has_edge_copy in He. unfold has_edge in He.
    destruct (adj_lookup (adj g) s b) as [l |] eqn:Hl; [| discriminate He].
    pose proof (wf_graph_lookup g h s b l Hwf Hl) as Hlt.
    destruct (lookup_lt_is_Some_2 h l Hlt) as [d Hd].
    assert (Hged : get_edge_data g h s b = Some d)
      by (unfold get_edge_data; rewrite Hl; exact Hd).
    destruct (copy_get_edge_data g h s b d Hged) as (l' & Hl' & Hd').
    unfold penalize_edge. rewrite Hl', Hd', (Hmissing b d Hged). reflexivity.
Qed.

Lemma get_diverse_routes_missing_weight_witness :
  (get_diverse_routes enum_shortest_path 1%Z 2%Z
     {| nodes := [(1%Z, {| node_y := 0; node_x := 0 |});
                  (2%Z, {| node_y := 0; node_x := 1 |})];
        adj := [(1%Z, 2%Z, 0%nat)] |}
     default_num_routes default_penalty_factor
     [{[ "length" := VNum 1000 ]}]).1
  = Raise KeyError.
Proof.
  apply (get_diverse_routes_missing_weight enum_shortest_path
           enum_shortest_path_laws).
  - constructor; [simpl; lia | constructor].
  - intros u v d Hd. exists 1. simpl in Hd.
    match type of Hd with
    | (if ?c then _ else _) = _ => destruct c; [| discriminate Hd]
    end.
    injection Hd as <-. split; [reflexivity | discriminate].
  - simpl. left. reflexivity.
  - simpl. right. left. reflexivity.
  - discriminate.
  - exists [1; 2]%Z. repeat split.
  - intros b d Hd. unfold get_edge_data in Hd. cbn -[Z.eqb] in Hd.
    destruct (2 =? b)%Z; [| discriminate Hd].
    injection Hd as <-. reflexivity.
Defined.

(** * Further properties of the summary *)

Lemma dict_truthy_lookup (d : gmap string value) (k : string) (v : value) :
  d !! k = Some v -> dict_truthy d = true.
Proof.
  intros Hk. unfold dict_truthy. apply negb_true_iff, Nat.eqb_neq.
  intros Hsize. apply map_size_empty_iff in Hsize. subst d.
  rewrite lookup_empty in Hk. discriminate.
Qed.

Lemma length_route_pairs (route : list node) :
  length (route_pairs route) = (length route - 1)%nat.
Proof.
  induction route as [| a [| b rest] IH]; try reflexivity.
  rewrite route_pairs_cons. cbn [length]. rewrite IH. simpl. lia.
Qed.

Lemma summarize_edge_numbers edge acc acc' :
  summarize_edge edge acc = Ok acc' ->
  exists len tt vent,
    edge_numbers edge len tt vent /\
    total_length acc' = total_length acc + len /\
    total_time acc' = total_time acc + tt /\
    total_co2 acc' = total_co2 acc + calculate_co2 len default_emission_rate /\
    total_ventilation acc' = total_ventilation acc + vent.
Proof.
  unfold summarize_edge. intros H.
  apply bind_Ok_inv in H as (len & Hlen & H).
  apply bind_Ok_inv in H as (tt & Htt & H).
  apply bind_Ok_inv in H as (vv & Hvv & H).
  apply bind_Ok_inv in H as (vent & Hvent & H).
  injection H as <-. exists len, tt, vent. cbn.
  repeat split; auto. rewrite Hvv. exact Hvent.
Qed.

Lemma calculate_co2_plus (a b rate : Q) :
  calculate_co2 (a + b) rate == calculate_co2 a rate + calculate_co2 b rate.
Proof. unfold calculate_co2. field. Qed.

(** What the loop over the pairs of a route adds to the totals. *)
Lemma route_loop_totals G h len_route ps : forall acc vent_count tot vent_count',
  route_loop G h len_route ps acc vent_count = Ok (tot, vent_count') ->
  exists nums : list (Q * Q * Q),
    Forall2 (fun edge x => edge_numbers edge x.1.1 x.1.2 x.2)
      (omap (fun p => match get_edge_data G h p.1 p.2 with
                      | Some edge => if dict_truthy edge then Some edge else None
                      | None => None
                      end) ps)
      nums /\
    total_length tot == total_length acc + Qsum (map (fun x => x.1.1) nums) /\
    total_time tot == total_time acc + Qsum (map (fun x => x.1.2) nums) /\
    total_co2 tot
      == total_co2 acc
         + calculate_co2 (Qsum (map (fun x => x.1.1) nums)) default_emission_rate /\
    total_ventilation tot
      == total_ventilation acc + Qsum (map (fun x => x.2) nums) /\
    vent_count' = match nums with
                  | [] => vent_count
                  | _ :: _ => Some (Z.of_nat len_route - 1)%Z
                  end.
Proof.
  induction ps as [| [u v] rest IH]; intros acc vc tot vc' H.
  - injection H as <- <-. exists []. cbn [omap list_omap map Qsum fold_right].
    split; [constructor |].
    split; [ring |]. split; [ring |].
    split; [unfold calculate_co2; field |].
    split; [ring | reflexivity].
  - cbn [route_loop] in H. cbn [omap list_omap fst snd].
    destruct (get_edge_data G h u v) as [edge |] eqn:Hedge;
      [| apply (IH _ _ _ _ H)].
    destruct (dict_truthy edge) eqn:Htruthy; [| apply (IH _ _ _ _ H)].
    apply bind_Ok_inv in H as (acc' & Hacc & H).
    destruct (IH _ _ _ _ H) as (nums & Hall & Hl & Ht & Hc & Hv & Hvc).
    destruct (summarize_edge_numbers _ _ _ Hacc)
      as (len & tt & vent & Hnum & Hl' & Ht' & Hc' & Hv').
    exists ((len, tt, vent) :: nums). cbn [map Qsum fold_right fst snd].
    fold (Qsum (map (fun x : Q * Q * Q => x.1.1) nums)).
    fold (Qsum (map (fun x : Q * Q * Q => x.1.2) nums)).
    fold (Qsum (map (fun x : Q * Q * Q => x.2) nums)).
    split; [constructor; assumption |].
    split; [rewrite Hl, Hl'; ring |].
    split; [rewrite Ht, Ht'; ring |].
    split; [rewrite Hc, Hc', calculate_co2_plus; ring |].
    split; [rewrite Hv, Hv'; ring |].
    rewrite Hvc. destruct nums; reflexivity.
Qed.

(** The fields of a row, from the numbers of the traversed edges. *)
Lemma summarize_row_totals G h (routes : list (list node))
    (rows : list summary_row) :
  summarize_routes G h routes = Ok rows ->
  forall k route row,
    routes !! k = Some route -> rows !! k = Some row ->
    exists nums : list (Q * Q * Q),
      Forall2 (fun edge x => edge_numbers edge x.1.1 x.1.2 x.2)
        (traversed_edges G h route) nums /\
      Route row = S k /\
      Nodes row = length route /\
      Distance_m row = py_round (Qsum (map (fun x => x.1.1) nums)) 1 /\
      Travel_Time_min row = py_round (Qsum (map (fun x => x.1.2) nums) / 60) 1 /\
      CO2_Emissions_g row
        = py_round (calculate_co2 (Qsum (map (fun x => x.1.1) nums))
                      default_emission_rate) 2 /\
      (nums <> [] ->
       Ventilation_Penalty row
         = py_round (Qsum (map (fun x => x.2) nums)
                     / inject_Z (Z.of_nat (length route) - 1)) 2).
Proof.
  intros Hsum k route row Hk Hrow.
  destruct (summarize_loop_row _ _ _ _ _ _ Hsum k route row Hk Hrow)
    as (vc0 & tot & vc1 & mean & Hloop & Hmean & ->).
  destruct (route_loop_totals _ _ _ _ _ _ _ _ Hloop)
    as (nums & Hall & Hl & Ht & Hc & Hv & Hvc).
  fold (traversed_edges G h route) in Hall.
  exists nums. cbn [Route Nodes Distance_m Travel_Time_min CO2_Emissions_g
                   Ventilation_Penalty zero_totals total_length total_time
                   total_co2 total_ventilation] in *.
  split; [exact Hall |]. split; [reflexivity |]. split; [reflexivity |].
  split; [apply py_round_comp; rewrite Hl; ring |].
  split; [apply py_round_comp; rewrite Ht; field |].
  split; [apply py_round_comp; rewrite Hc; ring |].
  intros Hne. destruct nums as [| x nums]; [congruence |]. subst vc1.
  unfold mean_ventilation in Hmean.
  destruct (Z.of_nat (length route) - 1 =? 0)%Z; [discriminate Hmean |].
  injection Hmean as <-. apply py_round_comp. rewrite Hv.
  apply Qdiv_comp; [ring | reflexivity].
Qed.




Lemma estimate_ventilation_range (edge : gmap string value) (z : Z) :
  estimate_ventilation edge = Ok z -> (1 <= z <= 3)%Z.
Proof.
  unfold estimate_ventilation. intros H.
  apply bind_Ok_inv in H as (tag & _ & H).
  destruct (value_in tag ["motorway"; "tunnel"]%string);
    [injection H as <-; lia |].
  destruct (value_in tag ["primary"; "secondary"]%string);
    injection H as <-; lia.
Qed.

Lemma estimated_ventilation_range (edge : gmap string value) (len tt vent : Q) :
  edge !! "ventilation_penalty" = None ->
  edge_numbers edge len tt vent -> 1 <= vent <= 3.
Proof.
  intros Hnone (_ & _ & Hvent). unfold edge_ventilation in Hvent.
  apply bind_Ok_inv in Hvent as (vv & Hvv & Hvent).
  apply bind_Ok_inv in Hvv as (est & Hest & Hvv).
  injection Hvv as <-. unfold dict_get in Hvent. rewrite Hnone in Hvent.
  injection Hvent as <-. apply estimate_ventilation_range in Hest.
  split.
  - change 1 with (inject_Z 1). rewrite <- Zle_Qle. lia.
  - change 3 with (inject_Z 3). rewrite <- Zle_Qle. lia.
Qed.

Lemma Qsum_range (a b : Q) (l : list Q) :
  Forall (fun x => a <= x <= b) l ->
  a * inject_Z (Z.of_nat (length l)) <= Qsum l
  /\ Qsum l <= b * inject_Z (Z.of_nat (length l)).
Proof.
  induction 1 as [| x l [Ha Hb] _ [IHa IHb]].
  - simpl. split; ring_simplify; apply Qle_refl.
  - cbn [Qsum fold_right length]. fold (Qsum l).
    rewrite Nat2Z.inj_succ, <- Z.add_1_r, inject_Z_plus.
    change (inject_Z 1) with 1. split; lra.
Qed.

Lemma length_traversed_edges G h (route : list node) :
  (length (traversed_edges G h route) <= length route - 1)%nat.
Proof.
  unfold traversed_edges. rewrite <- length_route_pairs.
  generalize (route_pairs route) as ps.
  induction ps as [| p ps IH]; [reflexivity |].
  cbn [omap list_omap length].
  destruct (get_edge_data G h p.1 p.2) as [edge |]; [| lia].
  destruct (dict_truthy edge); simpl; lia.
Qed.

(** X5: where no traversed edge of a route carries an explicit
    ['ventilation_penalty'], the reported mean of the estimates is at most 3,
    and at least 1 when every pair of the route is a traversed edge; pairs
    that are skipped still count in the divisor and pull the mean below the
    estimates. *)
Theorem summarize_routes_ventilation_range G h (routes : list (list node))
    (rows : list summary_row) :
  summarize_routes G h routes = Ok rows ->
  forall k route row,
    routes !! k = Some route -> rows !! k = Some row ->
    traversed_edges G h route <> [] ->
    Forall (fun edge => edge !! "ventilation_penalty" = None)
      (traversed_edges G h route) ->
    0 <= Ventilation_Penalty row <= 3 /\
    (length (traversed_edges G h route) = length (route_pairs route) ->
     1 <= Ventilation_Penalty row).
Proof.
  intros Hsum k route row Hk Hrow Hne Hnone.
  destruct (summarize_row_totals _ _ _ _ Hsum k route row Hk Hrow)
    as (nums & Hall & _ & _ & _ & _ & _ & Hvent).
  assert (Hnums : nums <> []).
  { intros ->. apply Forall2_length in Hall.
    destruct (traversed_edges G h route); [congruence | discriminate]. }
  rewrite (Hvent Hnums).
  assert (Hrange : Forall (fun x => 1 <= x <= 3) (map (fun x : Q * Q * Q => x.2) nums)).
  { clear -Hall Hnone. induction Hall as [| edge x es xs Hx _ IH]; [constructor |].
    apply Forall_cons in Hnone as [He Hes]. cbn [map]. constructor.
    - eapply estimated_ventilation_range; eauto.
    - apply IH. exact Hes. }
  destruct (Qsum_range 1 3 _ Hrange) as [Hlo Hhi].
  rewrite length_map in Hlo, Hhi.
  pose proof (length_traversed_edges G h route) as Hlen.
  rewrite (Forall2_length _ _ _ Hall) in Hlen.
  assert (Hpos : (1 <= length nums)%nat)
    by (destruct nums; [congruence | simpl; lia]).
  set (S := Qsum (map (fun x : Q * Q * Q => x.2) nums)) in *.
  set (c := (Z.of_nat (length route) - 1)%Z).
  assert (Hc : (Z.of_nat (length nums) <= c)%Z) by (subst c; lia).
  assert (HcQ : inject_Z (Z.of_nat (length nums)) <= inject_Z c)
    by (rewrite <- Zle_Qle; exact Hc).
  assert (Hc0 : 0 < inject_Z c)
    by (change 0 with (inject_Z 0); rewrite <- Zlt_Qlt; lia).
  assert (Hn0 : 1 <= inject_Z (Z.of_nat (length nums)))
    by (change 1 with (inject_Z 1); rewrite <- Zle_Qle; lia).
  split.
  - apply (py_round_bounds _ 2 0 3). split.
    + apply Qle_shift_div_l; [exact Hc0 |]. change (inject_Z 0) with 0. lra.
    + apply Qle_shift_div_r; [exact Hc0 |]. change (inject_Z 3) with 3. lra.
  - intros Hfull. rewrite length_route_pairs in Hfull.
    rewrite (Forall2_length _ _ _ Hall) in Hfull.
    assert (Heq : inject_Z (Z.of_nat (length nums)) == inject_Z c).
    { subst c. rewrite Hfull. rewrite Nat2Z.inj_sub by lia. reflexivity. }
    apply (py_round_bounds _ 2 1 3). split.
    + apply Qle_shift_div_l; [exact Hc0 |]. change (inject_Z 1) with 1. lra.
    + apply Qle_shift_div_r; [exact Hc0 |]. change (inject_Z 3) with 3. lra.
Qed.

Lemma summarize_routes_ventilation_range_witness :
  exists row,
    summarize_routes example_graph example_heap [[1; 3; 4]]%Z = Ok [row] /\
    1 <= Ventilation_Penalty row <= 3.
Proof.
  eexists. split; [vm_compute; reflexivity |].
  destruct (summarize_routes_ventilation_range example_graph example_heap
              [[1; 3; 4]]%Z _ eq_refl 0%nat [1; 3; 4]%Z _ eq_refl eq_refl)
    as [[_ Hhi] Hlo].
  - vm_compute. discriminate.
  - repeat constructor.
  - split; [apply Hlo; reflexivity | exact Hhi].
Defined.

(** ** Which exceptions the summary raises, and when *)

Lemma as_num_error (v : value) (e : py_error) :
  as_num v = Raise e -> e = TypeError.
Proof. destruct v; simpl; congruence. Qed.

Lemma estimate_ventilation_error (edge : gmap string value) (e : py_error) :
  estimate_ventilation edge = Raise e -> e = IndexError.
Proof.
  unfold estimate_ventilation.
  destruct (dict_get edge "highway" (VStr "")) as [q | s | [| t ts]];
    cbn [mbind result_bind]; try congruence;
    repeat match goal with
           | |- context [if ?c then _ else _] => destruct c
           end; congruence.
Qed.

Lemma summarize_edge_error edge acc e :
  summarize_edge edge acc = Raise e -> e = TypeError \/ e = IndexError.
Proof.
  unfold summarize_edge, edge_ventilation.
  destruct (as_num (dict_get edge "length" (VNum 0))) as [len | e1] eqn:H1;
    cbn [mbind result_bind].
  2: { intros H. injection H as <-. left. eapply as_num_error; eauto. }
  destruct (as_num (dict_get edge "travel_time" (VNum 0))) as [tt | e2] eqn:H2;
    cbn [mbind result_bind].
  2: { intros H. injection H as <-. left. eapply as_num_error; eauto. }
  destruct (estimate_ventilation edge) as [est | e3] eqn:H3;
    cbn [mbind result_bind].
  2: { intros H. injection H as <-. right. eapply estimate_ventilation_error; eauto. }
  destruct (as_num (dict_get edge "ventilation_penalty" (VNum (inject_Z est))))
    as [vent | e4] eqn:H4; cbn [mbind result_bind].
  - discriminate.
  - intros H. injection H as <-. left. eapply as_num_error; eauto.
Qed.

Lemma route_loop_error G h len_route ps : forall acc vent_count e,
  route_loop G h len_route ps acc vent_count = Raise e ->
  e = TypeError \/ e = IndexError.
Proof.
  induction ps as [| [u v] rest IH]; intros acc vc e H; [discriminate |].
  cbn [route_loop] in H.
  destruct (get_edge_data G h u v) as [edge |]; [| eapply IH; eauto].
  destruct (dict_truthy edge); [| eapply IH; eauto].
  destruct (summarize_edge edge acc) as [acc' | e'] eqn:Hedge;
    cbn [mbind result_bind] in H.
  - eapply IH; eauto.
  - injection H as <-. eapply summarize_edge_error; eauto.
Qed.

Lemma route_loop_vent_count G h (route : list node) acc vent_count tot vent_count' :
  vent_count_ok vent_count ->
  route_loop G h (length route) (route_pairs route) acc vent_count
  = Ok (tot, vent_count') ->
  vent_count_ok vent_count'.
Proof.
  intros Hok H.
  destruct (route_loop_totals _ _ _ _ _ _ _ _ H)
    as (nums & Hall & _ & _ & _ & _ & ->).
  destruct nums as [| x nums]; [exact Hok |].
  apply Forall2_length in Hall.
  pose proof (length_traversed_edges G h route) as Hlen.
  unfold traversed_edges in Hlen. rewrite Hall in Hlen.
  simpl in Hlen |- *. lia.
Qed.

Lemma summarize_loop_error G h routes : forall i vent_count e,
  vent_count_ok vent_count ->
  summarize_loop G h i routes vent_count = Raise e ->
  e = TypeError \/ e = IndexError \/ e = UnboundLocalError.
Proof.
  induction routes as [| route routes IH]; intros i vc e Hok H; [discriminate |].
  cbn [summarize_loop] in H.
  destruct (route_loop G h (length route) (route_pairs route) zero_totals vc)
    as [[tot vc1] | e1] eqn:Hloop; cbn [mbind result_bind] in H.
  2: { injection H as <-. destruct (route_loop_error _ _ _ _ _ _ _ Hloop); auto. }
  pose proof (route_loop_vent_count _ _ _ _ _ _ _ Hok Hloop) as Hok1.
  destruct vc1 as [c |]; cbn [mean_ventilation] in H.
  - destruct (c =? 0)%Z eqn:Hc; [apply Z.eqb_eq in Hc; simpl in Hok1; lia |].
    cbn [mbind result_bind] in H.
    destruct (summarize_loop G h (S i) routes (Some c)) as [rows | e2] eqn:Hrest;
      cbn [mbind result_bind] in H; [discriminate |].
    injection H as <-. eapply IH; eauto.
  - cbn [mbind result_bind] in H. injection H as <-. auto.
Qed.

(** X6: the only exceptions of the summary are [TypeError] (an attribute
    that is not a number), [IndexError] (an empty highway list) and
    [UnboundLocalError] ([vent_count] never assigned); the division by the
    edge count never divides by zero, because the count is assigned only
    for a route with at least two nodes. *)
Theorem summarize_routes_exceptions G h (routes : list (list node))
    (e : py_error) :
  summarize_routes G h routes = Raise e ->
  e = TypeError \/ e = IndexError \/ e = UnboundLocalError.
Proof. apply summarize_loop_error. exact I. Qed.

Lemma summarize_routes_exceptions_witness :
  UnboundLocalError = TypeError \/ UnboundLocalError = IndexError
  \/ UnboundLocalError = UnboundLocalError.
Proof.
  apply (summarize_routes_exceptions example_graph example_heap [[1%Z]]).
  reflexivity.
Defined.

Lemma route_loop_no_edges G h len_route ps : forall acc vent_count,
  omap (fun p => match get_edge_data G h p.1 p.2 with
                 | Some edge => if dict_truthy edge then Some edge else None
                 | None => None
                 end) ps = [] ->
  route_loop G h len_route ps acc vent_count = Ok (acc, vent_count).
Proof.
  induction ps as [| [u v] rest IH]; intros acc vc Hnil; [reflexivity |].
  cbn [route_loop]. cbn [omap list_omap fst snd] in Hnil.
  destruct (get_edge_data G h u v) as [edge |]; [| apply IH; exact Hnil].
  destruct (dict_truthy edge); [discriminate Hnil | apply IH; exact Hnil].
Qed.

(** X7: when the first route traverses no edge (one node, pairs without an
    edge record, edges with an empty dictionary), the summary raises
    [UnboundLocalError], whatever routes follow. *)
Theorem summarize_routes_first_route_without_edges G h
    (route : list node) (rest : list (list node)) :
  traversed_edges G h route = [] ->
  summarize_routes G h (route :: rest) = Raise UnboundLocalError.
Proof.
  intros Hnil. unfold summarize_routes. cbn [summarize_loop].
  rewrite route_loop_no_edges by exact Hnil. reflexivity.
Qed.

Lemma summarize_routes_first_route_without_edges_witness :
  summarize_routes example_graph example_heap [[4; 1]; [1; 3; 4]]%Z
  = Raise UnboundLocalError.
Proof.
  apply summarize_routes_first_route_without_edges. reflexivity.
Defined.

Lemma summarize_loop_bound G h routes : forall i c,
  (1 <= c)%Z ->
  Forall (fun route => Forall numeric_edge (traversed_edges G h route)) routes ->
  exists rows, summarize_loop G h i routes (Some c) = Ok rows.
Proof.
  induction routes as [| route routes IH]; intros i c Hc Hall.
  - exists []. reflexivity.
  - apply Forall_cons in Hall as [Hnum Hall]. cbn [summarize_loop].
    destruct (route_loop_total G h (length route) (route_pairs route)
                zero_totals (Some c) Hnum) as (tot & Hloop).
    assert (Hok : vent_count_ok (Some c)) by exact Hc.
    pose proof (route_loop_vent_count _ _ _ _ _ _ _ Hok Hloop) as Hok1.
    rewrite Hloop. cbn [mbind result_bind].
    destruct (omap _ (route_pairs route)) as [| x xs].
    + cbn [mean_ventilation].
      destruct (c =? 0)%Z eqn:Hz; [apply Z.eqb_eq in Hz; lia |].
      cbn [mbind result_bind].
      destruct (IH (S i) c Hc Hall) as (rows & ->).
      cbn [mbind result_bind]. eauto.
    + cbn [mean_ventilation]. simpl in Hok1.
      destruct (Z.of_nat (length route) - 1 =? 0)%Z eqn:Hz;
        [apply Z.eqb_eq in Hz; lia |].
      cbn [mbind result_bind].
      destruct (IH (S i) _ Hok1 Hall) as (rows & ->).
      cbn [mbind result_bind]. eauto.
Qed.

(** X8: when the first route traverses an edge and the traversed edges
    carry numbers, the summary is produced for the whole list; a later route
    that traverses no edge (one node, say) is then reported with distance,
    travel time, CO2, ventilation penalty and score all 0, the division
    using the count left by an earlier route. *)
Theorem summarize_routes_after_first G h (route : list node)
    (rest : list (list node)) :
  traversed_edges G h route <> [] ->
  Forall (fun r => Forall numeric_edge (traversed_edges G h r)) (route :: rest) ->
  exists rows,
    summarize_routes G h (route :: rest) = Ok rows /\
    forall k r row,
      (route :: rest) !! k = Some r -> rows !! k = Some row ->
      traversed_edges G h r = [] ->
      Distance_m row == 0 /\ Travel_Time_min row == 0 /\
      CO2_Emissions_g row == 0 /\ Ventilation_Penalty row == 0 /\
      Sustainability_Score row == 0.
Proof.
  intros Hne Hall.
  assert (Hex : exists rows, summarize_routes G h (route :: rest) = Ok rows).
  { apply Forall_cons in Hall as [Hnum Hrest].
    unfold summarize_routes. cbn [summarize_loop].
    destruct (route_loop_total G h (length route) (route_pairs route)
                zero_totals None Hnum) as (tot & Hloop).
    assert (Hok1 := route_loop_vent_count G h route zero_totals None _ _ I Hloop).
    rewrite Hloop. cbn [mbind result_bind].
    unfold traversed_edges in Hne.
    destruct (omap _ (route_pairs route)) as [| x xs]; [congruence |].
    cbn [mean_ventilation]. simpl in Hok1.
    destruct (Z.of_nat (length route) - 1 =? 0)%Z eqn:Hz;
      [apply Z.eqb_eq in Hz; lia |].
    cbn [mbind result_bind].
    destruct (summarize_loop_bound G h rest 1 _ Hok1 Hrest) as (rows & ->).
    cbn [mbind result_bind]. eauto. }
  destruct Hex as (rows & Hsum). exists rows. split; [exact Hsum |].
  intros k r row Hk Hrow Hnil.
  destruct (summarize_loop_row _ _ _ _ _ _ Hsum k r row Hk Hrow)
    as (vc0 & tot & vc1 & mean & Hloop & Hmean & ->).
  unfold traversed_edges in Hnil.
  rewrite (route_loop_no_edges _ _ _ _ _ _ Hnil) in Hloop.
  injection Hloop as <- <-.
  cbn [Distance_m Travel_Time_min CO2_Emissions_g Ventilation_Penalty
       Sustainability_Score zero_totals total_length total_time total_co2
       total_ventilation total_score] in *.
  unfold mean_ventilation in Hmean.
  destruct vc0 as [c |]; [| discriminate Hmean].
  destruct (c =? 0)%Z; [discriminate Hmean |]. injection Hmean as <-.
  assert (H60 : py_round (0 / 60) 1 = py_round 0 1)
    by (apply py_round_comp; reflexivity).
  assert (Hc : py_round (0 / inject_Z c) 2 = py_round 0 2).
  { apply py_round_comp. unfold Qdiv. ring. }
  rewrite H60, Hc. repeat split.
Qed.

Lemma summarize_routes_after_first_witness :
  exists rows,
    summarize_routes example_graph example_heap [[1; 3; 4]; [1]]%Z = Ok rows /\
    forall k r row,
      [[1; 3; 4]; [1]]%Z !! k = Some r -> rows !! k = Some row ->
      traversed_edges example_graph example_heap r = [] ->
      Distance_m row == 0 /\ Travel_Time_min row == 0 /\
      CO2_Emissions_g row == 0 /\ Ventilation_Penalty row == 0 /\
      Sustainability_Score row == 0.
Proof.
  apply summarize_routes_after_first.
  - vm_compute. discriminate.
  - assert (Hnum : forall t : Q, numeric_edge (example_edge t)).
    { intros t. repeat split; eexists; reflexivity. }
    repeat constructor; apply Hnum.
Defined.

(** X9: an explicit ['ventilation_penalty'] does not spare the estimate:
    the default of [edge.get] is computed first, so an edge whose
    ['highway'] is an empty list makes the summary raise [IndexError] even
    when it carries its own penalty. *)
Theorem summarize_routes_empty_highway G h (u v : node) (route : list node)
    (rest : list (list node)) (edge : gmap string value) (len tt : Q)
    (penalty : value) :
  get_edge_data G h u v = Some edge ->
  as_num (dict_get edge "length" (VNum 0)) = Ok len ->
  as_num (dict_get edge "travel_time" (VNum 0)) = Ok tt ->
  edge !! "highway" = Some (VList []) ->
  edge !! "ventilation_penalty" = Some penalty ->
  summarize_routes G h ((u :: v :: route) :: rest) = Raise IndexError.
Proof.
  intros Hedge Hlen Htt Hhw _. unfold summarize_routes. cbn [summarize_loop].
  rewrite route_pairs_cons. cbn [route_loop]. rewrite Hedge.
  rewrite (dict_truthy_lookup edge "highway" _ Hhw).
  unfold summarize_edge, edge_ventilation. rewrite Hlen, Htt.
  cbn [mbind result_bind].
  unfold estimate_ventilation, dict_get. rewrite Hhw. reflexivity.
Qed.

Lemma summarize_routes_empty_highway_witness :
  summarize_routes
    {| nodes := [(1%Z, {| node_y := 0; node_x := 0 |});
                 (2%Z, {| node_y := 0; node_x := 1 |})];
       adj := [(1%Z, 2%Z, 0%nat)] |}
    [{[ "length" := VNum 1000; "highway" := VList [];
        "ventilation_penalty" := VNum 2 ]}]
    [[1; 2]]%Z
  = Raise IndexError.
Proof.
  eapply summarize_routes_empty_highway; reflexivity.
Defined.

(** * The map of the routes *)

Lemma node_lookup_In (ns : list (node * node_data)) (n : node) :
  In n (map fst ns) <-> is_Some (node_lookup ns n).
Proof.
  induction ns as [| [m d] ns IH]; simpl.
  - split; [intros [] | intros [x Hx]; discriminate].
  - destruct (m =? n)%Z eqn:Hm.
    + apply Z.eqb_eq in Hm. split; eauto.
    + apply Z.eqb_neq in Hm. rewrite <- IH. split; [| auto].
      intros [Heq | Hin]; [contradiction | exact Hin].
Qed.

Lemma route_coords_ok (G : Graph) (route : list node) :
  Forall (fun n => In n (map fst (nodes G))) route ->
  exists coords,
    route_coords G route = Ok coords /\
    Forall2 (fun n c => exists d, node_lookup (nodes G) n = Some d /\
                                  c = (node_y d, node_x d)) route coords.
Proof.
  induction 1 as [| n route Hn _ (coords & IH & Hall)].
  - exists []. split; [reflexivity | constructor].
  - apply node_lookup_In in Hn as [d Hd]. cbn [route_coords].
    rewrite Hd, IH. cbn [mbind result_bind]. eexists. split; [reflexivity |].
    constructor; eauto.
Qed.

Lemma route_coords_unknown (G : Graph) (route : list node) :
  Exists (fun n => ~ In n (map fst (nodes G))) route ->
  route_coords G route = Raise KeyError.
Proof.
  induction 1 as [n route Hn | n route _ IH]; cbn [route_coords].
  - destruct (node_lookup (nodes G) n) eqn:Hd; [| reflexivity].
    exfalso. apply Hn. apply node_lookup_In. eauto.
  - destruct (node_lookup (nodes G) n); [| reflexivity].
    rewrite IH. reflexivity.
Qed.

Lemma create_map_loop_ok (G : Graph) (routes : list (list node)) : forall i,
  Forall (fun route =>
            route <> [] /\ Forall (fun n => In n (map fst (nodes G))) route)
    routes ->
  exists lines,
    create_map_loop G i routes = Ok lines /\
    length lines = length routes /\
    forall k route line,
      routes !! k = Some route -> lines !! k = Some line ->
      Forall2 (fun n c => exists d, node_lookup (nodes G) n = Some d /\
                                    c = (node_y d, node_x d))
        route (locations line) /\
      color line = nth ((i + k) mod 5) colors ""%string /\
      tooltip_route line = S (i + k).
Proof.
  induction routes as [| r routes IH]; intros i Hall.
  - exists []. split; [reflexivity |]. split; [reflexivity |].
    intros k route line Hk. discriminate Hk.
  - apply Forall_cons in Hall as [[Hne Hr] Hall].
    destruct (route_coords_ok G r Hr) as (coords & Hcoords & Hc).
    destruct (IH (S i) Hall) as (lines & Hlines & Hlen & Hspec).
    cbn [create_map_loop]. rewrite Hcoords. cbn [mbind result_bind].
    destruct coords as [| c coords];
      [inversion Hc; subst; contradiction |].
    unfold PolyLine. cbn [mbind result_bind].
    rewrite Hlines. cbn [mbind result_bind].
    eexists. split; [reflexivity |]. split; [simpl; rewrite Hlen; reflexivity |].
    intros [| k] route line Hk Hline.
    + injection Hk as <-. injection Hline as <-. cbn [locations color tooltip_route].
      rewrite Nat.add_0_r. auto.
    + simpl in Hk, Hline. destruct (Hspec k route line Hk Hline) as (H1 & H2 & H3).
      replace (i + S k)%nat with (S i + k)%nat by lia. auto.
Qed.

(** The first route that cannot be drawn decides the exception. *)
Lemma create_map_loop_bad (G : Graph) (good : list (list node))
    (bad : list node) (rest : list (list node)) : forall i,
  Forall (fun route =>
            route <> [] /\ Forall (fun n => In n (map fst (nodes G))) route)
    good ->
  (Exists (fun n => ~ In n (map fst (nodes G))) bad ->
   create_map_loop G i (good ++ bad :: rest) = Raise KeyError) /\
  (bad = [] -> create_map_loop G i (good ++ bad :: rest) = Raise ValueError).
Proof.
  induction good as [| r good IH]; intros i Hall.
  - cbn [app create_map_loop]. split.
    + intros Hbad. rewrite (route_coords_unknown G bad Hbad). reflexivity.
    + intros ->. reflexivity.
  - apply Forall_cons in Hall as [[Hne Hr] Hall].
    destruct (route_coords_ok G r Hr) as (coords & Hcoords & Hc).
    destruct coords as [| c coords];
      [inversion Hc; subst; contradiction |].
    destruct (IH (S i) Hall) as [Hkey Hvalue].
    cbn [app create_map_loop]. rewrite Hcoords. cbn [mbind result_bind].
    unfold PolyLine. cbn [mbind result_bind]. split.
    + intros Hbad. rewrite (Hkey Hbad). reflexivity.
    + intros Hnil. rewrite (Hvalue Hnil). reflexivity.
Qed.

(** X10: [create_map] succeeds when every route has a node and every node
    of every route is a node of the graph, and then draws one line per
    route, in order, through the coordinates of the nodes of the route,
    coloured by the position of the route modulo 5 and labelled with that
    position plus one, between a start and an end marker. Otherwise the
    first route that cannot be drawn decides: a node that is not in the
    graph makes it raise [KeyError], a route without nodes [ValueError],
    raised by [folium.PolyLine]. *)
Theorem create_map_spec (G : Graph) (routes : list (list node))
    (start_coord end_coord : Q * Q) :
  (Forall (fun route =>
             route <> [] /\ Forall (fun n => In n (map fst (nodes G))) route)
     routes ->
   exists m,
     create_map G routes start_coord end_coord = Ok m /\
     length (polylines m) = length routes /\
     map marker_location (markers m) = [start_coord; end_coord] /\
     forall k route line,
       routes !! k = Some route -> polylines m !! k = Some line ->
       Forall2 (fun n c => exists d, node_lookup (nodes G) n = Some d /\
                                     c = (node_y d, node_x d))
         route (locations line) /\
       color line = nth (k mod 5) colors ""%string /\
       tooltip_route line = S k) /\
  (forall good bad rest,
     routes = good ++ bad :: rest ->
     Forall (fun route =>
               route <> [] /\ Forall (fun n => In n (map fst (nodes G))) route)
       good ->
     (Exists (fun n => ~ In n (map fst (nodes G))) bad ->
      create_map G routes start_coord end_coord = Raise KeyError) /\
     (bad = [] ->
      create_map G routes start_coord end_coord = Raise ValueError)).
Proof.
  split.
  - intros Hall. destruct (create_map_loop_ok G routes 0 Hall)
      as (lines & Hlines & Hlen & Hspec).
    unfold create_map. rewrite Hlines. cbn [mbind result_bind].
    eexists. split; [reflexivity |]. cbn [polylines markers map marker_location].
    split; [exact Hlen |]. split; [reflexivity |]. exact Hspec.
  - intros good bad rest -> Hgood.
    destruct (create_map_loop_bad G good bad rest 0 Hgood) as [Hkey Hvalue].
    unfold create_map. split.
    + intros Hbad. rewrite (Hkey Hbad). reflexivity.
    + intros Hnil. rewrite (Hvalue Hnil). reflexivity.
Qed.

Lemma create_map_spec_witness :
  (exists m,
     create_map example_graph [[1; 3; 4]; [1; 2; 3; 4]]%Z (0, 0) (0, 3) = Ok m /\
     length (polylines m) = 2%nat) /\
  create_map example_graph [[1; 3; 4]; [1; 9]]%Z (0, 0) (0, 3) = Raise KeyError /\
  create_map example_graph [[1; 3; 4]; []]%Z (0, 0) (0, 3) = Raise ValueError.
Proof.
  assert (Hgood : Forall (fun route =>
                     route <> []
                     /\ Forall (fun n => In n (map fst (nodes example_graph))) route)
                    [[1; 3; 4]]%Z).
  { repeat constructor; try discriminate; simpl; tauto. }
  split; [| split].
  - destruct (proj1 (create_map_spec example_graph [[1; 3; 4]; [1; 2; 3; 4]]%Z
                       (0, 0) (0, 3))) as (m & Hm & Hlen & _).
    + repeat constructor; try discriminate; simpl; tauto.
    + exists m. split; [exact Hm | exact Hlen].
  - apply (proj2 (create_map_spec example_graph [[1; 3; 4]; [1; 9]]%Z
                    (0, 0) (0, 3)) [[1; 3; 4]]%Z [1; 9]%Z [] eq_refl Hgood).
    apply Exists_cons. right. constructor.
    simpl. intros [H | [H | [H | [H | []]]]]; discriminate H.
  - apply (proj2 (create_map_spec example_graph [[1; 3; 4]; []]%Z
                    (0, 0) (0, 3)) [[1; 3; 4]]%Z [] [] eq_refl Hgood).
    reflexivity.
Defined.

(** * The "Generate Routes" button *)

Lemma find_nearest_node_in (great_circle : Q * Q -> Q * Q -> Q) (G : Graph)
    (coord : Q * Q) (n : node) :
  find_nearest_node great_circle G coord = Some n -> In n (map fst (nodes G)).
Proof.
  intros Hfind.
  destruct (nearest_scan_state great_circle coord (nodes G) [] None None)
    as (m & Hst); [left; auto |].
  simpl in Hst. fold (find_nearest_node great_circle G coord) in Hst.
  destruct Hst as [(_ & Hnone & _) | (i & n' & d & Hi & Hres & _)].
  - congruence.
  - rewrite Hfind in Hres. injection Hres as <-.
    apply in_map_iff. exists (n, d). split; [reflexivity |].
    apply list_elem_of_In. eapply list_elem_of_lookup_2. exact Hi.
Qed.

Lemma find_nearest_node_None (great_circle : Q * Q -> Q * Q -> Q) (G : Graph)
    (coord : Q * Q) :
  find_nearest_node great_circle G coord = None <-> nodes G = [].
Proof.
  split.
  - intros Hfind.
    destruct (nearest_scan_state great_circle coord (nodes G) [] None None)
      as (m & Hst); [left; auto |].
    simpl in Hst. fold (find_nearest_node great_circle G coord) in Hst.
    destruct Hst as [(Hnil & _) | (i & n' & d & _ & Hres & _)];
      [exact Hnil | congruence].
  - intros Hnil. unfold find_nearest_node. rewrite Hnil. reflexivity.
Qed.

(** The planner leaves the dictionaries of the input graph as they are. *)
Lemma planner_frame sp (g : Graph) (h : list (gmap string value)) s t N P :
  wf_graph g h ->
  forall u v,
    get_edge_data g (get_diverse_routes sp s t g N P h).2 u v
    = get_edge_data g h u v.
Proof.
  intros Hwf u v. unfold get_edge_data.
  destruct (adj_lookup (adj g) u v) as [l |] eqn:Hl; [| reflexivity].
  pose proof (wf_graph_lookup g h u v l Hwf Hl) as Hlt.
  rewrite get_diverse_routes_unfold.
  rewrite (plan_loop_frame (copy g h).1 (length h)).
  - cbn [copy snd]. apply lookup_app_l. exact Hlt.
  - intros u' v' l'. apply copy_locs.
  - exact Hlt.
Qed.

(** The summary reads the graph through [get_edge_data] only. *)
Lemma route_loop_ext G (h1 h2 : list (gmap string value)) len_route ps :
  (forall u v, get_edge_data G h1 u v = get_edge_data G h2 u v) ->
  forall acc vent_count,
    route_loop G h1 len_route ps acc vent_count
    = route_loop G h2 len_route ps acc vent_count.
Proof.
  intros Hext. induction ps as [| [u v] rest IH]; intros acc vc; [reflexivity |].
  cbn [route_loop]. rewrite Hext.
  destruct (get_edge_data G h2 u v) as [edge |]; [| apply IH].
  destruct (dict_truthy edge); [| apply IH].
  destruct (summarize_edge edge acc); cbn [mbind result_bind];
    [apply IH | reflexivity].
Qed.

Lemma summarize_routes_ext G (h1 h2 : list (gmap string value)) routes :
  (forall u v, get_edge_data G h1 u v = get_edge_data G h2 u v) ->
  summarize_routes G h1 routes = summarize_routes G h2 routes.
Proof.
  intros Hext. unfold summarize_routes.
  generalize (@None Z) as vc. generalize 0%nat as i.
  induction routes as [| r routes IH]; intros i vc; [reflexivity |].
  cbn [summarize_loop]. rewrite (route_loop_ext G h1 h2 _ _ Hext).
  destruct (route_loop G h2 (length r) (route_pairs r) zero_totals vc)
    as [[tot vc1] | e]; cbn [mbind result_bind]; [| reflexivity].
  destruct (mean_ventilation (total_ventilation tot) vc1);
    cbn [mbind result_bind]; [| reflexivity].
  rewrite IH. reflexivity.
Qed.

(** X11: with four readable input fields, the handler reports "no nearby
    nodes" exactly when the graph has no node; on any graph with a node both
    points snap to nodes of the graph. *)
Theorem on_generate_routes_no_nodes sp great_circle (G : Graph)
    (h : list (gmap string value)) (slat slon elat elon : Q) :
  on_generate_routes sp great_circle G h
    (Some slat) (Some slon) (Some elat) (Some elon) = No_nearby_nodes
  <-> nodes G = [].
Proof.
  unfold on_generate_routes. split.
  - destruct (find_nearest_node great_circle G (slat, slon)) as [s |] eqn:Hs.
    + destruct (find_nearest_node great_circle G (elat, elon)) as [t |] eqn:Ht.
      * destruct (get_diverse_routes sp s t G default_num_routes
                    default_penalty_factor h) as [[[| r routes] | e] h'];
          try discriminate.
        destruct (create_map G (r :: routes) (slat, slon) (elat, elon));
          [| discriminate].
        destruct (summarize_routes G h' (r :: routes)); discriminate.
      * intros _. apply (find_nearest_node_None great_circle G (elat, elon)).
        exact Ht.
    + intros _. apply (find_nearest_node_None great_circle G (slat, slon)).
      exact Hs.
  - intros Hnil.
    rewrite (proj2 (find_nearest_node_None great_circle G (slat, slon)) Hnil).
    reflexivity.
Qed.

Lemma on_generate_routes_no_nodes_witness :
  on_generate_routes enum_shortest_path example_distance
    {| nodes := []; adj := [] |} []
    (Some 0) (Some 0) (Some 0) (Some 1) = No_nearby_nodes.
Proof.
  apply (proj2 (on_generate_routes_no_nodes enum_shortest_path example_distance
                  {| nodes := []; adj := [] |} [] 0 0 0 1)).
  reflexivity.
Defined.

Lemma create_map_ok (G : Graph) (routes : list (list node))
    (start_coord end_coord : Q * Q) :
  Forall (fun route =>
            route <> [] /\ Forall (fun n => In n (map fst (nodes G))) route)
    routes ->
  exists m,
    create_map G routes start_coord end_coord = Ok m /\
    length (polylines m) = length routes.
Proof.
  intros Hall. destruct (create_map_loop_ok G routes 0 Hall)
    as (lines & Hlines & Hlen & _).
  unfold create_map. rewrite Hlines. cbn [mbind result_bind].
  eexists. split; [reflexivity | exact Hlen].
Qed.

(** X12: when both points snap to the same node, the handler shows an
    error instead of routes: the planner hands over five one-node routes,
    the map is drawn, and the summary raises [UnboundLocalError]. *)
Theorem on_generate_routes_same_node sp (Hsp : solver_laws sp) great_circle
    (G : Graph) (h : list (gmap string value)) (slat slon elat elon : Q)
    (s : node) :
  find_nearest_node great_circle G (slat, slon) = Some s ->
  find_nearest_node great_circle G (elat, elon) = Some s ->
  on_generate_routes sp great_circle G h
    (Some slat) (Some slon) (Some elat) (Some elon)
  = Error_shown (Raised UnboundLocalError).
Proof.
  intros Hs Ht. unfold on_generate_routes. rewrite Hs, Ht.
  pose proof (find_nearest_node_in _ _ _ _ Hs) as Hin.
  rewrite get_diverse_routes_unfold.
  rewrite plan_loop_trivial.
  2: { intros h0. apply (sp_source_is_target sp Hsp).
       rewrite view_nodes_copy. exact Hin. }
  cbn [app repeat default_num_routes].
  destruct (create_map_ok G (repeat [s] 5) (slat, slon) (elat, elon))
    as (m & Hm & _).
  { repeat constructor; solve [discriminate | exact Hin]. }
  cbn [repeat] in Hm. rewrite Hm. reflexivity.
Qed.

Lemma on_generate_routes_same_node_witness :
  on_generate_routes enum_shortest_path example_distance
    example_graph example_heap (Some 0) (Some (1 # 10)) (Some 0) (Some (2 # 10))
  = Error_shown (Raised UnboundLocalError).
Proof.
  apply (on_generate_routes_same_node enum_shortest_path
           enum_shortest_path_laws example_distance example_graph example_heap
           0 (1 # 10) 0 (2 # 10) 1%Z); reflexivity.
Defined.

(** X13: when the two points snap to nodes that no path joins, the
    handler reports that no routes were found. *)
Theorem on_generate_routes_disconnected sp (Hsp : solver_laws sp) great_circle
    (G : Graph) (h : list (gmap string value)) (slat slon elat elon : Q)
    (s t : node) :
  wf_graph G h -> travel_times_ok G h ->
  find_nearest_node great_circle G (slat, slon) = Some s ->
  find_nearest_node great_circle G (elat, elon) = Some t ->
  (forall p, ~ is_path (has_edge G) s t p) ->
  on_generate_routes sp great_circle G h
    (Some slat) (Some slon) (Some elat) (Some elon)
  = No_routes_found.
Proof.
  intros Hwf Htimes Hs Ht Hno. unfold on_generate_routes. rewrite Hs, Ht.
  pose proof (planner_routes_none sp Hsp G h default_penalty_factor s t Hwf Htimes
                (find_nearest_node_in _ _ _ _ Hs) (find_nearest_node_in _ _ _ _ Ht)
                default_num_routes Hno) as Hres.
  destruct (get_diverse_routes sp s t G default_num_routes
              default_penalty_factor h) as [res h'].
  simpl in Hres. rewrite Hres. reflexivity.
Qed.

Lemma on_generate_routes_disconnected_witness :
  on_generate_routes enum_shortest_path example_distance
    line_graph line_heap (Some 0) (Some 2) (Some 0) (Some 0)
  = No_routes_found.
Proof.
  apply (on_generate_routes_disconnected enum_shortest_path
           enum_shortest_path_laws example_distance line_graph line_heap
           0 2 0 0 3%Z 1%Z).
  - exact line_wf.
  - exact line_times.
  - reflexivity.
  - reflexivity.
  - intros p Hp.
    destruct (is_path_inv _ _ _ _ Hp) as [(_ & Heq) | (b & r & _ & He & _)].
    + discriminate Heq.
    + unfold has_edge in He. cbn -[Z.eqb] in He. discriminate He.
Defined.

Lemma path_nodes_in (g : Graph) (r : list node) : forall s t,
  edges_closed g -> In s (map fst (nodes g)) ->
  is_path (has_edge g) s t r ->
  Forall (fun n => In n (map fst (nodes g))) r.
Proof.
  induction r as [| a r IH]; intros s t Hclosed Hs Hp.
  - constructor.
  - destruct (is_path_inv _ _ _ _ Hp) as [(Heq & _) | (b & rest & Heq & He & Hp')].
    + injection Heq as -> ->. repeat constructor. exact Hs.
    + injection Heq as -> ->. constructor; [exact Hs |].
      apply (IH b t Hclosed); [| exact Hp'].
      apply (Hclosed s b He).
Qed.

Lemma traversed_edges_numeric (g : Graph) (h : list (gmap string value))
    (route : list node) :
  edges_numeric g h -> Forall numeric_edge (traversed_edges g h route).
Proof.
  intros Hnum. unfold traversed_edges.
  induction (route_pairs route) as [| [u v] ps IH]; [constructor |].
  cbn [omap list_omap fst snd].
  destruct (get_edge_data g h u v) as [edge |] eqn:Hedge; [| exact IH].
  destruct (dict_truthy edge); [| exact IH].
  constructor; [eapply Hnum; eauto | exact IH].
Qed.

Lemma traversed_edges_path (g : Graph) (h : list (gmap string value))
    (s t : node) (r : list node) :
  wf_graph g h -> travel_times_ok g h -> s <> t ->
  is_path (has_edge g) s t r -> traversed_edges g h r <> [].
Proof.
  intros Hwf Htimes Hst Hp.
  destruct (is_path_inv _ _ _ _ Hp) as [(_ & Heq) | (b & rest & -> & He & _)];
    [contradiction |].
  unfold traversed_edges. rewrite route_pairs_cons. cbn [omap list_omap fst snd].
  unfold has_edge in He.
  destruct (adj_lookup (adj g) s b) as [l |] eqn:Hl; [| discriminate He].
  pose proof (wf_graph_lookup g h s b l Hwf Hl) as Hlt.
  destruct (lookup_lt_is_Some_2 h l Hlt) as [d Hd].
  assert (Hged : get_edge_data g h s b = Some d)
    by (unfold get_edge_data; rewrite Hl; exact Hd).
  rewrite Hged. destruct (Htimes s b d Hged) as (q & Hq & _).
  rewrite (dict_truthy_lookup d _ _ Hq). discriminate.
Qed.

(** X14: on a graph whose edges join its nodes and carry numbers, when the
    two points snap to different nodes joined by a path, the handler shows
    the result: five routes, each a path of the graph from the start node to
    the end node, a map with five lines and a table with five rows. *)
Theorem on_generate_routes_success sp (Hsp : solver_laws sp) great_circle
    (G : Graph) (h : list (gmap string value)) (slat slon elat elon : Q)
    (s t : node) :
  wf_graph G h -> travel_times_ok G h -> edges_numeric G h -> edges_closed G ->
  find_nearest_node great_circle G (slat, slon) = Some s ->
  find_nearest_node great_circle G (elat, elon) = Some t ->
  s <> t ->
  (exists p, is_path (has_edge G) s t p) ->
  exists routes route_map route_table,
    on_generate_routes sp great_circle G h
      (Some slat) (Some slon) (Some elat) (Some elon)
    = Routes_shown routes route_map route_table /\
    Forall (is_path (has_edge G) s t) routes /\
    length routes = 5%nat /\
    length (polylines route_map) = 5%nat /\
    length route_table = 5%nat.
Proof.
  intros Hwf Htimes Hnum Hclosed Hs Ht Hst Hex.
  pose proof (find_nearest_node_in _ _ _ _ Hs) as Hsin.
  pose proof (find_nearest_node_in _ _ _ _ Ht) as Htin.
  assert (HP : 0 <= default_penalty_factor) by discriminate.
  destruct (planner_routes_full sp Hsp G h default_penalty_factor s t HP Hwf
              Htimes Hsin Htin default_num_routes Hex)
    as (routes & Hres & Hlen & Hpaths).
  pose proof (planner_frame sp G h s t default_num_routes
                default_penalty_factor Hwf) as Hframe.
  unfold on_generate_routes. rewrite Hs, Ht.
  destruct (get_diverse_routes sp s t G default_num_routes
              default_penalty_factor h) as [res h'].
  cbn [fst snd] in Hres, Hframe. subst res.
  destruct (create_map_ok G routes (slat, slon) (elat, elon))
    as (m & Hm & Hlines).
  { eapply Forall_impl; [exact Hpaths |].
    intros r Hr. split.
    - intros ->. destruct Hr as [Hhead _]. discriminate Hhead.
    - apply (path_nodes_in G r s t Hclosed Hsin Hr). }
  destruct (summarize_routes_total G h routes) as (rows & Hrows & Hrlen).
  { eapply Forall_impl; [exact Hpaths |]. intros r Hr. split.
    - apply (traversed_edges_path G h s t r Hwf Htimes Hst Hr).
    - apply traversed_edges_numeric. exact Hnum. }
  rewrite <- (summarize_routes_ext G h' h routes Hframe) in Hrows.
  destruct routes as [| r routes]; [discriminate Hlen |].
  rewrite Hm, Hrows.
  exists (r :: routes), m, rows.
  split; [reflexivity |]. split; [exact Hpaths |].
  split; [exact Hlen |]. split; [rewrite Hlines; exact Hlen |].
  rewrite Hrlen. exact Hlen.
Qed.

Lemma example_numeric : edges_numeric example_graph example_heap.
Proof.
  intros u v d Hd. unfold get_edge_data in Hd.
  destruct (adj_lookup (adj example_graph) u v) as [l |]; [| discriminate].
  assert (Hnum : forall q : Q, numeric_edge (example_edge q))
    by (intros q; repeat split; eexists; reflexivity).
  do 4 (destruct l as [| l];
        [cbn in Hd; injection Hd as <-; apply Hnum |]).
  discriminate Hd.
Qed.

Lemma example_closed : edges_closed example_graph.
Proof.
  intros u v He. unfold has_edge in He.
  destruct (adj_lookup (adj example_graph) u v) as [l |] eqn:Hl;
    [| discriminate He].
  apply adj_lookup_In in Hl. simpl in Hl |- *.
  destruct Hl as [H | [H | [H | [H | []]]]]; injection H as <- <- _; tauto.
Qed.

Lemma on_generate_routes_success_witness :
  exists routes route_map route_table,
    on_generate_routes enum_shortest_path example_distance
      example_graph example_heap (Some 0) (Some 0) (Some 0) (Some 3)
    = Routes_shown routes route_map route_table /\
    Forall (is_path (has_edge example_graph) 1%Z 4%Z) routes /\
    length routes = 5%nat /\
    length (polylines route_map) = 5%nat /\
    length route_table = 5%nat.
Proof.
  apply (on_generate_routes_success enum_shortest_path enum_shortest_path_laws
           example_distance example_graph example_heap 0 0 0 3 1%Z 4%Z).
  - exact example_wf.
  - exact example_times.
  - exact example_numeric.
  - exact example_closed.
  - reflexivity.
  - reflexivity.
  - discriminate.
  - exists [1; 3; 4]%Z. repeat split.
Defined.

(** * Asking for fewer routes *)

Lemma plan_loop_extends sp (n : nat) : forall s t G P acc
    (h : list (gmap string value)) routes,
  (plan_loop sp n s t G P acc h).1 = Ok routes ->
  exists more, routes = acc ++ more.
Proof.
  induction n as [| n IH]; intros s t G P acc h routes H.
  - injection H as <-. exists []. rewrite app_nil_r. reflexivity.
  - cbn [plan_loop] in H.
    destruct (sp (view G h) s t) as [route | e].
    + destruct (penalize_route G P (route_pairs route) h) as [[e |] h1].
      * discriminate H.
      * destruct (IH _ _ _ _ _ _ _ H) as (more & ->).
        exists (route :: more). rewrite <- app_assoc. reflexivity.
    + destruct e; try discriminate H.
      injection H as <-. exists []. rewrite app_nil_r. reflexivity.
Qed.

Lemma plan_loop_prefix sp (n m : nat) : forall s t G P acc
    (h : list (gmap string value)) routes,
  (plan_loop sp (n + m) s t G P acc h).1 = Ok routes ->
  (plan_loop sp n s t G P acc h).1 = Ok (take (length acc + n) routes).
Proof.
  induction n as [| n IH]; intros s t G P acc h routes H.
  - destruct (plan_loop_extends _ _ _ _ _ _ _ _ _ H) as (more & ->).
    rewrite Nat.add_0_r, take_app_length. reflexivity.
  - cbn [plan_loop Nat.add] in H |- *.
    destruct (sp (view G h) s t) as [route | e].
    + destruct (penalize_route G P (route_pairs route) h) as [[e |] h1].
      * discriminate H.
      * rewrite (IH _ _ _ _ _ _ _ H). rewrite length_app. simpl.
        do 2 f_equal. lia.
    + destruct e; try discriminate H.
      injection H as <-. simpl. rewrite take_ge by lia. reflexivity.
Qed.

(** X15: asking for more routes only appends: whenever the planner
    returns for [N + M] routes, it returns for [N] routes the first [N] of
    them (all of them when there are fewer). This holds for any path
    search. *)
Theorem get_diverse_routes_prefix sp (g : Graph) (h : list (gmap string value))
    (s t : node) (N M : nat) (P : Q) (routes : list (list node)) :
  (get_diverse_routes sp s t g (N + M) P h).1 = Ok routes ->
  (get_diverse_routes sp s t g N P h).1 = Ok (take N routes).
Proof.
  rewrite !get_diverse_routes_unfold. intros H.
  apply (plan_loop_prefix sp N M) in H. exact H.
Qed.

Lemma get_diverse_routes_prefix_witness :
  (get_diverse_routes enum_shortest_path 1%Z 4%Z example_graph 2
     default_penalty_factor example_heap).1
  = Ok [[1; 3; 4]; [1; 2; 3; 4]]%Z.
Proof.
  apply (get_diverse_routes_prefix enum_shortest_path example_graph example_heap
           1%Z 4%Z 2 1 default_penalty_factor
           [[1; 3; 4]; [1; 2; 3; 4]; [1; 3; 4]]%Z).
  vm_compute. reflexivity.
Defined.

(** * Properties of the file splitting scripts *)

(** ** Text *)

Section TextFacts.

Local Open Scope Z_scope.
Local Open Scope list_scope.

Lemma startswith_app (p s : list ascii) : startswith (p ++ s) p = true.
Proof.
  induction p as [|c p IH]; simpl; [reflexivity|].
  rewrite Ascii.eqb_refl. exact IH.
Qed.

Lemma startswith_inv (s p : list ascii) :
  startswith s p = true -> exists r, s = p ++ r.
Proof.
  revert s. induction p as [|c p IH]; intros s H; simpl in *.
  - exists s. reflexivity.
  - destruct s as [|d s]; [discriminate|].
    apply andb_prop in H as [Hc Hs]. apply Ascii.eqb_eq in Hc. subst d.
    destruct (IH _ Hs) as [r ->]. exists r. reflexivity.
Qed.

Lemma find_sub_unfold (s sub : list ascii) :
  find_sub s sub =
  if startswith s sub then Some O
  else match s with [] => None | _ :: s' => S <$> find_sub s' sub end.
Proof. destruct s; reflexivity. Qed.

Lemma contains_intro (a sub b : list ascii) :
  contains (a ++ sub ++ b) sub = true.
Proof.
  unfold contains. induction a as [|c a IH].
  - simpl app. rewrite find_sub_unfold, startswith_app. reflexivity.
  - simpl app. rewrite find_sub_unfold.
    destruct (startswith _ _); [reflexivity|].
    destruct (find_sub (a ++ sub ++ b) sub); [reflexivity | discriminate].
Qed.

Lemma contains_inv (s sub : list ascii) :
  contains s sub = true -> exists a b, s = a ++ sub ++ b.
Proof.
  unfold contains. induction s as [|c s IH]; rewrite find_sub_unfold.
  - destruct (startswith [] sub) eqn:E; [|discriminate].
    intros _. apply startswith_inv in E as [r E]. exists [], r. exact E.
  - destruct (startswith (c :: s) sub) eqn:E.
    + intros _. apply startswith_inv in E as [r E]. exists [], r. exact E.
    + destruct (find_sub s sub) eqn:F; [|discriminate].
      intros _. destruct (IH eq_refl) as (a & b & ->).
      exists (c :: a), b. reflexivity.
Qed.

Lemma contains_take (k : nat) (s sub : list ascii) :
  contains s sub = false -> contains (take k s) sub = false.
Proof.
  intros H. destruct (contains (take k s) sub) eqn:E; [|reflexivity].
  apply contains_inv in E as (a & b & E).
  rewrite <- (take_drop k s), E, <- !app_assoc, contains_intro in H.
  discriminate.
Qed.

(** The first occurrence of a separator of two different characters. *)
Lemma find_sub_pair (a b : list ascii) (x y : ascii) :
  x <> y -> contains a [x; y] = false ->
  find_sub (a ++ x :: y :: b) [x; y] = Some (length a).
Proof.
  intros Hxy. unfold contains. induction a as [|c a IH]; intros H.
  - simpl. rewrite !Ascii.eqb_refl. reflexivity.
  - rewrite find_sub_unfold in H.
    destruct (startswith (c :: a) [x; y]) eqn:E; [discriminate|].
    destruct (find_sub a [x; y]) eqn:F; [discriminate|].
    simpl app. rewrite find_sub_unfold.
    assert (startswith (c :: a ++ x :: y :: b) [x; y] = false) as ->.
    { simpl in *. destruct (Ascii.eqb c x) eqn:Hc; [|reflexivity].
      simpl in *. destruct a as [|d a]; simpl in *.
      - apply Ascii.eqb_neq in Hxy. rewrite Hxy. reflexivity.
      - rewrite andb_true_r in *. exact E. }
    rewrite IH by reflexivity. reflexivity.
Qed.

Lemma contains_absent (s r : list ascii) (x : ascii) :
  ~ In x s -> contains s (x :: r) = false.
Proof.
  unfold contains. induction s as [|c s IH]; intros H.
  - reflexivity.
  - rewrite find_sub_unfold. simpl startswith.
    destruct (Ascii.eqb c x) eqn:E.
    + apply Ascii.eqb_eq in E. subst. exfalso. apply H. left. reflexivity.
    + assert (Hs : ~ In x s) by (intros Hi; apply H; right; exact Hi).
      specialize (IH Hs). simpl.
      destruct (find_sub s (x :: r)); [discriminate | reflexivity].
Qed.

Lemma contains_pair_app (a b : list ascii) (x y : ascii) :
  contains a [x; y] = false -> contains b [x; y] = false ->
  startswith b [y] = false ->
  contains (a ++ b) [x; y] = false.
Proof.
  intros Ha Hb Hy.
  destruct (contains (a ++ b) [x; y]) eqn:E; [|reflexivity]. exfalso.
  revert Ha E. unfold contains. induction a as [|c a IH]; intros Ha E.
  - simpl in E. unfold contains in Hb.
    destruct (find_sub b [x; y]); discriminate.
  - rewrite find_sub_unfold in Ha.
    destruct (startswith (c :: a) [x; y]) eqn:S1; [discriminate|].
    destruct (find_sub a [x; y]) eqn:F; [discriminate|].
    simpl app in E. rewrite find_sub_unfold in E.
    destruct (startswith (c :: a ++ b) [x; y]) eqn:S2.
    + simpl in S1, S2. destruct (Ascii.eqb c x); [|discriminate].
      simpl in *. destruct a as [|d a]; simpl in *.
      * destruct b as [|e b]; [discriminate|].
        simpl in Hy. rewrite andb_true_r in *. congruence.
      * rewrite andb_true_r in *. congruence.
    + apply IH; [reflexivity|].
      destruct (find_sub (a ++ b) [x; y]); [reflexivity | discriminate].
Qed.

Lemma lstrip_id (c : ascii) (s : list ascii) :
  is_space c = false -> lstrip (c :: s) = c :: s.
Proof. intros H. simpl. rewrite H. reflexivity. Qed.

Lemma strip_id (s : list ascii) :
  lstrip s = s -> lstrip (rev s) = rev s -> strip s = s.
Proof. intros H1 H2. unfold strip. rewrite H1, H2. apply rev_involutive. Qed.

Lemma strip_app_space (s : list ascii) (c : ascii) :
  is_space c = true -> strip (s ++ [c]) = strip s.
Proof.
  intros Hc. unfold strip.
  assert (H : lstrip (s ++ [c]) = [] /\ lstrip s = []
              \/ lstrip (s ++ [c]) = lstrip s ++ [c]).
  { induction s as [|d s IH]; simpl.
    - rewrite Hc. left. split; reflexivity.
    - destruct (is_space d); [exact IH | right; reflexivity]. }
  destruct H as [[-> ->] | ->]; [reflexivity|].
  rewrite rev_app_distr. simpl. rewrite Hc. reflexivity.
Qed.

Lemma strip_space_cons (s : list ascii) (c : ascii) :
  is_space c = true -> strip (c :: s) = strip s.
Proof. intros Hc. unfold strip. simpl. rewrite Hc. reflexivity. Qed.

Lemma until_space_app (a r : list ascii) (c : ascii) :
  forallb (fun d => negb (is_space d)) a = true -> is_space c = true ->
  until_space (a ++ c :: r) = a.
Proof.
  intros Ha Hc. induction a as [|d a IH]; simpl in *.
  - rewrite Hc. reflexivity.
  - apply andb_prop in Ha as [Hd Ha]. apply negb_true_iff in Hd.
    rewrite Hd, (IH Ha). reflexivity.
Qed.

Lemma universal_newlines_id (s : list ascii) :
  ~ In "013"%char s -> universal_newlines s = s.
Proof.
  induction s as [|c s IH]; intros H; simpl; [reflexivity|].
  destruct (Ascii.eqb c "013") eqn:E.
  - apply Ascii.eqb_eq in E. exfalso. apply H. left. exact E.
  - rewrite IH; [reflexivity|]. intros Hi. apply H. right. exact Hi.
Qed.

Lemma lines_keepends_line (l rest cur : list ascii) :
  ~ In "010"%char l ->
  lines_keepends (l ++ "010"%char :: rest) cur
  = (rev cur ++ l ++ ["010"%char]) :: lines_keepends rest [].
Proof.
  revert cur. induction l as [|c l IH]; intros cur H.
  - simpl. reflexivity.
  - simpl app. simpl lines_keepends.
    destruct (Ascii.eqb c "010") eqn:E.
    + apply Ascii.eqb_eq in E. exfalso. apply H. left. exact E.
    + rewrite IH by (intros Hi; apply H; right; exact Hi).
      simpl rev. rewrite <- !app_assoc. reflexivity.
Qed.

(** ** Numbers as text *)

Lemma is_digit_not_space (c : ascii) : is_digit c = true -> is_space c = false.
Proof.
  unfold is_digit, is_space. generalize (nat_of_ascii c). intros n H.
  apply andb_prop in H as [H1 H2].
  apply Nat.leb_le in H1. apply Nat.leb_le in H2.
  repeat (apply orb_false_iff; split).
  - apply andb_false_iff. right. apply Nat.leb_gt. lia.
  - apply andb_false_iff. right. apply Nat.leb_gt. lia.
  - apply Nat.eqb_neq. lia.
  - apply Nat.eqb_neq. lia.
Qed.

Lemma is_digit_neq (c d : ascii) :
  is_digit c = true -> is_digit d = false -> Ascii.eqb c d = false.
Proof.
  intros Hc Hd. apply Ascii.eqb_neq. intros ->. congruence.
Qed.

Lemma digits_free (c : ascii) (s : list ascii) :
  forallb is_digit s = true -> is_digit c = false -> ~ In c s.
Proof.
  intros Hs Hc Hi. rewrite forallb_forall in Hs.
  specialize (Hs c Hi). congruence.
Qed.

Lemma string_of_uint_digits (d : Decimal.uint) :
  forallb is_digit
    (String.list_ascii_of_string (DecimalString.NilEmpty.string_of_uint d))
  = true.
Proof. induction d; simpl; auto. Qed.

Lemma decimal_digits (n : N) : forallb is_digit (decimal n) = true.
Proof. apply string_of_uint_digits. Qed.

Lemma decimal_nonempty (n : N) : decimal n <> [].
Proof.
  unfold decimal. destruct n as [|p]; simpl; [discriminate|].
  pose proof (DecimalPos.Unsigned.to_uint_nonnil p) as H.
  destruct (Pos.to_uint p); [congruence | discriminate ..].
Qed.

Lemma pad2_digits (n : N) : forallb is_digit (pad2 n) = true.
Proof.
  unfold pad2. destruct (_ <? _)%nat; simpl; rewrite ?decimal_digits; reflexivity.
Qed.

Lemma pad2_nonempty (n : N) : pad2 n <> [].
Proof.
  unfold pad2. destruct (_ <? _)%nat; [discriminate | apply decimal_nonempty].
Qed.

Lemma read_digits_decimal (n : N) : read_digits (decimal n) = Some n.
Proof.
  unfold read_digits, decimal.
  rewrite String.string_of_list_ascii_of_string, DecimalString.NilEmpty.usu.
  simpl. rewrite DecimalN.Unsigned.of_to. reflexivity.
Qed.

Lemma read_digits_pad2 (n : N) : read_digits (pad2 n) = Some n.
Proof.
  unfold pad2. destruct (_ <? _)%nat; [|apply read_digits_decimal].
  pose proof (read_digits_decimal n) as H. unfold read_digits in *.
  simpl. destruct (DecimalString.NilEmpty.uint_of_string _); [|discriminate].
  simpl in *. exact H.
Qed.

Lemma pad2_inj (n m : N) : pad2 n = pad2 m -> n = m.
Proof.
  intros H. pose proof (read_digits_pad2 n) as Hn.
  rewrite H, read_digits_pad2 in Hn. congruence.
Qed.

Lemma underscores_ok_digits (s : list ascii) :
  forallb is_digit s = true -> underscores_ok true s = true.
Proof.
  induction s as [|c s IH]; intros H; simpl in *; [reflexivity|].
  apply andb_prop in H as [Hc Hs].
  rewrite (is_digit_neq c "_" Hc eq_refl). exact (IH Hs).
Qed.

Lemma digits_no_space (s : list ascii) :
  forallb is_digit s = true ->
  forallb (fun d => negb (is_space d)) s = true.
Proof.
  intros H. rewrite forallb_forall in *. intros c Hc.
  rewrite (is_digit_not_space c (H c Hc)). reflexivity.
Qed.

Lemma strip_digits (s : list ascii) :
  forallb is_digit s = true -> strip s = s.
Proof.
  intros H. apply strip_id.
  - destruct s as [|c s]; [reflexivity|]. simpl in H.
    apply andb_prop in H as [Hc _].
    apply lstrip_id, is_digit_not_space, Hc.
  - assert (Hr : forallb is_digit (rev s) = true).
    { rewrite forallb_forall in *. intros c Hc. apply H.
      apply in_rev. exact Hc. }
    destruct (rev s) as [|c r]; [reflexivity|]. simpl in Hr.
    apply andb_prop in Hr as [Hc _].
    apply lstrip_id, is_digit_not_space, Hc.
Qed.

Lemma py_int_decimal (n : N) : py_int (decimal n) = Some (Z.of_N n).
Proof.
  pose proof (decimal_digits n) as Hd.
  pose proof (decimal_nonempty n) as Hne.
  pose proof (read_digits_decimal n) as Hr.
  unfold py_int. rewrite (strip_digits _ Hd).
  destruct (decimal n) as [|c r] eqn:E; [congruence|].
  simpl in Hd. apply andb_prop in Hd as [Hc Hrest].
  rewrite (is_digit_neq c "-" Hc eq_refl), (is_digit_neq c "+" Hc eq_refl).
  assert (Hall : forallb (fun c => is_digit c || Ascii.eqb c "_") (c :: r) = true).
  { simpl. rewrite Hc. simpl. rewrite forallb_forall in *.
    intros d Hin. rewrite (Hrest d Hin). reflexivity. }
  rewrite Hall.
  assert (Hu : underscores_ok false (c :: r) = true).
  { simpl. rewrite (is_digit_neq c "_" Hc eq_refl).
    apply underscores_ok_digits, Hrest. }
  rewrite Hu. simpl andb. cbv iota.
  assert (Hf : List.filter (fun c => negb (Ascii.eqb c "_")) (c :: r) = c :: r).
  { apply forallb_filter_id. simpl.
    rewrite (is_digit_neq c "_" Hc eq_refl). simpl.
    rewrite forallb_forall in *. intros d Hin.
    rewrite (is_digit_neq d "_" (Hrest d Hin) eq_refl). reflexivity. }
  rewrite Hf. unfold read_digits in Hr.
  destruct (DecimalString.NilEmpty.uint_of_string _); [|discriminate].
  simpl in Hr. injection Hr as ->. reflexivity.
Qed.

Lemma str_int_nat (n : nat) : str_int (Z.of_nat n) = decimal (N.of_nat n).
Proof.
  unfold str_int. destruct (Z.ltb_spec (Z.of_nat n) 0); [lia|].
  f_equal. lia.
Qed.

Lemma find_sub_le (s sub : list ascii) (i : nat) :
  find_sub s sub = Some i -> (i <= length s)%nat.
Proof.
  revert i. induction s as [|c s IH]; intros i; rewrite find_sub_unfold.
  - destruct (startswith [] sub); intros H; [|discriminate].
    injection H as <-. simpl. lia.
  - destruct (startswith (c :: s) sub).
    + intros H. injection H as <-. lia.
    + destruct (find_sub s sub) as [j|]; [|discriminate].
      intros H. injection H as <-. specialize (IH j eq_refl). simpl. lia.
Qed.

(** The first occurrence of a separator of two different characters in a
    text that is followed by the separator. *)
Lemma find_sub_app_pair (a b : list ascii) (x y : ascii) :
  x <> y ->
  find_sub (a ++ x :: y :: b) [x; y]
  = Some (match find_sub a [x; y] with Some i => i | None => length a end).
Proof.
  intros Hxy. induction a as [|c a IH].
  - simpl. rewrite !Ascii.eqb_refl. reflexivity.
  - simpl app. rewrite (find_sub_unfold (c :: a ++ x :: y :: b)).
    rewrite (find_sub_unfold (c :: a)).
    destruct (startswith (c :: a) [x; y]) eqn:E.
    + assert (startswith (c :: a ++ x :: y :: b) [x; y] = true) as ->;
        [|reflexivity].
      simpl in *. destruct (Ascii.eqb c x); [|discriminate].
      destruct a as [|d a]; [discriminate|]. exact E.
    + assert (startswith (c :: a ++ x :: y :: b) [x; y] = false) as ->.
      { simpl in *. destruct (Ascii.eqb c x) eqn:Hc; [|reflexivity].
        simpl in *. destruct a as [|d a]; simpl in *.
        - apply Ascii.eqb_neq in Hxy. rewrite Hxy. reflexivity.
        - rewrite andb_true_r in *. exact E. }
      rewrite IH. destruct (find_sub a [x; y]); reflexivity.
Qed.

Lemma split_head_app_pair (a b : list ascii) (x y : ascii) :
  x <> y -> split_head (a ++ x :: y :: b) [x; y] = split_head a [x; y].
Proof.
  intros Hxy. unfold split_head. rewrite (find_sub_app_pair a b x y Hxy).
  destruct (find_sub a [x; y]) as [i|] eqn:E.
  - apply find_sub_le in E. rewrite take_app_le by exact E. reflexivity.
  - apply take_app_length.
Qed.

Lemma split_head_absent (s sub : list ascii) :
  contains s sub = false -> split_head s sub = s.
Proof.
  unfold contains, split_head.
  destruct (find_sub s sub); [discriminate | reflexivity].
Qed.

End TextFacts.

(** ** Paths *)

Section PathFacts.

Local Open Scope Z_scope.
Local Open Scope list_scope.

Lemma startswith_slash (b : list ascii) :
  ~ In "/"%char b -> startswith b (txt "/") = false.
Proof.
  destruct b as [|c b]; intros H; simpl; [reflexivity|].
  rewrite andb_true_r. apply Ascii.eqb_neq. intros ->. apply H. left. reflexivity.
Qed.

Lemma path_join_rel (a b : list ascii) :
  startswith b (txt "/") = false -> path_join a b = dir_prefix a ++ b.
Proof.
  intros H. unfold path_join, dir_prefix. rewrite H.
  destruct (match a with [] => true | _ => endswith a (txt "/") end);
    rewrite <- ?app_assoc; reflexivity.
Qed.

Lemma path_join_inj (a b b' : list ascii) :
  startswith b (txt "/") = false -> startswith b' (txt "/") = false ->
  path_join a b = path_join a b' -> b = b'.
Proof.
  intros H H'. rewrite !path_join_rel by assumption. apply app_inv_head.
Qed.

Lemma dir_prefix_shape (a : list ascii) :
  dir_prefix a = [] \/ exists r, dir_prefix a = r ++ ["/"%char].
Proof.
  unfold dir_prefix. destruct a as [|c a]; [left; reflexivity|].
  destruct (endswith (c :: a) (txt "/")) eqn:E.
  - right. unfold endswith in E. apply startswith_inv in E as [r E].
    exists (rev r). rewrite <- (rev_involutive (c :: a)), E. reflexivity.
  - right. exists (c :: a). reflexivity.
Qed.

Lemma basename_from_final (b cur : list ascii) :
  ~ In "/"%char b -> basename_from b cur = rev cur ++ b.
Proof.
  revert cur. induction b as [|c b IH]; intros cur H; simpl.
  - rewrite app_nil_r. reflexivity.
  - destruct (Ascii.eqb c "/") eqn:E.
    + apply Ascii.eqb_eq in E. exfalso. apply H. left. exact E.
    + rewrite IH by (intros Hi; apply H; right; exact Hi).
      simpl. rewrite <- app_assoc. reflexivity.
Qed.

Lemma basename_from_slash (a b cur : list ascii) :
  basename_from (a ++ "/"%char :: b) cur = basename_from b [].
Proof.
  revert cur. induction a as [|c a IH]; intros cur; simpl.
  - reflexivity.
  - destruct (Ascii.eqb c "/"); apply IH.
Qed.

Lemma basename_under (d b : list ascii) :
  ~ In "/"%char b -> basename (dir_prefix d ++ b) = b.
Proof.
  intros H. unfold basename.
  destruct (dir_prefix_shape d) as [-> | [r ->]].
  - simpl. apply (basename_from_final b [] H).
  - rewrite <- app_assoc. simpl. rewrite basename_from_slash.
    apply (basename_from_final b [] H).
Qed.

Lemma basename_from_no_slash (p cur : list ascii) :
  ~ In "/"%char cur -> ~ In "/"%char (basename_from p cur).
Proof.
  revert cur. induction p as [|c p IH]; intros cur H; simpl.
  - rewrite <- in_rev. exact H.
  - destruct (Ascii.eqb c "/") eqn:E.
    + apply IH. intros [].
    + apply IH. intros [Hc | Hi]; [|exact (H Hi)].
      apply Ascii.eqb_neq in E. congruence.
Qed.

Lemma basename_no_slash (p : list ascii) : ~ In "/"%char (basename p).
Proof. apply basename_from_no_slash. intros []. Qed.

Lemma rfind_from_spec (c : ascii) (p : list ascii) (i last : Z) :
  rfind_from c p i last = last
  \/ exists k : nat,
       rfind_from c p i last = i + Z.of_nat k /\ p !! k = Some c.
Proof.
  revert i last. induction p as [|d p IH]; intros i last; simpl.
  - left. reflexivity.
  - destruct (IH (i + 1) (if Ascii.eqb d c then i else last))
      as [H | (k & H & Hk)].
    + rewrite H. destruct (Ascii.eqb d c) eqn:E; [|left; reflexivity].
      right. exists O. apply Ascii.eqb_eq in E. subst d.
      split; [lia | reflexivity].
    + right. exists (S k). split; [lia | exact Hk].
Qed.

(** [os.path.splitext] cuts the name in two; the second part is empty or
    starts with a dot. *)
Lemma splitext_spec (p : list ascii) :
  p = (splitext p).1 ++ (splitext p).2
  /\ ((splitext p).2 = [] \/ exists e, (splitext p).2 = "."%char :: e).
Proof.
  unfold splitext.
  destruct (_ && _) eqn:E; simpl; [|rewrite app_nil_r; auto].
  split; [symmetry; apply take_drop|].
  right. apply andb_prop in E as [E _]. apply Z.ltb_lt in E.
  unfold rfind in *.
  destruct (rfind_from_spec "." p 0 (-1)) as [H | (k & H & Hk)].
  - pose proof (rfind_from_spec "/" p 0 (-1)) as [H' | (k' & H' & _)]; lia.
  - rewrite H. replace (Z.to_nat (0 + Z.of_nat k)) with k by lia.
    apply list_elem_of_split_length in Hk as (l1 & l2 & -> & ->).
    rewrite drop_app_length. exists l2. reflexivity.
Qed.

Lemma splitext_prefix (p : list ascii) (c : ascii) :
  ~ In c p -> ~ In c (splitext p).1.
Proof.
  intros H Hi. apply H. rewrite (proj1 (splitext_spec p)).
  apply in_or_app. left. exact Hi.
Qed.

Lemma splitext_contains (p sub : list ascii) :
  contains p sub = false -> contains (splitext p).1 sub = false.
Proof.
  intros H. destruct (contains (splitext p).1 sub) eqn:E; [|reflexivity].
  apply contains_inv in E as (a & b & E).
  rewrite (proj1 (splitext_spec p)), E, <- !app_assoc, contains_intro in H.
  discriminate.
Qed.

(** ** Chunk names *)

Lemma chunk_filename_inj (base_name : list ascii) (i j : nat) :
  chunk_filename base_name i = chunk_filename base_name j -> i = j.
Proof.
  unfold chunk_filename. intros H.
  apply app_inv_head in H. apply app_inv_head in H.
  apply app_inv_tail in H. apply pad2_inj in H. lia.
Qed.

Lemma chunk_filename_no_slash (base_name : list ascii) (k : nat) :
  ~ In "/"%char base_name -> ~ In "/"%char (chunk_filename base_name k).
Proof.
  intros H Hi. unfold chunk_filename in Hi.
  apply in_app_or in Hi as [Hi | Hi]; [exact (H Hi)|].
  apply in_app_or in Hi as [Hi | Hi];
    [simpl in Hi; repeat destruct Hi as [Hi | Hi]; solve [discriminate | destruct Hi]|].
  apply in_app_or in Hi as [Hi | Hi].
  - exact (digits_free "/"%char _ (pad2_digits _) eq_refl Hi).
  - simpl in Hi. repeat destruct Hi as [Hi | Hi]; solve [discriminate | destruct Hi].
Qed.

Lemma chunk_path_inj (output_dir base_name : list ascii) (i j : nat) :
  ~ In "/"%char base_name ->
  path_join output_dir (chunk_filename base_name i)
  = path_join output_dir (chunk_filename base_name j) -> i = j.
Proof.
  intros Hb H. apply path_join_inj in H;
    try (apply startswith_slash, chunk_filename_no_slash, Hb).
  apply chunk_filename_inj in H. exact H.
Qed.

Lemma manifest_name_no_slash (base_name : list ascii) :
  ~ In "/"%char base_name ->
  ~ In "/"%char (base_name ++ txt "_manifest.txt").
Proof.
  intros H Hi. apply in_app_or in Hi as [Hi | Hi]; [exact (H Hi)|].
  simpl in Hi. repeat destruct Hi as [Hi | Hi]; solve [discriminate | destruct Hi].
Qed.

Lemma manifest_path_fresh (output_dir base_name : list ascii) (k : nat) :
  ~ In "/"%char base_name ->
  path_join output_dir (base_name ++ txt "_manifest.txt")
  <> path_join output_dir (chunk_filename base_name k).
Proof.
  intros Hb H. apply path_join_inj in H.
  - unfold chunk_filename in H. apply app_inv_head in H. discriminate.
  - apply startswith_slash, manifest_name_no_slash, Hb.
  - apply startswith_slash, chunk_filename_no_slash, Hb.
Qed.

(** ** The loops of [split_file] *)

Lemma write_chunk_spec (chunk_size_bytes : Z) (fuel : nat) :
  forall (infile outfile : list ascii) (bytes_written : Z),
    (length infile < fuel)%nat ->
    write_chunk fuel chunk_size_bytes infile outfile bytes_written
    = (drop (Z.to_nat (chunk_size_bytes - bytes_written)) infile,
       outfile ++ take (Z.to_nat (chunk_size_bytes - bytes_written)) infile).
Proof.
  induction fuel as [|fuel IH]; intros infile outfile w Hfuel; [lia|].
  simpl. destruct (Z.ltb_spec w chunk_size_bytes) as [Hw | Hw].
  2:{ replace (Z.to_nat (chunk_size_bytes - w)) with O by lia.
      simpl. rewrite app_nil_r. reflexivity. }
  set (b := Z.to_nat (Z.min 8192 (chunk_size_bytes - w))).
  set (k := Z.to_nat (chunk_size_bytes - w)).
  assert (Hb : (0 < b <= k)%nat) by lia.
  destruct (take b infile) as [|c block] eqn:Eb.
  - assert (infile = []) as ->.
    { destruct infile; [reflexivity|]. destruct b; [lia | discriminate]. }
    rewrite !drop_nil, !take_nil, app_nil_r. reflexivity.
  - rewrite <- Eb.
    assert (Hlen : (length (drop b infile) < fuel)%nat).
    { rewrite length_drop. destruct infile; [destruct b; discriminate|].
      simpl in *. lia. }
    rewrite (IH _ _ _ Hlen). rewrite length_take.
    destruct (Nat.le_gt_cases b (length infile)) as [Hle | Hgt].
    + replace (Z.to_nat (chunk_size_bytes - (w + Z.of_nat (b `min` length infile))))
        with (k - b)%nat by lia.
      rewrite drop_drop, <- app_assoc, take_take_drop.
      replace (b + (k - b))%nat with k by lia. reflexivity.
    + rewrite (drop_ge infile b) by lia. rewrite (take_ge infile b) by lia.
      rewrite !drop_nil, !take_nil, app_nil_r.
      rewrite (drop_ge infile k) by lia. rewrite (take_ge infile k) by lia.
      reflexivity.
Qed.

Lemma split_loop_cons (chunk_num : nat) (rest : list nat)
    (output_dir base_name : list ascii) (chunk_size_bytes : Z)
    (infile : list ascii) (chunk_files : list (list ascii))
    (fs : gmap (list ascii) (list ascii)) :
  split_loop (chunk_num :: rest) output_dir base_name chunk_size_bytes infile
    chunk_files fs
  = let '(infile', outfile) :=
      write_chunk (S (length infile)) chunk_size_bytes infile [] 0 in
    split_loop rest output_dir base_name chunk_size_bytes infile'
      (chunk_files ++ [chunk_filename base_name chunk_num])
      (<[path_join output_dir (chunk_filename base_name chunk_num) := outfile]> fs).
Proof. reflexivity. Qed.

Lemma split_loop_spec (output_dir base_name : list ascii) (chunk_size_bytes : Z)
    (data : list ascii) (n : nat) :
  ~ In "/"%char base_name ->
  forall (k : nat) (acc : list (list ascii)) (fs : gmap (list ascii) (list ascii)),
  exists fs',
    split_loop (seq k n) output_dir base_name chunk_size_bytes
      (drop (k * Z.to_nat chunk_size_bytes) data) acc fs
    = (acc ++ map (chunk_filename base_name) (seq k n), fs')
    /\ (forall j, (k <= j < k + n)%nat ->
          fs' !! path_join output_dir (chunk_filename base_name j)
          = Some (take (Z.to_nat chunk_size_bytes)
                    (drop (j * Z.to_nat chunk_size_bytes) data)))
    /\ (forall p,
          (forall j, (k <= j < k + n)%nat ->
             p <> path_join output_dir (chunk_filename base_name j)) ->
          fs' !! p = fs !! p).
Proof.
  intros Hb. induction n as [|n IH]; intros k acc fs.
  - exists fs. simpl. rewrite app_nil_r.
    split; [reflexivity|]. split; [intros j Hj; lia | reflexivity].
  - simpl seq. rewrite split_loop_cons.
    rewrite write_chunk_spec by lia. rewrite Z.sub_0_r, drop_drop.
    replace (k * Z.to_nat chunk_size_bytes + Z.to_nat chunk_size_bytes)%nat
      with (S k * Z.to_nat chunk_size_bytes)%nat by lia.
    destruct (IH (S k) (acc ++ [chunk_filename base_name k])
                (<[path_join output_dir (chunk_filename base_name k)
                   := [] ++ take (Z.to_nat chunk_size_bytes)
                              (drop (k * Z.to_nat chunk_size_bytes) data)]> fs))
      as (fs' & Hrun & Hin & Hout).
    exists fs'. split; [|split].
    + rewrite Hrun. simpl. rewrite <- app_assoc. reflexivity.
    + intros j Hj. destruct (decide (j = k)) as [-> | Hne].
      * rewrite Hout.
        -- rewrite lookup_insert_eq. reflexivity.
        -- intros j Hj' Heq. apply (chunk_path_inj _ _ _ _ Hb) in Heq. lia.
      * apply Hin. lia.
    + intros p Hp. rewrite Hout.
      * rewrite lookup_insert_ne; [reflexivity|].
        intros Heq. apply (Hp k); [lia | symmetry; exact Heq].
      * intros j Hj. apply Hp. lia.
Qed.

(** ** Chunks *)

Lemma ceil_div_bounds (a b : Z) :
  0 < b -> ceil_div a b * b >= a /\ (ceil_div a b - 1) * b < a.
Proof.
  intros Hb. unfold ceil_div.
  pose proof (Z.mul_div_le (- a) b Hb).
  pose proof (Z.mul_succ_div_gt (- a) b Hb). nia.
Qed.

Lemma concat_chunks (c : nat) (data : list ascii) (n : nat) :
  concat (map (fun j => take c (drop (j * c) data)) (seq 0 n))
  = take (n * c) data.
Proof.
  induction n as [|n IH].
  - reflexivity.
  - rewrite seq_S, map_app, concat_app, IH. simpl.
    rewrite app_nil_r, take_take_drop. f_equal. lia.
Qed.

End PathFacts.

(** ** [split_file] *)

Section SplitFacts.

Local Open Scope Z_scope.
Local Open Scope list_scope.

Lemma manifest_chunk_lines_done (fs : gmap (list ascii) (list ascii))
    (output_dir : list ascii) (chunk_files : list (list ascii)) :
  Forall (fun name => is_Some (fs !! path_join output_dir name)) chunk_files ->
  forall i, exists lines,
    manifest_chunk_lines fs output_dir i chunk_files = Done lines.
Proof.
  induction 1 as [|name rest [content Hc] _ IH]; intros i; simpl.
  - exists []. reflexivity.
  - unfold manifest_chunk_line. rewrite Hc.
    destruct (IH (S i)) as [lines ->]. eexists. reflexivity.
Qed.

(** What [split_file] returns and leaves behind, for a chunk size above 0. *)
Lemma split_file_result (fs : gmap (list ascii) (list ascii))
    (input_file output_dir : list ascii) (chunk_size_mb : Z) (data : list ascii) :
  fs !! input_file = Some data -> 0 < chunk_size_mb ->
  let c := Z.to_nat (chunk_size_mb * 1024 * 1024) in
  let base_name := (splitext (basename input_file)).1 in
  let num_chunks :=
    ceil_div (Z.of_nat (length data)) (chunk_size_mb * 1024 * 1024) in
  let names := map (chunk_filename base_name) (seq 0 (Z.to_nat num_chunks)) in
  let manifest_path := path_join output_dir (base_name ++ txt "_manifest.txt") in
  exists fs' fs1 lines,
    split_file fs input_file output_dir chunk_size_mb
    = Done (names, manifest_path, fs')
    /\ (forall j, (j < Z.to_nat num_chunks)%nat ->
          fs' !! path_join output_dir (chunk_filename base_name j)
          = Some (take c (drop (j * c) data)))
    /\ manifest_chunk_lines fs1 output_dir 1 names = Done lines
    /\ fs' !! manifest_path
       = Some (manifest_head (basename input_file) (Z.of_nat (length data))
                 num_chunks ++ lines)
    /\ (forall p,
          p <> manifest_path ->
          (forall j, (j < Z.to_nat num_chunks)%nat ->
             p <> path_join output_dir (chunk_filename base_name j)) ->
          fs' !! p = fs !! p).
Proof.
  intros Hdata Hmb c base_name num_chunks names manifest_path.
  assert (Hb : ~ In "/"%char base_name).
  { apply splitext_prefix, basename_no_slash. }
  destruct (split_loop_spec output_dir base_name (chunk_size_mb * 1024 * 1024)
              data (Z.to_nat num_chunks) Hb 0 [] fs) as (fs1 & Hrun & Hin & Hout).
  simpl in Hrun. change (drop 0 data) with data in Hrun. fold c in Hin.
  set (fs2 := <[manifest_path := []]> fs1).
  assert (Hex : Forall (fun name => is_Some (fs2 !! path_join output_dir name)) names).
  { apply Forall_forall. intros name Hname. unfold names in Hname.
    apply list_elem_of_In in Hname. apply in_map_iff in Hname as (j & <- & Hj). apply in_seq in Hj.
    unfold fs2. rewrite lookup_insert_ne
      by (apply manifest_path_fresh, Hb).
    rewrite Hin by lia. eexists. reflexivity. }
  destruct (manifest_chunk_lines_done fs2 output_dir names Hex 1%nat)
    as [lines Hlines].
  exists (<[manifest_path
            := manifest_head (basename input_file) (Z.of_nat (length data))
                 num_chunks ++ lines]> fs2), fs2, lines.
  split; [|split; [|split; [|split]]].
  - unfold split_file. rewrite Hdata.
    destruct (Z.eqb_spec (chunk_size_mb * 1024 * 1024) 0) as [H0 | _]; [lia|].
    unfold py_range. fold base_name. fold num_chunks. rewrite Hrun.
    fold manifest_path. fold fs2. fold names. rewrite Hlines. reflexivity.
  - intros j Hj. rewrite lookup_insert_ne by (apply manifest_path_fresh, Hb).
    unfold fs2. rewrite lookup_insert_ne by (apply manifest_path_fresh, Hb).
    apply Hin. lia.
  - exact Hlines.
  - apply lookup_insert_eq.
  - intros p Hp Hj. rewrite lookup_insert_ne by congruence.
    unfold fs2. rewrite lookup_insert_ne by congruence.
    apply Hout. intros j Hr. apply Hj. lia.
Qed.

End SplitFacts.


Section SplitProperties.

Local Open Scope Z_scope.
Local Open Scope list_scope.

Lemma Forall2_map_both {A B C : Type} (P : B -> C -> Prop) (f : A -> B)
    (g : A -> C) (l : list A) :
  (forall x, In x l -> P (f x) (g x)) -> Forall2 P (map f l) (map g l).
Proof.
  induction l as [|x l IH]; intros H; simpl; constructor.
  - apply H. left. reflexivity.
  - apply IH. intros y Hy. apply H. right. exact Hy.
Qed.

Lemma NoDup_map_inj {A B : Type} (f : A -> B) (l : list A) :
  (forall x y, f x = f y -> x = y) -> List.NoDup l -> List.NoDup (map f l).
Proof.
  intros Hf. induction 1 as [|x l Hx _ IH]; simpl; constructor; [|exact IH].
  intros Hi. apply in_map_iff in Hi as (y & Hy & Hin).
  apply Hf in Hy. subst y. exact (Hx Hin).
Qed.

(** Neither a chunk nor the manifest has the path of the input file. *)
Lemma input_file_fresh (input_file output_dir suffix : list ascii) (c : ascii) :
  c <> "."%char -> ~ In "/"%char (c :: suffix) ->
  input_file
  <> path_join output_dir ((splitext (basename input_file)).1 ++ c :: suffix).
Proof.
  intros Hc Hs Heq.
  assert (Hb : ~ In "/"%char (splitext (basename input_file)).1).
  { apply splitext_prefix, basename_no_slash. }
  assert (Hn : ~ In "/"%char ((splitext (basename input_file)).1 ++ c :: suffix)).
  { intros Hi. apply in_app_or in Hi as [Hi | Hi]; [exact (Hb Hi) | exact (Hs Hi)]. }
  rewrite path_join_rel in Heq by (apply startswith_slash, Hn).
  pose proof (basename_under output_dir _ Hn) as Hbase.
  rewrite <- Heq in Hbase.
  destruct (splitext_spec (basename input_file)) as [Hsplit Hext].
  rewrite Hsplit in Hbase at 1. apply app_inv_head in Hbase.
  destruct Hext as [E | [e E]]; rewrite E in Hbase; congruence.
Qed.

(** X16: for a chunk size above 0, [split_file] cuts the input into
    ceil(size / chunk size) chunk files with different names; read in the
    order returned, the chunks give the input back; no chunk is empty or
    above the chunk size, and every chunk but the last is full. *)
Theorem split_file_chunks (fs : gmap (list ascii) (list ascii))
    (input_file output_dir : list ascii) (chunk_size_mb : Z) (data : list ascii) :
  fs !! input_file = Some data -> 0 < chunk_size_mb ->
  exists chunk_files manifest_path fs' chunks,
    split_file fs input_file output_dir chunk_size_mb
    = Done (chunk_files, manifest_path, fs')
    /\ Forall2 (fun name chunk => fs' !! path_join output_dir name = Some chunk)
         chunk_files chunks
    /\ List.NoDup chunk_files
    /\ concat chunks = data
    /\ Z.of_nat (length chunks)
       = ceil_div (Z.of_nat (length data)) (chunk_size_mb * 1024 * 1024)
    /\ Forall (fun chunk =>
                 0 < Z.of_nat (length chunk) <= chunk_size_mb * 1024 * 1024)
         chunks
    /\ (forall i chunk,
          chunks !! i = Some chunk -> (S i < length chunks)%nat ->
          Z.of_nat (length chunk) = chunk_size_mb * 1024 * 1024).
Proof.
  intros Hdata Hmb.
  destruct (split_file_result fs input_file output_dir chunk_size_mb data
              Hdata Hmb) as (fs' & fs1 & lines & Hrun & Hin & _ & _ & _).
  set (C := chunk_size_mb * 1024 * 1024) in *.
  set (c := Z.to_nat C) in *.
  set (num_chunks := ceil_div (Z.of_nat (length data)) C) in *.
  set (n := Z.to_nat num_chunks) in *.
  assert (HC : 0 < C) by (unfold C; lia).
  destruct (ceil_div_bounds (Z.of_nat (length data)) C HC) as [Hup Hlow].
  fold num_chunks in Hup, Hlow.
  assert (Hn : Z.of_nat n = num_chunks) by (unfold n; nia).
  assert (Hc : Z.of_nat c = C) by (unfold c; lia).
  exists (map (chunk_filename (splitext (basename input_file)).1) (seq 0 n)),
    (path_join output_dir
       ((splitext (basename input_file)).1 ++ txt "_manifest.txt")),
    fs', (map (fun j => take c (drop (j * c) data)) (seq 0 n)).
  split; [exact Hrun|]. split; [|split; [|split; [|split; [|split]]]].
  - apply Forall2_map_both. intros j Hj. apply in_seq in Hj.
    apply Hin. lia.
  - apply NoDup_map_inj; [apply chunk_filename_inj | apply seq_NoDup].
  - rewrite concat_chunks. apply take_ge. nia.
  - rewrite length_map, length_seq. exact Hn.
  - apply List.Forall_forall. intros chunk Hchunk.
    apply in_map_iff in Hchunk as (j & <- & Hj). apply in_seq in Hj.
    rewrite length_take, length_drop. nia.
  - intros i chunk Hi Hlast. rewrite length_map, length_seq in Hlast.
    rewrite list_lookup_fmap in Hi.
    rewrite lookup_seq_lt in Hi by lia. simpl in Hi. injection Hi as <-.
    rewrite length_take, length_drop. nia.
Qed.

(** X17: [split_file] writes the chunk files and the manifest and nothing
    else: the input file keeps its content, whatever its name and directory,
    and so does every other file. *)
Theorem split_file_frame (fs : gmap (list ascii) (list ascii))
    (input_file output_dir : list ascii) (chunk_size_mb : Z) (data : list ascii) :
  fs !! input_file = Some data -> 0 < chunk_size_mb ->
  exists chunk_files manifest_path fs',
    split_file fs input_file output_dir chunk_size_mb
    = Done (chunk_files, manifest_path, fs')
    /\ fs' !! input_file = Some data
    /\ (forall p,
          p <> manifest_path ->
          ~ In p (map (path_join output_dir) chunk_files) ->
          fs' !! p = fs !! p).
Proof.
  intros Hdata Hmb.
  destruct (split_file_result fs input_file output_dir chunk_size_mb data
              Hdata Hmb) as (fs' & fs1 & lines & Hrun & _ & _ & _ & Hout).
  eexists _, _, fs'. split; [exact Hrun|].
  assert (Hframe : forall p,
    p <> path_join output_dir
           ((splitext (basename input_file)).1 ++ txt "_manifest.txt") ->
    ~ In p (map (path_join output_dir)
              (map (chunk_filename (splitext (basename input_file)).1)
                 (seq 0 (Z.to_nat (ceil_div (Z.of_nat (length data))
                                     (chunk_size_mb * 1024 * 1024)))))) ->
    fs' !! p = fs !! p).
  { intros p Hp Hnot. apply Hout; [exact Hp|].
    intros j Hj Heq. apply Hnot. apply in_map_iff.
    eexists. split; [symmetry; exact Heq|].
    apply in_map_iff. exists j. split; [reflexivity|].
    apply in_seq. lia. }
  split; [|exact Hframe].
  rewrite Hframe; [exact Hdata | |].
  - apply (input_file_fresh input_file output_dir (txt "manifest.txt") "_");
      [discriminate|].
    simpl. intros Hi. repeat destruct Hi as [Hi | Hi];
      solve [discriminate | destruct Hi].
  - intros Hi. apply in_map_iff in Hi as (name & Heq & Hname).
    apply in_map_iff in Hname as (j & <- & _).
    symmetry in Heq. revert Heq. unfold chunk_filename.
    apply (input_file_fresh input_file output_dir
             (txt "part_" ++ pad2 (N.of_nat (j + 1)) ++ txt ".chunk") "_");
      [discriminate|].
    intros Hi. apply (chunk_filename_no_slash [] j); [intros []|].
    exact Hi.
Qed.


(** X27: a chunk size below 0 is not refused. For an input file that is
    there, [split_file] then writes no chunk: it returns no chunk name, and
    the manifest, with its four opening lines and no chunk line, is the
    only file written, the output directory being one that can be made. *)
Theorem split_file_negative_chunk_size (fs : gmap (list ascii) (list ascii))
    (input_file output_dir : list ascii) (chunk_size_mb : Z)
    (data : list ascii) :
  fs !! input_file = Some data -> chunk_size_mb < 0 ->
  let manifest_path :=
    path_join output_dir
      ((splitext (basename input_file)).1 ++ txt "_manifest.txt") in
  split_file fs input_file output_dir chunk_size_mb
  = Done ([], manifest_path,
          <[manifest_path
            := manifest_head (basename input_file)
                 (Z.of_nat (length data))
                 (ceil_div (Z.of_nat (length data))
                    (chunk_size_mb * 1024 * 1024))]> fs).
Proof.
  intros Hdata Hneg manifest_path. unfold split_file. rewrite Hdata.
  destruct (Z.eqb_spec (chunk_size_mb * 1024 * 1024) 0) as [H0 | _]; [lia|].
  assert (Hnum : Z.to_nat (ceil_div (Z.of_nat (length data))
                             (chunk_size_mb * 1024 * 1024)) = O).
  { unfold ceil_div.
    pose proof (Z.div_pos (Z.of_nat (length data))
                  (- (chunk_size_mb * 1024 * 1024))) as Hd.
    rewrite <- (Z.div_opp_opp (- Z.of_nat (length data))
                  (chunk_size_mb * 1024 * 1024)) by lia.
    rewrite Z.opp_involutive. lia. }
  unfold py_range. rewrite Hnum.
  cbn [seq split_loop manifest_chunk_lines].
  fold manifest_path. rewrite app_nil_r, insert_insert_eq. reflexivity.
Qed.

End SplitProperties.

(** ** Reading a manifest *)

Section ManifestFacts.

Local Open Scope Z_scope.
Local Open Scope list_scope.

Lemma lines_keepends_cons (line l rest : list ascii) :
  line = l ++ ["010"%char] -> ~ In "010"%char l ->
  lines_keepends (line ++ rest) [] = line :: lines_keepends rest [].
Proof.
  intros -> H. rewrite <- app_assoc. simpl app.
  rewrite lines_keepends_line by exact H. reflexivity.
Qed.

Lemma strip_two_spaces (r : list ascii) : strip (txt "  " ++ r) = strip r.
Proof. reflexivity. Qed.

Lemma strip_id_ends (s s' : list ascii) (c : ascii) :
  lstrip s = s -> s = s' ++ [c] -> is_space c = false -> strip s = s.
Proof.
  intros H1 H2 Hc. apply strip_id; [exact H1|].
  rewrite H2, rev_unit. apply lstrip_id, Hc.
Qed.

Lemma app_assoc4 {A : Type} (l1 l2 l3 l4 t : list A) :
  (l1 ++ l2 ++ l3 ++ l4) ++ t = l1 ++ l2 ++ l3 ++ l4 ++ t.
Proof. rewrite <- !app_assoc. reflexivity. Qed.

Lemma parse_manifest_cons (line : list ascii) (rest : list (list ascii))
    (info : manifest_info) :
  parse_manifest (line :: rest) info
  = if startswith line (txt "Original file:") then
      match after_colon line with
      | Fails e => Fails e
      | Done x =>
          parse_manifest rest
            {| chunk_files := chunk_files info;
               original_filename := Some (strip x);
               original_size := original_size info |}
      end
    else if startswith line (txt "Original size:") then
      match after_colon line with
      | Fails e => Fails e
      | Done x =>
          match first_token x with
          | None => Fails (Py IndexError)
          | Some tok =>
              match py_int tok with
              | None => Fails (Py ValueError)
              | Some n =>
                  parse_manifest rest
                    {| chunk_files := chunk_files info;
                       original_filename := original_filename info;
                       original_size := Some n |}
              end
          end
      end
    else if startswith line (txt "  ") && contains line (txt ".chunk") then
      match parse_chunk_filename line with
      | Some chunk_filename =>
          parse_manifest rest
            {| chunk_files := chunk_files info ++ [chunk_filename];
               original_filename := original_filename info;
               original_size := original_size info |}
      | None => parse_manifest rest info
      end
    else parse_manifest rest info.
Proof. reflexivity. Qed.

Lemma manifest_chunk_names_cons (line : list ascii) (rest : list (list ascii)) :
  manifest_chunk_names (line :: rest)
  = if startswith line (txt "  ") && contains line (txt ".chunk") then
      match parse_chunk_filename line with
      | Some chunk_filename => chunk_filename :: manifest_chunk_names rest
      | None => manifest_chunk_names rest
      end
    else manifest_chunk_names rest.
Proof. reflexivity. Qed.

(** The two readers of the manifest find the same chunk names. *)
Lemma parse_manifest_names (lines : list (list ascii)) :
  forall info info',
    parse_manifest lines info = Done info' ->
    chunk_files info' = chunk_files info ++ manifest_chunk_names lines.
Proof.
  induction lines as [|line rest IH]; intros info info' H.
  - simpl in *. injection H as <-. rewrite app_nil_r. reflexivity.
  - rewrite parse_manifest_cons in H. rewrite manifest_chunk_names_cons.
    destruct (startswith line (txt "Original file:")) eqn:E1.
    { apply startswith_inv in E1 as [r ->].
      change (startswith (txt "Original file:" ++ r) (txt "  ")) with false.
      simpl andb. cbv iota.
      destruct (after_colon _); [|discriminate].
      apply IH in H. exact H. }
    destruct (startswith line (txt "Original size:")) eqn:E2.
    { apply startswith_inv in E2 as [r ->].
      change (startswith (txt "Original size:" ++ r) (txt "  ")) with false.
      simpl andb. cbv iota.
      destruct (after_colon _); [|discriminate].
      destruct (first_token _); [|discriminate].
      destruct (py_int _); [|discriminate].
      apply IH in H. exact H. }
    destruct (startswith line (txt "  ") && contains line (txt ".chunk")).
    + destruct (parse_chunk_filename line).
      * apply IH in H. simpl in H. rewrite <- app_assoc in H. exact H.
      * apply IH in H. exact H.
    + apply IH in H. exact H.
Qed.


(** What can go wrong while the manifest is read. *)
Lemma parse_manifest_errors (lines : list (list ascii)) :
  forall info e,
    parse_manifest lines info = Fails e ->
    e = Py IndexError \/ e = Py ValueError.
Proof.
  induction lines as [|line rest IH]; intros info e H.
  - discriminate.
  - rewrite parse_manifest_cons in H.
    destruct (startswith line (txt "Original file:")).
    { unfold after_colon in *.
      destruct (split1 line (txt ": ")) as [|? [|? [|? ?]]];
        try (injection H as <-; left; reflexivity).
      exact (IH _ _ H). }
    destruct (startswith line (txt "Original size:")).
    { unfold after_colon in *.
      destruct (split1 line (txt ": ")) as [|? [|? [|? ?]]];
        try (injection H as <-; left; reflexivity).
      destruct (first_token _); [|injection H as <-; left; reflexivity].
      destruct (py_int _); [|injection H as <-; right; reflexivity].
      exact (IH _ _ H). }
    destruct (startswith line (txt "  ") && contains line (txt ".chunk")).
    + destruct (parse_chunk_filename line); exact (IH _ _ H).
    + exact (IH _ _ H).
Qed.

(** What is read from the line of a chunk whose name ends in [".chunk"]:
    the name up to its first [" ("]. *)
Lemma parse_chunk_line (i : nat) (name : list ascii) (size : nat) :
  (exists a, name = a ++ txt ".chunk") ->
  let line := chunk_line i name size ++ ["010"%char] in
  startswith line (txt "Original file:") = false
  /\ startswith line (txt "Original size:") = false
  /\ startswith line (txt "  ") && contains line (txt ".chunk") = true
  /\ parse_chunk_filename line = Some (split_head name (txt " (")).
Proof.
  intros [a Ha] line.
  split; [reflexivity|]. split; [reflexivity|]. split.
  - apply andb_true_intro. split; [reflexivity|].
    unfold line, chunk_line. rewrite Ha.
    replace ((txt "  " ++ pad2 (N.of_nat i) ++ txt ". " ++ (a ++ txt ".chunk")
              ++ txt " (" ++ decimal (N.of_nat size) ++ txt " bytes)")
             ++ ["010"%char])
      with ((txt "  " ++ pad2 (N.of_nat i) ++ txt ". " ++ a) ++ txt ".chunk"
            ++ (txt " (" ++ decimal (N.of_nat size) ++ txt " bytes)"
                ++ ["010"%char]))
      by (rewrite <- !app_assoc; reflexivity).
    apply contains_intro.
  - unfold parse_chunk_filename.
    assert (Hstrip : strip line
                     = pad2 (N.of_nat i) ++ "."%char :: " "%char ::
                       (name ++ " "%char :: "("%char ::
                        (decimal (N.of_nat size) ++ txt " bytes)"))).
    { change (strip line
              = pad2 (N.of_nat i) ++ txt ". " ++ name ++ txt " ("
                ++ decimal (N.of_nat size) ++ txt " bytes)").
      unfold line. rewrite strip_app_space by reflexivity.
      unfold chunk_line. rewrite strip_two_spaces.
      apply (strip_id_ends _
               (pad2 (N.of_nat i) ++ txt ". " ++ name ++ txt " ("
                ++ decimal (N.of_nat size) ++ txt " bytes") ")").
      - pose proof (pad2_digits (N.of_nat i)) as Hd.
        pose proof (pad2_nonempty (N.of_nat i)) as Hne.
        destruct (pad2 (N.of_nat i)) as [|d ds]; [congruence|].
        simpl in Hd. apply andb_prop in Hd as [Hd _].
        simpl app. apply lstrip_id, is_digit_not_space, Hd.
      - rewrite <- !app_assoc. reflexivity.
      - reflexivity. }
    rewrite Hstrip. unfold split1.
    change (txt ". ") with ["."%char; " "%char].
    change (txt " (") with [" "%char; "("%char] in *.
    rewrite (find_sub_pair (pad2 (N.of_nat i)) _ "." " ");
      [|discriminate|].
    2:{ apply contains_absent.
        apply (digits_free "."%char _ (pad2_digits _) eq_refl). }
    change (length ["."%char; " "%char]) with 2%nat.
    rewrite drop_app_add.
    change (drop 2 ("."%char :: " "%char :: ?r)) with r.
    rewrite (split_head_app_pair name _ " " "(") by discriminate.
    reflexivity.
Qed.

Lemma literal_free (c : ascii) (s : string) :
  forallb (fun d => negb (Ascii.eqb d c)) (txt s) = true -> ~ In c (txt s).
Proof.
  intros H Hi. rewrite forallb_forall in H. specialize (H c Hi).
  rewrite Ascii.eqb_refl in H. discriminate.
Qed.

Lemma str_int_free (c : ascii) (n : Z) :
  is_digit c = false -> c <> "-"%char -> ~ In c (str_int n).
Proof.
  intros Hc Hm. unfold str_int. destruct (n <? 0).
  - intros [Hi | Hi]; [congruence|].
    exact (digits_free c _ (decimal_digits _) Hc Hi).
  - exact (digits_free c _ (decimal_digits _) Hc).
Qed.

Lemma chunk_line_free (c : ascii) (i : nat) (name : list ascii) (size : nat) :
  is_digit c = false ->
  forallb (fun d => negb (Ascii.eqb d c)) (txt "  .  ( bytes)") = true ->
  ~ In c name -> ~ In c (chunk_line i name size).
Proof.
  intros Hc Hlit Hname Hi. unfold chunk_line in Hi.
  rewrite forallb_forall in Hlit.
  assert (Hl : forall d, In d (txt "  .  ( bytes)") -> d <> c).
  { intros d Hd ->. specialize (Hlit c Hd).
    rewrite Ascii.eqb_refl in Hlit. discriminate. }
  repeat (apply in_app_or in Hi as [Hi | Hi]).
  - apply (Hl c); [|reflexivity]. simpl in *. tauto.
  - exact (digits_free c _ (pad2_digits _) Hc Hi).
  - apply (Hl c); [|reflexivity]. simpl in *. tauto.
  - exact (Hname Hi).
  - apply (Hl c); [|reflexivity]. simpl in *. tauto.
  - exact (digits_free c _ (decimal_digits _) Hc Hi).
  - apply (Hl c); [|reflexivity]. simpl in *. tauto.
Qed.

Lemma manifest_chunk_lines_cons (fs : gmap (list ascii) (list ascii))
    (output_dir : list ascii) (i : nat) (name : list ascii)
    (rest : list (list ascii)) (text : list ascii) :
  manifest_chunk_lines fs output_dir i (name :: rest) = Done text ->
  exists content lines,
    fs !! path_join output_dir name = Some content
    /\ manifest_chunk_lines fs output_dir (S i) rest = Done lines
    /\ text = (chunk_line i name (length content) ++ ["010"%char]) ++ lines.
Proof.
  simpl. unfold manifest_chunk_line.
  destruct (fs !! path_join output_dir name) as [content|]; [|discriminate].
  destruct (manifest_chunk_lines fs output_dir (S i) rest) as [lines|];
    [|discriminate].
  intros H. injection H as <-. exists content, lines. auto.
Qed.

(** The chunk lines of a manifest written by [split_file], read back. *)
Lemma parse_chunk_lines (fs : gmap (list ascii) (list ascii))
    (output_dir : list ascii) (names : list (list ascii)) :
  Forall (fun name =>
            (exists a, name = a ++ txt ".chunk")
            /\ ~ In "010"%char name /\ ~ In "013"%char name) names ->
  forall i text info,
    manifest_chunk_lines fs output_dir i names = Done text ->
    parse_manifest (lines_keepends text []) info
    = Done {| chunk_files :=
                chunk_files info
                ++ map (fun name => split_head name (txt " (")) names;
              original_filename := original_filename info;
              original_size := original_size info |}
    /\ ~ In "013"%char text.
Proof.
  induction 1 as [|name rest (Hend & Hnl & Hcr) _ IH];
    intros i text info Hrun.
  - simpl in Hrun. injection Hrun as <-. simpl. rewrite app_nil_r.
    split; [destruct info; reflexivity | intros []].
  - apply manifest_chunk_lines_cons in Hrun
      as (content & lines & _ & Hrest & ->).
    destruct (parse_chunk_line i name (length content) Hend)
      as (H1 & H2 & H3 & H4).
    rewrite (lines_keepends_cons _ (chunk_line i name (length content)))
      by (first [reflexivity
                | apply chunk_line_free; [reflexivity | reflexivity | exact Hnl]]).
    rewrite parse_manifest_cons, H1, H2, H3, H4.
    destruct (IH (S i) lines
                {| chunk_files :=
                     chunk_files info ++ [split_head name (txt " (")];
                   original_filename := original_filename info;
                   original_size := original_size info |} Hrest)
      as [Hparse Hfree].
    split.
    + rewrite Hparse. simpl. rewrite <- app_assoc. reflexivity.
    + intros Hi. apply in_app_or in Hi as [Hi | Hi]; [|exact (Hfree Hi)].
      apply in_app_or in Hi as [Hi | Hi].
      * revert Hi. apply chunk_line_free; [reflexivity | reflexivity | exact Hcr].
      * simpl in Hi. destruct Hi as [Hi | []]. discriminate.
Qed.

(** The whole manifest written by [split_file], read back. *)
Lemma parse_written_manifest (fs : gmap (list ascii) (list ascii))
    (output_dir file_name : list ascii) (file_size : nat) (num_chunks : Z)
    (names : list (list ascii)) (text : list ascii) :
  ~ In "010"%char file_name -> ~ In "013"%char file_name ->
  Forall (fun name =>
            (exists a, name = a ++ txt ".chunk")
            /\ ~ In "010"%char name /\ ~ In "013"%char name) names ->
  manifest_chunk_lines fs output_dir 1 names = Done text ->
  parse_manifest
    (readlines (manifest_head file_name (Z.of_nat file_size) num_chunks ++ text))
    no_info
  = Done {| chunk_files := map (fun name => split_head name (txt " (")) names;
            original_filename := Some (strip file_name);
            original_size := Some (Z.of_nat file_size) |}.
Proof.
  intros Hnl Hcr Hnames Hrun.
  destruct (parse_chunk_lines fs output_dir names Hnames 1%nat text
              {| chunk_files := [];
                 original_filename := Some (strip file_name);
                 original_size := Some (Z.of_nat file_size) |} Hrun)
    as [Hparse Hfree].
  unfold readlines. rewrite universal_newlines_id.
  2:{ unfold manifest_head. intros Hi.
      repeat (apply in_app_or in Hi as [Hi | Hi]);
        try (simpl in Hi; repeat destruct Hi as [Hi | Hi];
             solve [discriminate | destruct Hi]).
      - exact (Hcr Hi).
      - exact (str_int_free "013"%char _ eq_refl ltac:(discriminate) Hi).
      - exact (str_int_free "013"%char _ eq_refl ltac:(discriminate) Hi).
      - exact (Hfree Hi). }
  unfold manifest_head. rewrite app_assoc4.
  rewrite (lines_keepends_cons _ (txt "Original file: " ++ file_name)).
  2:{ reflexivity. }
  2:{ intros Hi. apply in_app_or in Hi as [Hi | Hi]; [|exact (Hnl Hi)].
      simpl in Hi. repeat destruct Hi as [Hi | Hi];
        solve [discriminate | destruct Hi]. }
  rewrite (lines_keepends_cons _
             (txt "Original size: " ++ str_int (Z.of_nat file_size)
              ++ txt " bytes")).
  2:{ reflexivity. }
  2:{ intros Hi. repeat (apply in_app_or in Hi as [Hi | Hi]);
        try (simpl in Hi; repeat destruct Hi as [Hi | Hi];
             solve [discriminate | destruct Hi]).
      exact (str_int_free "010"%char _ eq_refl ltac:(discriminate) Hi). }
  rewrite (lines_keepends_cons _ (txt "Number of chunks: " ++ str_int num_chunks)).
  2:{ reflexivity. }
  2:{ intros Hi. repeat (apply in_app_or in Hi as [Hi | Hi]);
        try (simpl in Hi; repeat destruct Hi as [Hi | Hi];
             solve [discriminate | destruct Hi]).
      exact (str_int_free "010"%char _ eq_refl ltac:(discriminate) Hi). }
  rewrite (lines_keepends_cons _ (txt "Chunk files:")).
  2:{ reflexivity. }
  2:{ simpl. intros Hi. repeat destruct Hi as [Hi | Hi];
        solve [discriminate | destruct Hi]. }
  (* the line of the name *)
  rewrite parse_manifest_cons.
  change (startswith ((txt "Original file: " ++ file_name) ++ ["010"%char])
            (txt "Original file:")) with true. cbv iota.
  change (after_colon ((txt "Original file: " ++ file_name) ++ ["010"%char]))
    with (@Done (list ascii) (file_name ++ ["010"%char])).
  cbv iota. rewrite strip_app_space by reflexivity.
  (* the line of the size *)
  rewrite parse_manifest_cons.
  change (startswith ((txt "Original size: " ++ str_int (Z.of_nat file_size)
                       ++ txt " bytes") ++ ["010"%char]) (txt "Original file:"))
    with false. cbv iota.
  change (startswith ((txt "Original size: " ++ str_int (Z.of_nat file_size)
                       ++ txt " bytes") ++ ["010"%char]) (txt "Original size:"))
    with true. cbv iota.
  change (after_colon ((txt "Original size: " ++ str_int (Z.of_nat file_size)
                        ++ txt " bytes") ++ ["010"%char]))
    with (@Done (list ascii) ((str_int (Z.of_nat file_size)
                               ++ txt " bytes") ++ ["010"%char])).
  cbv iota. rewrite str_int_nat.
  assert (Htok : first_token ((decimal (N.of_nat file_size)
                               ++ txt " bytes") ++ ["010"%char])
                 = Some (decimal (N.of_nat file_size))).
  { unfold first_token.
    pose proof (decimal_digits (N.of_nat file_size)) as Hd.
    pose proof (decimal_nonempty (N.of_nat file_size)) as Hne.
    rewrite <- app_assoc.
    change (txt " bytes" ++ ["010"%char])
      with (" "%char :: (txt "bytes" ++ ["010"%char])).
    assert (Hl : lstrip (decimal (N.of_nat file_size)
                         ++ " "%char :: (txt "bytes" ++ ["010"%char]))
                 = decimal (N.of_nat file_size)
                   ++ " "%char :: (txt "bytes" ++ ["010"%char])).
    { destruct (decimal (N.of_nat file_size)) as [|d ds]; [congruence|].
      simpl in Hd. apply andb_prop in Hd as [Hd _].
      simpl app. apply lstrip_id, is_digit_not_space, Hd. }
    rewrite Hl.
    destruct (decimal (N.of_nat file_size)
              ++ " "%char :: (txt "bytes" ++ ["010"%char])) as [|x xs] eqn:E.
    { destruct (decimal (N.of_nat file_size)); discriminate. }
    rewrite <- E. rewrite until_space_app;
      [reflexivity | apply digits_no_space, decimal_digits | reflexivity]. }
  rewrite Htok, py_int_decimal.
  (* the two lines without data *)
  rewrite parse_manifest_cons.
  change (startswith ((txt "Number of chunks: " ++ str_int num_chunks)
                      ++ ["010"%char]) (txt "Original file:")) with false.
  change (startswith ((txt "Number of chunks: " ++ str_int num_chunks)
                      ++ ["010"%char]) (txt "Original size:")) with false.
  change (startswith ((txt "Number of chunks: " ++ str_int num_chunks)
                      ++ ["010"%char]) (txt "  ")) with false.
  simpl andb. cbv iota.
  rewrite parse_manifest_cons.
  change (startswith (txt "Chunk files:" ++ ["010"%char]) (txt "Original file:"))
    with false.
  change (startswith (txt "Chunk files:" ++ ["010"%char]) (txt "Original size:"))
    with false.
  change (startswith (txt "Chunk files:" ++ ["010"%char]) (txt "  ")) with false.
  simpl andb. cbv iota.
  simpl chunk_files. simpl original_filename. simpl original_size.
  replace (Z.of_N (N.of_nat file_size)) with (Z.of_nat file_size) by lia.
  rewrite Hparse. reflexivity.
Qed.

End ManifestFacts.

(** ** [reconstruct_file] *)

Section ReconstructFacts.

Local Open Scope Z_scope.
Local Open Scope list_scope.

Lemma copy_blocks_S (fuel : nat) (chunk_file outfile : list ascii) :
  copy_blocks (S fuel) chunk_file outfile
  = match take 8192 chunk_file with
    | [] => outfile
    | block => copy_blocks fuel (drop 8192 chunk_file) (outfile ++ block)
    end.
Proof. reflexivity. Qed.

Lemma copy_blocks_spec (fuel : nat) :
  forall chunk_file outfile : list ascii,
    (length chunk_file < fuel)%nat ->
    copy_blocks fuel chunk_file outfile = outfile ++ chunk_file.
Proof.
  induction fuel as [|fuel IH]; intros chunk_file outfile Hlen; [lia|].
  rewrite copy_blocks_S.
  assert (Hb : (8192 <> 0)%nat) by discriminate.
  remember 8192%nat as b eqn:Eb. clear Eb.
  destruct (take b chunk_file) as [|x block] eqn:E.
  - assert (chunk_file = []) as ->.
    { destruct chunk_file; [reflexivity|]. destruct b; [lia | discriminate]. }
    rewrite app_nil_r. reflexivity.
  - rewrite <- E. rewrite IH.
    + rewrite <- app_assoc, take_drop. reflexivity.
    + rewrite length_drop. destruct chunk_file; [destruct b; discriminate|].
      simpl in *. lia.
Qed.

Lemma copy_chunks_cons (chunk_dir output_file name : list ascii)
    (rest : list (list ascii)) (fs : gmap (list ascii) (list ascii)) :
  copy_chunks chunk_dir output_file (name :: rest) fs
  = match fs !! path_join chunk_dir name with
    | None => (false, fs)
    | Some chunk_file =>
        copy_chunks chunk_dir output_file rest
          (<[output_file
             := copy_blocks (S (length chunk_file)) chunk_file
                  (default [] (fs !! output_file))]> fs)
    end.
Proof. reflexivity. Qed.

(** The chunk loop, as far as the chunks are there. *)
Lemma copy_chunks_found (chunk_dir output_file : list ascii)
    (found : list (list ascii)) (chunks : list (list ascii)) :
  forall (rest : list (list ascii)) (fs : gmap (list ascii) (list ascii))
         (written : list ascii),
    Forall2 (fun name chunk => fs !! path_join chunk_dir name = Some chunk)
      found chunks ->
    (forall name, In name found -> path_join chunk_dir name <> output_file) ->
    fs !! output_file = Some written ->
    copy_chunks chunk_dir output_file (found ++ rest) fs
    = copy_chunks chunk_dir output_file rest
        (<[output_file := written ++ concat chunks]> fs).
Proof.
  intros rest fs written H. revert chunks fs written H.
  induction found as [|name found IH]; intros chunks fs written H Hout Hw.
  - inversion H; subst. simpl. rewrite app_nil_r, insert_id by exact Hw.
    reflexivity.
  - inversion H as [|? chunk ? chunks' Hname Hrest]; subst.
    simpl app. rewrite copy_chunks_cons, Hname, Hw. simpl default.
    rewrite copy_blocks_spec by lia.
    rewrite (IH chunks' (<[output_file := written ++ chunk]> fs) (written ++ chunk)).
    + rewrite insert_insert_eq. simpl. rewrite <- app_assoc. reflexivity.
    + assert (Hne : forall n, In n found -> path_join chunk_dir n <> output_file).
      { intros n Hn. apply Hout. right. exact Hn. }
      clear -Hrest Hne. induction Hrest as [|n c ns cs Hn _ IHr]; constructor.
      * rewrite lookup_insert_ne; [exact Hn|].
        intros Heq. apply (Hne n); [left; reflexivity | symmetry; exact Heq].
      * apply IHr. intros m Hm. apply Hne. right. exact Hm.
    + intros n Hn. apply Hout. right. exact Hn.
    + apply lookup_insert_eq.
Qed.

Lemma forallb_free (c : ascii) (s : list ascii) :
  forallb (fun d => negb (Ascii.eqb d c)) s = true -> ~ In c s.
Proof.
  intros H Hi. rewrite forallb_forall in H. specialize (H c Hi).
  rewrite Ascii.eqb_refl in H. discriminate.
Qed.

(** *** Names *)

Lemma endswith_app (a s : list ascii) : endswith (a ++ s) s = true.
Proof. unfold endswith. rewrite rev_app_distr. apply startswith_app. Qed.

Lemma chunk_filename_not_manifest (base_name : list ascii) (k : nat) :
  endswith (chunk_filename base_name k) (txt "_manifest.txt") = false.
Proof.
  unfold endswith, chunk_filename. rewrite !rev_app_distr. reflexivity.
Qed.

Lemma chunk_filename_free (c : ascii) (base_name : list ascii) (k : nat) :
  is_digit c = false ->
  forallb (fun d => negb (Ascii.eqb d c)) (txt "_part_.chunk") = true ->
  ~ In c base_name -> ~ In c (chunk_filename base_name k).
Proof.
  intros Hc Hlit Hb Hi. unfold chunk_filename in Hi.
  pose proof (forallb_free c _ Hlit) as Hl.
  repeat (apply in_app_or in Hi as [Hi | Hi]).
  - exact (Hb Hi).
  - apply Hl. simpl in *. tauto.
  - exact (digits_free c _ (pad2_digits _) Hc Hi).
  - apply Hl. simpl in *. tauto.
Qed.

Lemma chunk_filename_no_paren (base_name : list ascii) (k : nat) :
  contains base_name (txt " (") = false ->
  contains (chunk_filename base_name k) (txt " (") = false.
Proof.
  intros Hb. unfold chunk_filename.
  apply (contains_pair_app base_name _ " " "(" Hb); [|reflexivity].
  apply contains_absent. intros Hi.
  apply (chunk_filename_free " "%char [] k eq_refl eq_refl); [intros []|].
  exact Hi.
Qed.

(** The names [split_file] gives the chunks, as lines of the manifest. *)
Lemma chunk_names_readable (base_name : list ascii) (n : nat) :
  ~ In "010"%char base_name -> ~ In "013"%char base_name ->
  Forall (fun name =>
            (exists a, name = a ++ txt ".chunk")
            /\ ~ In "010"%char name /\ ~ In "013"%char name)
    (map (chunk_filename base_name) (seq 0 n)).
Proof.
  intros Hnl Hcr. apply List.Forall_forall. intros name Hname.
  apply in_map_iff in Hname as (k & <- & _).
  split; [|split].
  - unfold chunk_filename.
    exists (base_name ++ txt "_part_" ++ pad2 (N.of_nat (k + 1))).
    rewrite <- !app_assoc. reflexivity.
  - apply chunk_filename_free; [reflexivity | reflexivity | exact Hnl].
  - apply chunk_filename_free; [reflexivity | reflexivity | exact Hcr].
Qed.

(** They are read back as they are when the name of the input has no
    [" ("], and cut at the first [" ("] otherwise. *)
Lemma chunk_names_whole (base_name : list ascii) (l : list nat) :
  contains base_name (txt " (") = false ->
  map (fun name => split_head name (txt " (")) (map (chunk_filename base_name) l)
  = map (chunk_filename base_name) l.
Proof.
  intros Hpar. rewrite map_map. apply map_ext. intros k.
  apply split_head_absent, chunk_filename_no_paren, Hpar.
Qed.

Lemma chunk_names_cut (a b : list ascii) (l : list nat) :
  contains a (txt " (") = false ->
  map (fun name => split_head name (txt " ("))
    (map (chunk_filename (a ++ txt " (" ++ b)) l)
  = repeat a (length l).
Proof.
  intros Ha. rewrite map_map. induction l as [|k l IH]; [reflexivity|].
  cbn [map length repeat]. rewrite IH. f_equal.
  unfold chunk_filename. rewrite <- !app_assoc.
  change (txt " (") with [" "%char; "("%char] in *.
  change ([" "%char; "("%char] ++ ?r) with (" "%char :: "("%char :: r).
  rewrite split_head_app_pair by discriminate.
  apply split_head_absent, Ha.
Qed.

(** The letter r is counted to tell the name of the output from the names
    of the chunks. *)
Lemma count_lstrip (c : ascii) (s : list ascii) :
  is_space c = false ->
  count_occ Ascii.ascii_dec (lstrip s) c = count_occ Ascii.ascii_dec s c.
Proof.
  intros Hc. induction s as [|d s IH]; simpl; [reflexivity|].
  destruct (is_space d) eqn:Hd; [|reflexivity].
  destruct (Ascii.ascii_dec d c) as [-> | _]; [congruence | exact IH].
Qed.

Lemma count_strip (c : ascii) (s : list ascii) :
  is_space c = false ->
  count_occ Ascii.ascii_dec (strip s) c = count_occ Ascii.ascii_dec s c.
Proof.
  intros Hc. unfold strip.
  rewrite count_occ_rev, (count_lstrip c _ Hc), count_occ_rev.
  apply count_lstrip, Hc.
Qed.

Lemma reconstructed_name_fresh (file_name : list ascii) (k : nat) :
  txt "reconstructed_" ++ strip file_name
  <> chunk_filename (splitext file_name).1 k.
Proof.
  intros Heq.
  apply (f_equal (fun s => count_occ Ascii.ascii_dec s "r"%char)) in Heq.
  unfold chunk_filename in Heq. rewrite !count_occ_app in Heq.
  rewrite (count_strip "r" file_name eq_refl) in Heq.
  rewrite (proj1 (splitext_spec file_name)) in Heq at 1.
  rewrite count_occ_app in Heq.
  assert (Hpad : count_occ Ascii.ascii_dec (pad2 (N.of_nat (k + 1))) "r"%char = O).
  { apply count_occ_not_In.
    apply (digits_free "r"%char _ (pad2_digits _) eq_refl). }
  rewrite Hpad in Heq.
  change (count_occ Ascii.ascii_dec (txt "reconstructed_") "r"%char)
    with 2%nat in Heq.
  change (count_occ Ascii.ascii_dec (txt "_part_") "r"%char) with 1%nat in Heq.
  change (count_occ Ascii.ascii_dec (txt ".chunk") "r"%char) with 0%nat in Heq.
  lia.
Qed.

Lemma output_path_fresh (chunk_dir file_name : list ascii) (k : nat) :
  path_join chunk_dir (chunk_filename (splitext file_name).1 k)
  <> output_path chunk_dir None (Some (strip file_name)) \/
  In "/"%char (splitext file_name).1.
Proof.
  destruct (in_dec Ascii.ascii_dec "/"%char (splitext file_name).1) as [Hi | Hn];
    [right; exact Hi | left].
  unfold output_path, str_of_filename. intros Heq.
  apply path_join_inj in Heq.
  - symmetry in Heq. exact (reconstructed_name_fresh _ _ Heq).
  - apply startswith_slash, chunk_filename_no_slash, Hn.
  - reflexivity.
Qed.

(** *** Running [reconstruct_file] *)

Section Listing.

Variable listdir :
  gmap (list ascii) (list ascii) -> list ascii -> list (list ascii).

Lemma reconstruct_file_run (fs : gmap (list ascii) (list ascii))
    (chunk_dir : list ascii) (output_file : option (list ascii))
    (manifest_file : list ascii) (others : list (list ascii))
    (manifest : list ascii) (info : manifest_info) (size : Z) :
  manifest_files listdir fs chunk_dir = manifest_file :: others ->
  fs !! path_join chunk_dir manifest_file = Some manifest ->
  parse_manifest (readlines manifest) no_info = Done info ->
  original_size info = Some size ->
  chunk_files info <> [] ->
  reconstruct_file listdir fs chunk_dir output_file
  = let out := output_path chunk_dir output_file (original_filename info) in
    match copy_chunks chunk_dir out (chunk_files info) (<[out := []]> fs) with
    | (false, fs') => Done (false, fs')
    | (true, fs') =>
        Done (negb (size =? 0)
              && (Z.of_nat (length (default [] (fs' !! out))) =? size), fs')
    end.
Proof.
  intros Hm Hl Hp Hs Hc. unfold reconstruct_file.
  rewrite Hm, Hl, Hp, Hs.
  destruct (chunk_files info); [congruence | reflexivity].
Qed.

Lemma reconstruct_file_all (fs : gmap (list ascii) (list ascii))
    (chunk_dir : list ascii) (output_file : option (list ascii))
    (manifest_file : list ascii) (others : list (list ascii))
    (manifest : list ascii) (info : manifest_info) (size : Z)
    (chunks : list (list ascii)) :
  manifest_files listdir fs chunk_dir = manifest_file :: others ->
  fs !! path_join chunk_dir manifest_file = Some manifest ->
  parse_manifest (readlines manifest) no_info = Done info ->
  original_size info = Some size ->
  chunk_files info <> [] ->
  Forall2 (fun name chunk => fs !! path_join chunk_dir name = Some chunk)
    (chunk_files info) chunks ->
  (forall name, In name (chunk_files info) ->
     path_join chunk_dir name
     <> output_path chunk_dir output_file (original_filename info)) ->
  reconstruct_file listdir fs chunk_dir output_file
  = Done (negb (size =? 0) && (Z.of_nat (length (concat chunks)) =? size),
          <[output_path chunk_dir output_file (original_filename info)
            := concat chunks]> fs).
Proof.
  intros Hm Hl Hp Hs Hc Hall Hout.
  rewrite (reconstruct_file_run fs chunk_dir output_file manifest_file others
             manifest info size Hm Hl Hp Hs Hc).
  cbv zeta.
  set (out := output_path chunk_dir output_file (original_filename info)) in *.
  rewrite <- (app_nil_r (chunk_files info)).
  rewrite (copy_chunks_found chunk_dir out (chunk_files info) chunks []
             (<[out := []]> fs) []).
  - simpl. rewrite insert_insert_eq, lookup_insert_eq. reflexivity.
  - clear -Hall Hout. induction Hall as [|n c ns cs Hn _ IH]; constructor.
    + rewrite lookup_insert_ne; [exact Hn|].
      intros Heq. apply (Hout n); [left; reflexivity | symmetry; exact Heq].
    + apply IH. intros m Hm. apply Hout. right. exact Hm.
  - exact Hout.
  - apply lookup_insert_eq.
Qed.

Lemma manifest_files_In (fs : gmap (list ascii) (list ascii))
    (chunk_dir n : list ascii) :
  In n (manifest_files listdir fs chunk_dir)
  <-> In n (listdir fs chunk_dir) /\ endswith n (txt "_manifest.txt") = true.
Proof.
  unfold manifest_files.
  exact (List.filter_In (fun f => endswith f (txt "_manifest.txt")) n
           (listdir fs chunk_dir)).
Qed.

Lemma manifest_files_only (fs : gmap (list ascii) (list ascii))
    (chunk_dir m : list ascii) :
  In m (manifest_files listdir fs chunk_dir) ->
  (forall n, In n (manifest_files listdir fs chunk_dir) -> n = m) ->
  exists others, manifest_files listdir fs chunk_dir = m :: others.
Proof.
  intros Hin Hall. destruct (manifest_files listdir fs chunk_dir) as [|x l].
  - destruct Hin.
  - exists l. f_equal. apply Hall. left. reflexivity.
Qed.

Lemma verify_chunks_exist_run (fs : gmap (list ascii) (list ascii))
    (chunk_dir manifest_file : list ascii) (others : list (list ascii))
    (manifest : list ascii) :
  manifest_files listdir fs chunk_dir = manifest_file :: others ->
  fs !! path_join chunk_dir manifest_file = Some manifest ->
  Forall (fun name => is_Some (fs !! path_join chunk_dir name))
    (manifest_chunk_names (readlines manifest)) ->
  verify_chunks_exist listdir fs chunk_dir
  = Done (true,
          txt "All "
          ++ decimal (N.of_nat (length (manifest_chunk_names (readlines manifest))))
          ++ txt " chunk files found").
Proof.
  intros Hm Hl Hall. unfold verify_chunks_exist. rewrite Hm, Hl.
  assert (Hnone : List.filter
            (fun chunk_file =>
               match fs !! path_join chunk_dir chunk_file with
               | Some _ => false
               | None => true
               end) (manifest_chunk_names (readlines manifest)) = []).
  { induction Hall as [|name names [x Hx] _ IH]; [reflexivity|].
    simpl. rewrite Hx. exact IH. }
  rewrite Hnone. reflexivity.
Qed.

Hypothesis listdir_ok : listdir_law listdir.

(** After [split_file], the manifest it wrote is the one found, if no
    other manifest was in the directory. *)
Lemma manifest_found (fs fs' : gmap (list ascii) (list ascii))
    (output_dir base_name : list ascii) (n : nat) (manifest : list ascii) :
  ~ In "/"%char base_name ->
  (forall name,
     endswith name (txt "_manifest.txt") = true ->
     name <> base_name ++ txt "_manifest.txt" ->
     fs !! path_join output_dir name = None) ->
  fs' !! path_join output_dir (base_name ++ txt "_manifest.txt") = Some manifest ->
  (forall p,
     p <> path_join output_dir (base_name ++ txt "_manifest.txt") ->
     (forall j, (j < n)%nat ->
        p <> path_join output_dir (chunk_filename base_name j)) ->
     fs' !! p = fs !! p) ->
  exists others,
    manifest_files listdir fs' output_dir
    = (base_name ++ txt "_manifest.txt") :: others.
Proof.
  intros Hb Hstale Hman Hframe.
  apply manifest_files_only.
  - apply manifest_files_In. split; [|apply endswith_app].
    apply listdir_ok. split; [rewrite Hman; eexists; reflexivity|].
    split; [|apply manifest_name_no_slash, Hb].
    intros Hnil. apply app_eq_nil in Hnil as [_ Hnil]. discriminate.
  - intros name Hname. apply manifest_files_In in Hname as [Hin Hend].
    apply listdir_ok in Hin as (Hsome & _ & Hslash).
    destruct (decide (name = base_name ++ txt "_manifest.txt"))
      as [Heq | Hne]; [exact Heq | exfalso].
    rewrite Hframe, (Hstale name Hend Hne) in Hsome.
    + destruct Hsome as [x Hx]. discriminate.
    + intros Heq. apply path_join_inj in Heq; [exact (Hne Heq) | |].
      * apply startswith_slash, Hslash.
      * apply startswith_slash, manifest_name_no_slash, Hb.
    + intros j _ Heq. apply path_join_inj in Heq.
      * rewrite Heq, chunk_filename_not_manifest in Hend. discriminate.
      * apply startswith_slash, Hslash.
      * apply startswith_slash, chunk_filename_no_slash, Hb.
Qed.

End Listing.

End ReconstructFacts.


Section RoundTrip.

Local Open Scope Z_scope.
Local Open Scope list_scope.

(** The listing computed from the file system is one [os.listdir] may
    give. *)
Lemma dir_names_law : listdir_law dir_names.
Proof.
  intros fs d n. unfold dir_names. rewrite <- list_elem_of_In, list_elem_of_omap.
  split.
  - intros (p & Hp & Hn). apply list_elem_of_fmap in Hp as ([p' v] & -> & Hpv).
    apply elem_of_map_to_list in Hpv. simpl in Hn.
    unfold name_under in Hn.
    destruct (startswith p' (dir_prefix d)) eqn:Hs; [|discriminate].
    apply startswith_inv in Hs as [r ->].
    rewrite drop_app_length in Hn.
    destruct r as [|c r]; [discriminate|].
    destruct (existsb (fun c => Ascii.eqb c "/") (c :: r)) eqn:Hex; [discriminate|].
    injection Hn as <-.
    assert (Hfree : ~ In "/"%char (c :: r)).
    { intros Hi. assert (existsb (fun c => Ascii.eqb c "/") (c :: r) = true).
      { apply existsb_exists. exists "/"%char. split; [exact Hi | reflexivity]. }
      congruence. }
    split; [|split; [discriminate | exact Hfree]].
    rewrite path_join_rel by (apply startswith_slash, Hfree).
    rewrite Hpv. eexists. reflexivity.
  - intros ([v Hv] & Hne & Hfree).
    rewrite path_join_rel in Hv by (apply startswith_slash, Hfree).
    exists (dir_prefix d ++ n). split.
    + apply list_elem_of_fmap. exists (dir_prefix d ++ n, v).
      split; [reflexivity|]. apply elem_of_map_to_list. exact Hv.
    + unfold name_under. rewrite startswith_app, drop_app_length.
      destruct n as [|c r]; [congruence|].
      destruct (existsb (fun c => Ascii.eqb c "/") (c :: r)) eqn:Hex;
        [|reflexivity].
      apply existsb_exists in Hex as (x & Hx & Heq).
      apply Ascii.eqb_eq in Heq. subst x. exfalso. exact (Hfree Hx).
Qed.

(** [split_file], then the two functions of [reconstruct_file.py]. *)
Lemma split_then_reconstruct
    (listdir : gmap (list ascii) (list ascii) -> list ascii -> list (list ascii))
    (fs : gmap (list ascii) (list ascii))
    (input_file output_dir : list ascii) (chunk_size_mb : Z) (data : list ascii) :
  listdir_law listdir ->
  fs !! input_file = Some data -> 0 < chunk_size_mb ->
  ~ In "010"%char (basename input_file) ->
  ~ In "013"%char (basename input_file) ->
  contains (basename input_file) (txt " (") = false ->
  (forall name,
     endswith name (txt "_manifest.txt") = true ->
     name <> (splitext (basename input_file)).1 ++ txt "_manifest.txt" ->
     fs !! path_join output_dir name = None) ->
  exists chunk_files manifest_path fs1,
    split_file fs input_file output_dir chunk_size_mb
    = Done (chunk_files, manifest_path, fs1)
    /\ verify_chunks_exist listdir fs1 output_dir
       = Done (true,
               txt "All " ++ decimal (N.of_nat (length chunk_files))
               ++ txt " chunk files found")
    /\ (data <> [] ->
        reconstruct_file listdir fs1 output_dir None
        = Done (true,
                <[path_join output_dir
                    (txt "reconstructed_" ++ strip (basename input_file))
                  := data]> fs1))
    /\ (data = [] ->
        chunk_files = []
        /\ reconstruct_file listdir fs1 output_dir None = Done (false, fs1)).
Proof.
  intros Hlaw Hdata Hmb Hnl Hcr Hpar Hstale.
  destruct (split_file_result fs input_file output_dir chunk_size_mb data
              Hdata Hmb) as (fs1 & fsx & lines & Hrun & Hin & Hlines & Hman & Hframe).
  set (C := chunk_size_mb * 1024 * 1024) in *.
  set (c := Z.to_nat C) in *.
  set (base_name := (splitext (basename input_file)).1) in *.
  set (num_chunks := ceil_div (Z.of_nat (length data)) C) in *.
  set (n := Z.to_nat num_chunks) in *.
  set (names := map (chunk_filename base_name) (seq 0 n)) in *.
  assert (HC : 0 < C) by (unfold C; lia).
  destruct (ceil_div_bounds (Z.of_nat (length data)) C HC) as [Hup Hlow].
  fold num_chunks in Hup, Hlow.
  assert (Hb : ~ In "/"%char base_name).
  { apply splitext_prefix, basename_no_slash. }
  destruct (manifest_found listdir Hlaw fs fs1 output_dir base_name n _
              Hb Hstale Hman Hframe) as [others Hmf].
  assert (Hgood := chunk_names_readable base_name n
            (splitext_prefix _ _ Hnl) (splitext_prefix _ _ Hcr)).
  fold names in Hgood.
  pose proof (parse_written_manifest fsx output_dir (basename input_file)
                (length data) num_chunks names lines Hnl Hcr Hgood Hlines)
    as Hparse.
  unfold names in Hparse at 1.
  rewrite (chunk_names_whole base_name _ (splitext_contains _ _ Hpar)) in Hparse.
  fold names in Hparse.
  pose proof (parse_manifest_names _ _ _ Hparse) as Hnames.
  unfold no_info in Hnames. cbn [chunk_files app] in Hnames.
  exists names, (path_join output_dir (base_name ++ txt "_manifest.txt")), fs1.
  split; [exact Hrun|]. split; [|split].
  - rewrite (verify_chunks_exist_run listdir fs1 output_dir _ others _ Hmf Hman).
    + rewrite <- Hnames. reflexivity.
    + rewrite <- Hnames. apply List.Forall_forall. intros name Hname.
      apply in_map_iff in Hname as (j & <- & Hj). apply in_seq in Hj.
      rewrite Hin by lia. eexists. reflexivity.
  - intros Hne.
    assert (Hlen : 0 < Z.of_nat (length data)).
    { destruct data; [congruence | simpl; lia]. }
    rewrite (reconstruct_file_all listdir fs1 output_dir None _ others _ _
               (Z.of_nat (length data))
               (map (fun j => take c (drop (j * c) data)) (seq 0 n))
               Hmf Hman Hparse eq_refl).
    + rewrite concat_chunks, take_ge by nia. simpl original_filename.
      rewrite Z.eqb_refl.
      destruct (Z.eqb_spec (Z.of_nat (length data)) 0) as [H0 | _]; [lia|].
      reflexivity.
    + simpl. unfold names. intros Hnil.
      apply (f_equal (@length _)) in Hnil.
      rewrite length_map, length_seq in Hnil. simpl in Hnil. nia.
    + simpl. apply Forall2_map_both. intros j Hj. apply in_seq in Hj.
      apply Hin. lia.
    + simpl. intros name Hname. apply in_map_iff in Hname as (j & <- & _).
      destruct (output_path_fresh output_dir (basename input_file) j)
        as [Hfresh | Hslash]; [exact Hfresh | exact (False_ind _ (Hb Hslash))].
  - intros ->. simpl length in *.
    assert (Hn0 : n = O) by (unfold n; nia).
    assert (Hnil : names = []) by (unfold names; rewrite Hn0; reflexivity).
    split; [exact Hnil|].
    unfold reconstruct_file. rewrite Hmf, Hman, Hparse, Hnil. reflexivity.
Qed.

End RoundTrip.


Section FileSplitProperties.

Local Open Scope Z_scope.
Local Open Scope list_scope.

Lemma split_file_chunks_witness :
  exists chunk_files manifest_path fs' chunks,
    split_file small_fs (txt "/in/a.bin") (txt "/out") 1
    = Done (chunk_files, manifest_path, fs')
    /\ Forall2 (fun name chunk => fs' !! path_join (txt "/out") name = Some chunk)
         chunk_files chunks
    /\ concat chunks = txt "hello".
Proof.
  destruct (split_file_chunks small_fs (txt "/in/a.bin") (txt "/out") 1
              (txt "hello"))
    as (chunk_files & manifest_path & fs' & chunks & Hrun & Hall & _ & Hcat & _).
  - apply lookup_singleton_eq.
  - lia.
  - exists chunk_files, manifest_path, fs', chunks. auto.
Defined.

Lemma split_file_frame_witness :
  exists chunk_files manifest_path fs',
    split_file small_fs (txt "/in/a.bin") (txt "/out") 1
    = Done (chunk_files, manifest_path, fs')
    /\ fs' !! txt "/in/a.bin" = Some (txt "hello").
Proof.
  destruct (split_file_frame small_fs (txt "/in/a.bin") (txt "/out") 1
              (txt "hello"))
    as (chunk_files & manifest_path & fs' & Hrun & Hin & _).
  - apply lookup_singleton_eq.
  - lia.
  - exists chunk_files, manifest_path, fs'. auto.
Defined.


Lemma split_file_negative_chunk_size_witness :
  exists manifest,
    split_file small_fs (txt "/in/a.bin") (txt "/out") (-1)
    = Done ([], txt "/out/a_manifest.txt",
            <[txt "/out/a_manifest.txt" := manifest]> small_fs).
Proof.
  eexists.
  apply (split_file_negative_chunk_size small_fs (txt "/in/a.bin") (txt "/out")
           (-1) (txt "hello")).
  - apply lookup_singleton_eq.
  - lia.
Defined.

(** X19: with a manifest that gives a size and lists chunks that are all
    there, [reconstruct_file] writes the chunks, in the order of the
    manifest, one after the other to the output file, and changes no other
    file; it returns [True] exactly when the size in the manifest is not 0
    and is the number of bytes written. The output is the path asked for,
    or [reconstructed_<original name>] in the directory of the chunks, and
    is taken not to be one of the chunks. *)
Theorem reconstruct_file_concat
    (listdir : gmap (list ascii) (list ascii) -> list ascii -> list (list ascii))
    (fs : gmap (list ascii) (list ascii))
    (chunk_dir : list ascii) (output_file : option (list ascii))
    (manifest_file : list ascii) (others : list (list ascii))
    (manifest : list ascii) (info : manifest_info) (size : Z)
    (chunks : list (list ascii)) :
  manifest_files listdir fs chunk_dir = manifest_file :: others ->
  fs !! path_join chunk_dir manifest_file = Some manifest ->
  parse_manifest (readlines manifest) no_info = Done info ->
  original_size info = Some size ->
  chunk_files info <> [] ->
  Forall2 (fun name chunk => fs !! path_join chunk_dir name = Some chunk)
    (chunk_files info) chunks ->
  (forall name, In name (chunk_files info) ->
     path_join chunk_dir name
     <> output_path chunk_dir output_file (original_filename info)) ->
  reconstruct_file listdir fs chunk_dir output_file
  = Done (negb (size =? 0) && (Z.of_nat (length (concat chunks)) =? size),
          <[output_path chunk_dir output_file (original_filename info)
            := concat chunks]> fs).
Proof. apply reconstruct_file_all. Qed.

Lemma reconstruct_file_concat_witness :
  reconstruct_file dir_names chunks_fs (txt "/c") None
  = Done (true, <[txt "/c/reconstructed_x.bin" := txt "hello"]> chunks_fs).
Proof.
  apply (reconstruct_file_concat dir_names chunks_fs (txt "/c") None
           (txt "x_manifest.txt") [] small_manifest
           {| chunk_files := [txt "x_part_01.chunk"; txt "x_part_02.chunk"];
              original_filename := Some (txt "x.bin");
              original_size := Some 5 |}
           5 [txt "hel"; txt "lo"]).
  - vm_compute. reflexivity.
  - vm_compute. reflexivity.
  - vm_compute. reflexivity.
  - reflexivity.
  - discriminate.
  - repeat constructor.
  - intros name [<- | [<- | []]]; vm_compute; discriminate.
Defined.

(** X20: when a chunk listed in the manifest is not there,
    [reconstruct_file] returns [False] and leaves an output file that holds
    the chunks listed before the missing one, whatever was at that path
    before. *)
Theorem reconstruct_file_missing_chunk
    (listdir : gmap (list ascii) (list ascii) -> list ascii -> list (list ascii))
    (fs : gmap (list ascii) (list ascii))
    (chunk_dir : list ascii) (output_file : option (list ascii))
    (manifest_file : list ascii) (others : list (list ascii))
    (manifest : list ascii) (info : manifest_info) (size : Z)
    (found : list (list ascii)) (missing : list ascii)
    (rest : list (list ascii)) (chunks : list (list ascii)) :
  manifest_files listdir fs chunk_dir = manifest_file :: others ->
  fs !! path_join chunk_dir manifest_file = Some manifest ->
  parse_manifest (readlines manifest) no_info = Done info ->
  original_size info = Some size ->
  chunk_files info = found ++ missing :: rest ->
  Forall2 (fun name chunk => fs !! path_join chunk_dir name = Some chunk)
    found chunks ->
  fs !! path_join chunk_dir missing = None ->
  (forall name, In name (found ++ [missing]) ->
     path_join chunk_dir name
     <> output_path chunk_dir output_file (original_filename info)) ->
  reconstruct_file listdir fs chunk_dir output_file
  = Done (false,
          <[output_path chunk_dir output_file (original_filename info)
            := concat chunks]> fs).
Proof.
  intros Hm Hl Hp Hs Hc Hall Hmiss Hout.
  rewrite (reconstruct_file_run listdir fs chunk_dir output_file manifest_file
             others manifest info size Hm Hl Hp Hs)
    by (rewrite Hc; intros Hnil; apply app_eq_nil in Hnil as [_ Hnil];
        discriminate).
  cbv zeta.
  set (out := output_path chunk_dir output_file (original_filename info)) in *.
  rewrite Hc.
  rewrite (copy_chunks_found chunk_dir out found chunks (missing :: rest)
             (<[out := []]> fs) []).
  - rewrite copy_chunks_cons.
    assert (Hne : path_join chunk_dir missing <> out).
    { apply Hout. apply in_or_app. right. left. reflexivity. }
    rewrite !lookup_insert_ne by congruence.
    rewrite Hmiss. rewrite insert_insert_eq. reflexivity.
  - clear -Hall Hout.
    assert (Hout' : forall name, In name found -> path_join chunk_dir name <> out).
    { intros name Hn. apply Hout. apply in_or_app. left. exact Hn. }
    clear Hout. induction Hall as [|n c ns cs Hn _ IH]; constructor.
    + rewrite lookup_insert_ne; [exact Hn|].
      intros Heq. apply (Hout' n); [left; reflexivity | symmetry; exact Heq].
    + apply IH. intros m Hm. apply Hout'. right. exact Hm.
  - intros name Hn. apply Hout. apply in_or_app. left. exact Hn.
  - apply lookup_insert_eq.
Qed.

Lemma reconstruct_file_missing_chunk_witness :
  reconstruct_file dir_names broken_fs (txt "/c") None
  = Done (false, <[txt "/c/reconstructed_x.bin" := txt "hel"]> broken_fs).
Proof.
  apply (reconstruct_file_missing_chunk dir_names broken_fs (txt "/c") None
           (txt "x_manifest.txt") [] small_manifest
           {| chunk_files := [txt "x_part_01.chunk"; txt "x_part_02.chunk"];
              original_filename := Some (txt "x.bin");
              original_size := Some 5 |}
           5 [txt "x_part_01.chunk"] (txt "x_part_02.chunk") [] [txt "hel"]).
  - vm_compute. reflexivity.
  - vm_compute. reflexivity.
  - vm_compute. reflexivity.
  - reflexivity.
  - reflexivity.
  - repeat constructor.
  - vm_compute. reflexivity.
  - intros name [<- | [<- | []]]; vm_compute; discriminate.
Defined.




(** X22: splitting and reconstructing gives the file back. For an input
    that is not empty, with a chunk size above 0, a file name without line
    ends and without [" ("], and no other manifest in the output directory,
    [reconstruct_file] run on the directory [split_file] wrote returns
    [True] and writes the content of the input to
    [reconstructed_<file name>] there, changing nothing else. *)
Theorem reconstruct_after_split
    (listdir : gmap (list ascii) (list ascii) -> list ascii -> list (list ascii))
    (fs : gmap (list ascii) (list ascii))
    (input_file output_dir : list ascii) (chunk_size_mb : Z) (data : list ascii) :
  listdir_law listdir ->
  fs !! input_file = Some data -> data <> [] -> 0 < chunk_size_mb ->
  ~ In "010"%char (basename input_file) ->
  ~ In "013"%char (basename input_file) ->
  contains (basename input_file) (txt " (") = false ->
  (forall name,
     endswith name (txt "_manifest.txt") = true ->
     name <> (splitext (basename input_file)).1 ++ txt "_manifest.txt" ->
     fs !! path_join output_dir name = None) ->
  exists chunk_files manifest_path fs1,
    split_file fs input_file output_dir chunk_size_mb
    = Done (chunk_files, manifest_path, fs1)
    /\ reconstruct_file listdir fs1 output_dir None
       = Done (true,
               <[path_join output_dir
                   (txt "reconstructed_" ++ strip (basename input_file))
                 := data]> fs1).
Proof.
  intros Hlaw Hdata Hne Hmb Hnl Hcr Hpar Hstale.
  destruct (split_then_reconstruct listdir fs input_file output_dir
              chunk_size_mb data Hlaw Hdata Hmb Hnl Hcr Hpar Hstale)
    as (chunk_files & manifest_path & fs1 & Hrun & _ & Hrec & _).
  exists chunk_files, manifest_path, fs1. split; [exact Hrun | exact (Hrec Hne)].
Qed.

Lemma small_fs_no_manifest (name : list ascii) :
  endswith name (txt "_manifest.txt") = true ->
  small_fs !! path_join (txt "/out") name = None.
Proof.
  intros Hend. apply lookup_singleton_ne. unfold path_join.
  destruct (startswith name (txt "/")) eqn:E.
  - intros <-. vm_compute in Hend. discriminate.
  - intros Heq. vm_compute in Heq. discriminate.
Qed.

Lemma reconstruct_after_split_witness :
  exists chunk_files manifest_path fs1,
    split_file small_fs (txt "/in/a.bin") (txt "/out") 1
    = Done (chunk_files, manifest_path, fs1)
    /\ reconstruct_file dir_names fs1 (txt "/out") None
       = Done (true, <[txt "/out/reconstructed_a.bin" := txt "hello"]> fs1).
Proof.
  apply (reconstruct_after_split dir_names small_fs (txt "/in/a.bin")
           (txt "/out") 1 (txt "hello")).
  - exact dir_names_law.
  - apply lookup_singleton_eq.
  - discriminate.
  - lia.
  - apply forallb_free. reflexivity.
  - apply forallb_free. reflexivity.
  - reflexivity.
  - intros name Hend _. apply small_fs_no_manifest, Hend.
Defined.

(** X23: the two scripts, one after the other. When
    [/home/ubuntu/upload/vienna_networks.pkl] is there and not empty and
    [/home/ubuntu/vienna_split] holds no manifest of another file,
    [split_file.py] ends with status 0, and [reconstruct_file.py] then ends
    with status 0 and has written the content of the input to
    [/home/ubuntu/vienna_split/reconstructed_vienna_networks.pkl], changing
    nothing else. *)
Theorem scripts_round_trip
    (listdir : gmap (list ascii) (list ascii) -> list ascii -> list (list ascii))
    (fs : gmap (list ascii) (list ascii)) (data : list ascii) :
  listdir_law listdir ->
  fs !! txt "/home/ubuntu/upload/vienna_networks.pkl" = Some data ->
  data <> [] ->
  (forall name,
     endswith name (txt "_manifest.txt") = true ->
     name <> txt "vienna_networks_manifest.txt" ->
     fs !! path_join (txt "/home/ubuntu/vienna_split") name = None) ->
  exists fs1,
    split_main fs = (0, fs1)
    /\ reconstruct_main listdir fs1
       = (0,
          <[txt "/home/ubuntu/vienna_split/reconstructed_vienna_networks.pkl"
            := data]> fs1).
Proof.
  intros Hlaw Hdata Hne Hstale.
  destruct (split_then_reconstruct listdir fs
              (txt "/home/ubuntu/upload/vienna_networks.pkl")
              (txt "/home/ubuntu/vienna_split") 24 data Hlaw Hdata)
    as (chunk_files & manifest_path & fs1 & Hrun & Hver & Hrec & _).
  - lia.
  - apply forallb_free. reflexivity.
  - apply forallb_free. reflexivity.
  - reflexivity.
  - exact Hstale.
  - exists fs1. unfold split_main, reconstruct_main.
    rewrite Hdata, Hrun, Hver, (Hrec Hne). split; reflexivity.
Qed.

Lemma upload_fs_no_manifest (data name : list ascii) :
  endswith name (txt "_manifest.txt") = true ->
  upload_fs data !! path_join (txt "/home/ubuntu/vienna_split") name = None.
Proof.
  intros Hend. apply lookup_singleton_ne. unfold path_join.
  destruct (startswith name (txt "/")) eqn:E.
  - intros <-. vm_compute in Hend. discriminate.
  - intros Heq. vm_compute in Heq. discriminate.
Qed.

Lemma scripts_round_trip_witness :
  exists fs1,
    split_main (upload_fs (txt "hello")) = (0, fs1)
    /\ reconstruct_main dir_names fs1
       = (0,
          <[txt "/home/ubuntu/vienna_split/reconstructed_vienna_networks.pkl"
            := txt "hello"]> fs1).
Proof.
  apply (scripts_round_trip dir_names (upload_fs (txt "hello")) (txt "hello")).
  - exact dir_names_law.
  - apply lookup_singleton_eq.
  - discriminate.
  - intros name Hend _. apply upload_fs_no_manifest, Hend.
Defined.

(** X24: an empty input file cannot be put together again. [split_file]
    writes a manifest and no chunk; on that directory [verify_chunks_exist]
    answers [True] with ["All 0 chunk files found"], and
    [reconstruct_file] then finds no chunk in the manifest, returns [False]
    and writes nothing, so [reconstruct_file.py] ends with status 1. *)
Theorem scripts_empty_file
    (listdir : gmap (list ascii) (list ascii) -> list ascii -> list (list ascii))
    (fs : gmap (list ascii) (list ascii)) :
  listdir_law listdir ->
  fs !! txt "/home/ubuntu/upload/vienna_networks.pkl" = Some [] ->
  (forall name,
     endswith name (txt "_manifest.txt") = true ->
     name <> txt "vienna_networks_manifest.txt" ->
     fs !! path_join (txt "/home/ubuntu/vienna_split") name = None) ->
  exists manifest_path fs1,
    split_file fs (txt "/home/ubuntu/upload/vienna_networks.pkl")
      (txt "/home/ubuntu/vienna_split") 24
    = Done ([], manifest_path, fs1)
    /\ split_main fs = (0, fs1)
    /\ verify_chunks_exist listdir fs1 (txt "/home/ubuntu/vienna_split")
       = Done (true, txt "All 0 chunk files found")
    /\ reconstruct_file listdir fs1 (txt "/home/ubuntu/vienna_split") None
       = Done (false, fs1)
    /\ reconstruct_main listdir fs1 = (1, fs1).
Proof.
  intros Hlaw Hdata Hstale.
  destruct (split_then_reconstruct listdir fs
              (txt "/home/ubuntu/upload/vienna_networks.pkl")
              (txt "/home/ubuntu/vienna_split") 24 [] Hlaw Hdata)
    as (chunk_files & manifest_path & fs1 & Hrun & Hver & _ & Hrec).
  - lia.
  - apply forallb_free. reflexivity.
  - apply forallb_free. reflexivity.
  - reflexivity.
  - exact Hstale.
  - destruct (Hrec eq_refl) as [-> Hfalse].
    exists manifest_path, fs1.
    split; [exact Hrun|]. split; [|split; [exact Hver|split; [exact Hfalse|]]].
    + unfold split_main. rewrite Hdata, Hrun. reflexivity.
    + unfold reconstruct_main. rewrite Hver, Hfalse. reflexivity.
Qed.

Lemma scripts_empty_file_witness :
  exists manifest_path fs1,
    split_file (upload_fs []) (txt "/home/ubuntu/upload/vienna_networks.pkl")
      (txt "/home/ubuntu/vienna_split") 24
    = Done ([], manifest_path, fs1)
    /\ reconstruct_main dir_names fs1 = (1, fs1).
Proof.
  destruct (scripts_empty_file dir_names (upload_fs []))
    as (manifest_path & fs1 & Hrun & _ & _ & _ & Hmain).
  - exact dir_names_law.
  - apply lookup_singleton_eq.
  - intros name Hend _. apply upload_fs_no_manifest, Hend.
  - exists manifest_path, fs1. auto.
Defined.

End FileSplitProperties.


Section VerifyProperties.

Local Open Scope Z_scope.
Local Open Scope list_scope.

Lemma none_missing (fs : gmap (list ascii) (list ascii))
    (chunk_dir : list ascii) (names : list (list ascii)) :
  List.filter
    (fun chunk_file =>
       match fs !! path_join chunk_dir chunk_file with
       | Some _ => false
       | None => true
       end) names = [] ->
  exists chunks,
    Forall2 (fun name chunk => fs !! path_join chunk_dir name = Some chunk)
      names chunks.
Proof.
  induction names as [|name names IH]; intros H.
  - exists []. constructor.
  - simpl in H.
    destruct (fs !! path_join chunk_dir name) as [chunk|] eqn:E; [|discriminate].
    destruct (IH H) as [chunks Hall]. exists (chunk :: chunks).
    constructor; assumption.
Qed.

Lemma all_missing (fs : gmap (list ascii) (list ascii))
    (chunk_dir a : list ascii) (n : nat) :
  fs !! path_join chunk_dir a = None ->
  List.filter
    (fun chunk_file =>
       match fs !! path_join chunk_dir chunk_file with
       | Some _ => false
       | None => true
       end) (repeat a n) = repeat a n.
Proof.
  intros H. induction n as [|n IH]; [reflexivity|].
  simpl. rewrite H, IH. reflexivity.
Qed.

(** X25: the two readers of the manifest agree. When
    [verify_chunks_exist] has answered [True] and [reconstruct_file],
    asked to write a file that is not there yet, returns, the output holds
    all the chunks of the manifest, in its order: the run has not stopped at
    a missing chunk. *)
Theorem verify_then_reconstruct
    (listdir : gmap (list ascii) (list ascii) -> list ascii -> list (list ascii))
    (fs fs' : gmap (list ascii) (list ascii))
    (chunk_dir out manifest_file : list ascii) (others : list (list ascii))
    (manifest msg : list ascii) (success : bool) :
  manifest_files listdir fs chunk_dir = manifest_file :: others ->
  fs !! path_join chunk_dir manifest_file = Some manifest ->
  manifest_chunk_names (readlines manifest) <> [] ->
  fs !! out = None ->
  verify_chunks_exist listdir fs chunk_dir = Done (true, msg) ->
  reconstruct_file listdir fs chunk_dir (Some out) = Done (success, fs') ->
  exists chunks,
    Forall2 (fun name chunk => fs !! path_join chunk_dir name = Some chunk)
      (manifest_chunk_names (readlines manifest)) chunks
    /\ fs' = <[out := concat chunks]> fs.
Proof.
  intros Hm Hl Hne Hnew Hver Hrec.
  unfold verify_chunks_exist in Hver. rewrite Hm, Hl in Hver.
  destruct (List.filter _ (manifest_chunk_names (readlines manifest)))
    as [|x l] eqn:Hmiss; [|discriminate].
  destruct (none_missing _ _ _ Hmiss) as [chunks Hall].
  exists chunks. split; [exact Hall|].
  assert (Hparse : exists info size,
            parse_manifest (readlines manifest) no_info = Done info
            /\ original_size info = Some size).
  { unfold reconstruct_file in Hrec. rewrite Hm, Hl in Hrec.
    destruct (parse_manifest (readlines manifest) no_info) as [info|] eqn:Hp;
      [|discriminate].
    pose proof (parse_manifest_names _ _ _ Hp) as Hn.
    unfold no_info in Hn. cbn [chunk_files app] in Hn.
    destruct (chunk_files info) as [|c cs] eqn:Hc; [congruence|].
    destruct (original_size info) as [size|] eqn:Hsz; [|discriminate].
    exists info, size. split; [reflexivity | exact Hsz]. }
  destruct Hparse as (info & size & Hp & Hs).
  pose proof (parse_manifest_names _ _ _ Hp) as Hn.
  unfold no_info in Hn. cbn [chunk_files app] in Hn.
  rewrite (reconstruct_file_all listdir fs chunk_dir (Some out) manifest_file
             others manifest info size chunks Hm Hl Hp Hs) in Hrec.
  - injection Hrec as _ <-. reflexivity.
  - rewrite Hn. exact Hne.
  - rewrite Hn. exact Hall.
  - rewrite Hn. simpl. intros name Hname Heq.
    assert (Hex : exists chunk, fs !! path_join chunk_dir name = Some chunk).
    { clear -Hall Hname. induction Hall as [|n c ns cs Hn _ IH].
      - destruct Hname.
      - destruct Hname as [<- | Hname]; [exists c; exact Hn | exact (IH Hname)]. }
    destruct Hex as [chunk Hchunk]. rewrite Heq, Hnew in Hchunk. discriminate.
Qed.

Lemma verify_then_reconstruct_witness :
  exists chunks,
    Forall2 (fun name chunk => chunks_fs !! path_join (txt "/c") name = Some chunk)
      [txt "x_part_01.chunk"; txt "x_part_02.chunk"] chunks
    /\ <[txt "/c/y.bin" := txt "hello"]> chunks_fs
       = <[txt "/c/y.bin" := concat chunks]> chunks_fs.
Proof.
  apply (verify_then_reconstruct dir_names chunks_fs
           (<[txt "/c/y.bin" := txt "hello"]> chunks_fs)
           (txt "/c") (txt "/c/y.bin") (txt "x_manifest.txt") []
           small_manifest (txt "All 2 chunk files found") true).
  - vm_compute. reflexivity.
  - vm_compute. reflexivity.
  - vm_compute. discriminate.
  - vm_compute. reflexivity.
  - vm_compute. reflexivity.
  - rewrite (reconstruct_file_all dir_names chunks_fs (txt "/c")
               (Some (txt "/c/y.bin")) (txt "x_manifest.txt") [] small_manifest
               {| chunk_files := [txt "x_part_01.chunk"; txt "x_part_02.chunk"];
                  original_filename := Some (txt "x.bin");
                  original_size := Some 5 |}
               5 [txt "hel"; txt "lo"]).
    + reflexivity.
    + vm_compute. reflexivity.
    + vm_compute. reflexivity.
    + vm_compute. reflexivity.
    + reflexivity.
    + discriminate.
    + repeat constructor.
    + intros name [<- | [<- | []]]; vm_compute; discriminate.
Defined.

Lemma lstrip_length (x y : list ascii) (c : ascii) :
  is_space c = false -> (S (length y) <= length (lstrip (x ++ c :: y)))%nat.
Proof.
  intros Hc. induction x as [|d x IH]; simpl.
  - rewrite Hc. simpl. lia.
  - destruct (is_space d); [exact IH|]. simpl. rewrite length_app. simpl. lia.
Qed.

Lemma strip_length_lower (x : ascii) (a rest : list ascii) (c d : ascii) :
  is_space x = false -> is_space d = false ->
  (2 + length (x :: a)
   <= length (strip ((x :: a) ++ c :: d :: rest)))%nat.
Proof.
  intros Hx Hd. unfold strip. rewrite length_rev.
  simpl app. rewrite (lstrip_id x _ Hx).
  change (x :: a ++ c :: d :: rest) with ((x :: a) ++ [c] ++ d :: rest).
  rewrite !rev_app_distr.
  change (rev (d :: rest)) with (rev rest ++ [d]).
  rewrite <- !app_assoc.
  change ([d] ++ rev [c] ++ rev (x :: a)) with (d :: (c :: rev (x :: a))).
  pose proof (lstrip_length (rev rest) (c :: rev (x :: a)) d Hd) as H.
  change (length (c :: rev (x :: a))) with (S (length (rev (x :: a)))) in H.
  rewrite length_rev in H. lia.
Qed.

(** X26: a file whose name has [" ("] in its base, as in [report (1).pkl],
    is split but cannot be put together again. The manifest reader cuts
    every chunk name at the first [" ("]: [verify_chunks_exist] reports
    the cut name missing once for each chunk, and [reconstruct_file]
    returns [False] and leaves an empty output file. The cut name is taken
    not to be empty and not to be a file of the output directory. *)
Theorem reconstruct_after_split_parenthesis
    (listdir : gmap (list ascii) (list ascii) -> list ascii -> list (list ascii))
    (fs : gmap (list ascii) (list ascii))
    (input_file output_dir : list ascii) (chunk_size_mb : Z)
    (data a b : list ascii) :
  listdir_law listdir ->
  fs !! input_file = Some data -> data <> [] -> 0 < chunk_size_mb ->
  ~ In "010"%char (basename input_file) ->
  ~ In "013"%char (basename input_file) ->
  (splitext (basename input_file)).1 = a ++ txt " (" ++ b ->
  a <> [] -> contains a (txt " (") = false ->
  fs !! path_join output_dir a = None ->
  (forall name,
     endswith name (txt "_manifest.txt") = true ->
     name <> (splitext (basename input_file)).1 ++ txt "_manifest.txt" ->
     fs !! path_join output_dir name = None) ->
  exists chunk_files manifest_path fs1,
    split_file fs input_file output_dir chunk_size_mb
    = Done (chunk_files, manifest_path, fs1)
    /\ chunk_files <> []
    /\ verify_chunks_exist listdir fs1 output_dir
       = Done (false,
               txt "Missing chunk files: "
               ++ join_with (txt ", ") (repeat a (length chunk_files)))
    /\ reconstruct_file listdir fs1 output_dir None
       = Done (false,
               <[path_join output_dir
                   (txt "reconstructed_" ++ strip (basename input_file))
                 := []]> fs1).
Proof.
  intros Hlaw Hdata Hne Hmb Hnl Hcr Hbase Ha Hpar Hfree Hstale.
  destruct (split_file_result fs input_file output_dir chunk_size_mb data
              Hdata Hmb) as (fs1 & fsx & lines & Hrun & Hin & Hlines & Hman & Hframe).
  set (C := chunk_size_mb * 1024 * 1024) in *.
  set (base_name := (splitext (basename input_file)).1) in *.
  set (num_chunks := ceil_div (Z.of_nat (length data)) C) in *.
  set (n := Z.to_nat num_chunks) in *.
  set (names := map (chunk_filename base_name) (seq 0 n)) in *.
  assert (HC : 0 < C) by (unfold C; lia).
  destruct (ceil_div_bounds (Z.of_nat (length data)) C HC) as [Hup Hlow].
  fold num_chunks in Hup, Hlow.
  assert (Hlen : 0 < Z.of_nat (length data)).
  { destruct data; [congruence | simpl; lia]. }
  assert (Hn : (0 < n)%nat) by (unfold n; nia).
  assert (Hb : ~ In "/"%char base_name).
  { apply splitext_prefix, basename_no_slash. }
  assert (Hslash : ~ In "/"%char a).
  { intros Hi. apply Hb. rewrite Hbase. apply in_or_app. left. exact Hi. }
  destruct (manifest_found listdir Hlaw fs fs1 output_dir base_name n _
              Hb Hstale Hman Hframe) as [others Hmf].
  assert (Hgood := chunk_names_readable base_name n
            (splitext_prefix _ _ Hnl) (splitext_prefix _ _ Hcr)).
  fold names in Hgood.
  pose proof (parse_written_manifest fsx output_dir (basename input_file)
                (length data) num_chunks names lines Hnl Hcr Hgood Hlines)
    as Hparse.
  unfold names in Hparse at 1. rewrite Hbase in Hparse at 1.
  rewrite (chunk_names_cut a b _ Hpar), length_seq in Hparse.
  pose proof (parse_manifest_names _ _ _ Hparse) as Hnames.
  unfold no_info in Hnames. cbn [chunk_files app] in Hnames.
  assert (Hcut : fs1 !! path_join output_dir a = None).
  { rewrite Hframe; [exact Hfree | |].
    - intros Heq. apply path_join_inj in Heq.
      + apply (f_equal (@length _)) in Heq. rewrite Hbase in Heq.
        rewrite !length_app in Heq. simpl in Heq. lia.
      + apply startswith_slash, Hslash.
      + apply startswith_slash, manifest_name_no_slash, Hb.
    - intros j _ Heq. apply path_join_inj in Heq.
      + apply (f_equal (@length _)) in Heq. unfold chunk_filename in Heq.
        rewrite Hbase in Heq. rewrite !length_app in Heq. simpl in Heq. lia.
      + apply startswith_slash, Hslash.
      + apply startswith_slash, chunk_filename_no_slash, Hb. }
  assert (Hnn : length names = n).
  { unfold names. rewrite length_map, length_seq. reflexivity. }
  exists names, (path_join output_dir (base_name ++ txt "_manifest.txt")), fs1.
  split; [exact Hrun|]. split; [|split].
  - intros Hnil. rewrite Hnil in Hnn. simpl in Hnn. lia.
  - unfold verify_chunks_exist. rewrite Hmf, Hman, <- Hnames.
    rewrite (all_missing fs1 output_dir a n Hcut), Hnn.
    destruct n as [|n']; [lia | reflexivity].
  - rewrite (reconstruct_file_run listdir fs1 output_dir None _ others _ _
               (Z.of_nat (length data)) Hmf Hman Hparse eq_refl).
    2:{ simpl. destruct n; [lia | discriminate]. }
    cbv zeta. cbn [chunk_files original_filename].
    destruct n as [|n']; [lia|]. cbn [repeat].
    rewrite copy_chunks_cons.
    rewrite lookup_insert_ne, Hcut; [reflexivity|].
    unfold output_path, str_of_filename. intros Heq.
    apply path_join_inj in Heq;
      [| reflexivity | apply startswith_slash, Hslash].
    assert (Hx : exists a', a = "r"%char :: a').
    { rewrite <- Heq. eexists. reflexivity. }
    destruct Hx as [a' Ha'].
    destruct (splitext_spec (basename input_file)) as [Hsplit _].
    fold base_name in Hsplit. rewrite Hbase, Ha' in Hsplit.
    rewrite <- !app_assoc in Hsplit.
    change (txt " (" ++ ?r) with (" "%char :: "("%char :: r) in Hsplit.
    pose proof (strip_length_lower "r" a'
                  (b ++ (splitext (basename input_file)).2) " " "("
                  eq_refl eq_refl) as Hlow'.
    rewrite <- Hsplit in Hlow'.
    apply (f_equal (@length _)) in Heq. rewrite length_app in Heq.
    rewrite Ha' in Heq. simpl length in *. lia.
Qed.

Lemma paren_fs_no_manifest (name : list ascii) :
  endswith name (txt "_manifest.txt") = true ->
  paren_fs !! path_join (txt "/out") name = None.
Proof.
  intros Hend. apply lookup_singleton_ne. unfold path_join.
  destruct (startswith name (txt "/")) eqn:E.
  - intros <-. vm_compute in Hend. discriminate.
  - intros Heq. vm_compute in Heq. discriminate.
Qed.

Lemma reconstruct_after_split_parenthesis_witness :
  exists chunk_files manifest_path fs1,
    split_file paren_fs (txt "/in/a (1).bin") (txt "/out") 1
    = Done (chunk_files, manifest_path, fs1)
    /\ reconstruct_file dir_names fs1 (txt "/out") None
       = Done (false, <[txt "/out/reconstructed_a (1).bin" := []]> fs1).
Proof.
  destruct (reconstruct_after_split_parenthesis dir_names paren_fs
              (txt "/in/a (1).bin") (txt "/out") 1 (txt "hello")
              (txt "a") (txt "1)"))
    as (chunk_files & manifest_path & fs1 & Hrun & _ & _ & Hrec).
  - exact dir_names_law.
  - apply lookup_singleton_eq.
  - discriminate.
  - lia.
  - apply forallb_free. reflexivity.
  - apply forallb_free. reflexivity.
  - reflexivity.
  - discriminate.
  - reflexivity.
  - apply lookup_singleton_ne. vm_compute. discriminate.
  - intros name Hend _. apply paren_fs_no_manifest, Hend.
  - exists chunk_files, manifest_path, fs1. split; [exact Hrun | exact Hrec].
Defined.

End VerifyProperties.
